(** * PyVisio: a shallow embedding of the package and its specification

    The package is a thin layer of Python 2 classes over the automation
    interface of a drawing application.  The Python code is embedded as
    computations in a state-and-exception monad; the drawing application
    is a state machine that answers automation calls, each of which may
    fail with [com_error]. *)

From stdpp Require Import gmap strings list fin_maps pretty.
From Stdlib Require Import Floats Ascii.

Local Open Scope string_scope.
Local Open Scope list_scope.
Local Open Scope Z_scope.

(** ** Values and object handles of the automation interface *)

Definition HRESULT := Z.

(** The code every failure raised by the application itself carries. *)
Definition DISP_E_EXCEPTION : HRESULT := -2147352567.

Inductive Variant :=
| VEmpty
| VBool (b : bool)
| VInt (z : Z)
| VFloat (f : float)
| VStr (s : string).

Inductive IVDocument := DocumentObj (d : nat).
Inductive IVPages := PagesObj (d : nat).
Inductive IVPage := PageObj (d : nat) (i : nat).
Inductive IVMaster := MasterObj (d : nat) (i : nat).
Inductive IVShape :=
| ShapeObj (id : nat)
| MasterShapeObj (d : nat) (i : nat) (j : nat).
Inductive IVCell := CellObj (sh : IVShape) (name : string).
Inductive IVConnect := ConnectObj (id : nat) (k : nat).

(** Constants of the type library that the package names. *)
Module vC.
Definition visOpenDocked : Z := 4.
Definition visObjTypeUnknown : Z := 1.
Definition visObjTypeMaster : Z := 4.
Definition visBBoxUprightWH : Z := 1.
Definition visDeleteNormal : Z := 0.
Definition visAutoConnectDirNone : Z := 0.
Definition visNone : Z := 0.
End vC.

(** ** The object model of the drawing application *)

Record Sheet := {
  sh_NameU : string;
  sh_Text : string;
  sh_OneD : bool;
  sh_cells : gmap string Variant;
  sh_page : nat * nat;
  sh_FromConnects : list nat }.

Record Master := {
  ms_NameU : string;
  ms_ObjectType : Z;
  ms_Shapes : list Sheet }.

Record Page := {
  pg_NameU : string;
  pg_AutoSize : bool }.

Record Document := {
  dc_FullName : string;
  dc_props : gmap string Variant;
  dc_Masters : list Master;
  dc_Pages : list Page }.

(** What the application computes from a formula or a sheet is its own
    business: the evaluators are part of the application state. *)
Record Engine := {
  ResultIU_of : Variant → float;
  ResultStr_of : Variant → string;
  FormulaU_of : Variant → string;
  BoundingBox_of : Sheet → float * float * float * float }.

Record Visio := {
  disk : gmap string Document;
  Documents : gmap nat Document;
  Shapes : gmap nat Sheet;
  fresh : nat;
  AlertResponse : Z;
  ActivePage : option (nat * nat);
  RasterExportUseTransparencyColor : Z;
  Visible : bool;
  engine : Engine }.

Definition set_disk (f : gmap string Document → gmap string Document) (v : Visio) : Visio :=
  {| disk := f (disk v); Documents := Documents v; Shapes := Shapes v;
     fresh := fresh v; AlertResponse := AlertResponse v;
     ActivePage := ActivePage v;
     RasterExportUseTransparencyColor := RasterExportUseTransparencyColor v;
     Visible := Visible v; engine := engine v |}.

Definition set_Documents (f : gmap nat Document → gmap nat Document) (v : Visio) : Visio :=
  {| disk := disk v; Documents := f (Documents v); Shapes := Shapes v;
     fresh := fresh v; AlertResponse := AlertResponse v;
     ActivePage := ActivePage v;
     RasterExportUseTransparencyColor := RasterExportUseTransparencyColor v;
     Visible := Visible v; engine := engine v |}.

Definition set_Shapes (f : gmap nat Sheet → gmap nat Sheet) (v : Visio) : Visio :=
  {| disk := disk v; Documents := Documents v; Shapes := f (Shapes v);
     fresh := fresh v; AlertResponse := AlertResponse v;
     ActivePage := ActivePage v;
     RasterExportUseTransparencyColor := RasterExportUseTransparencyColor v;
     Visible := Visible v; engine := engine v |}.

Definition bump (v : Visio) : Visio :=
  {| disk := disk v; Documents := Documents v; Shapes := Shapes v;
     fresh := S (fresh v); AlertResponse := AlertResponse v;
     ActivePage := ActivePage v;
     RasterExportUseTransparencyColor := RasterExportUseTransparencyColor v;
     Visible := Visible v; engine := engine v |}.

Definition set_AlertResponse (z : Z) (v : Visio) : Visio :=
  {| disk := disk v; Documents := Documents v; Shapes := Shapes v;
     fresh := fresh v; AlertResponse := z;
     ActivePage := ActivePage v;
     RasterExportUseTransparencyColor := RasterExportUseTransparencyColor v;
     Visible := Visible v; engine := engine v |}.

Definition set_ActivePage (p : option (nat * nat)) (v : Visio) : Visio :=
  {| disk := disk v; Documents := Documents v; Shapes := Shapes v;
     fresh := fresh v; AlertResponse := AlertResponse v;
     ActivePage := p;
     RasterExportUseTransparencyColor := RasterExportUseTransparencyColor v;
     Visible := Visible v; engine := engine v |}.

Definition set_Raster (z : Z) (v : Visio) : Visio :=
  {| disk := disk v; Documents := Documents v; Shapes := Shapes v;
     fresh := fresh v; AlertResponse := AlertResponse v;
     ActivePage := ActivePage v;
     RasterExportUseTransparencyColor := z;
     Visible := Visible v; engine := engine v |}.

Definition set_Visible (b : bool) (v : Visio) : Visio :=
  {| disk := disk v; Documents := Documents v; Shapes := Shapes v;
     fresh := fresh v; AlertResponse := AlertResponse v;
     ActivePage := ActivePage v;
     RasterExportUseTransparencyColor := RasterExportUseTransparencyColor v;
     Visible := b; engine := engine v |}.

(** ** The automation calls the package makes

    One constructor per call, indexed by the type of what the call
    returns.  A chain of plain property reads on the way to a call
    ([Application.ActiveWindow.Page], [master.Shapes.Item(1)]) is one call. *)

Inductive ComCall : Type → Type :=
| EnsureDispatch (progid : string) : ComCall unit
| Application_Visible_put (b : bool) : ComCall unit
| Application_AlertResponse : ComCall Z
| Application_AlertResponse_put (z : Z) : ComCall unit
| ActiveWindow_Page : ComCall IVPage
| ActiveWindow_Page_put (name : string) : ComCall unit
| Settings_RasterExportUseTransparencyColor_put (z : Z) : ComCall unit
| Documents_Add (filename : string) : ComCall IVDocument
| Documents_Open (filename : string) : ComCall IVDocument
| Documents_OpenEx (filename : string) (flags : Z) : ComCall IVDocument
| Document_Pages (d : IVDocument) : ComCall IVPages
| Document_get (d : IVDocument) (item : string) : ComCall Variant
| Document_put (d : IVDocument) (name : string) (value : Variant) : ComCall unit
| Document_Save (d : IVDocument) : ComCall unit
| Document_SaveAs (d : IVDocument) (filename : string) : ComCall unit
| Document_Print (d : IVDocument) : ComCall unit
| Document_ExportAsFixedFormat (d : IVDocument) (FixedFormat : Z)
    (OutputFileName : string) (Intent PrintRange : Z) : ComCall unit
| Document_Close (d : IVDocument) : ComCall unit
| Document_Masters (d : IVDocument) : ComCall (list IVMaster)
| Masters_ItemU (d : IVDocument) (name : string) : ComCall IVMaster
| Master_NameU (m : IVMaster) : ComCall string
| Master_ObjectType (m : IVMaster) : ComCall Z
| Master_Shapes_Count (m : IVMaster) : ComCall Z
| Master_Shapes_Item (m : IVMaster) (i : Z) : ComCall IVShape
| Master_BoundingBox (m : IVMaster) (flags : Z) : ComCall (float * float * float * float)
| Pages_Count (ps : IVPages) : ComCall Z
| Pages_Add (ps : IVPages) : ComCall IVPage
| Pages_enum (ps : IVPages) : ComCall (list IVPage)
| Pages_ItemU (ps : IVPages) (key : Z + string) : ComCall IVPage
| Page_AutoSize_put (p : IVPage) (b : bool) : ComCall unit
| Page_NameU_put (p : IVPage) (name : string) : ComCall unit
| Page_NameU (p : IVPage) : ComCall string
| Page_Index (p : IVPage) : ComCall Z
| Page_Drop (p : IVPage) (master : IVMaster) (x y : float) : ComCall IVShape
| Page_CenterDrawing (p : IVPage) : ComCall unit
| Page_ResizeToFitContents (p : IVPage) : ComCall unit
| Shape_CellsU (sh : IVShape) (name : string) : ComCall IVCell
| Shape_Cells (sh : IVShape) (name : string) : ComCall IVCell
| Shape_CellExistsU (sh : IVShape) (name : string) (fExistsLocally : Z) : ComCall bool
| Shape_BoundingBox (sh : IVShape) (flags : Z) : ComCall (float * float * float * float)
| Shape_SetCenter (sh : IVShape) (x y : float) : ComCall unit
| Shape_Text (sh : IVShape) : ComCall string
| Shape_Text_put (sh : IVShape) (s : string) : ComCall unit
| Shape_OneD (sh : IVShape) : ComCall Z
| Shape_DeleteEx (sh : IVShape) (flags : Z) : ComCall unit
| Shape_Export (sh : IVShape) (filename : string) : ComCall unit
| Shape_NameU (sh : IVShape) : ComCall string
| Shape_FromConnects (sh : IVShape) : ComCall (list IVConnect)
| Connect_FromSheet_ID (c : IVConnect) : ComCall nat
| Shape_AutoConnect (sh : IVShape) (to : option IVShape) (dir : Z)
    (connector : option IVMaster) : ComCall unit
| Shape_Invoke (sh : IVShape) (member : string) (arguments : list Variant) : ComCall unit
| Shape_ContainingPage_Shapes_ItemFromID (sh : IVShape) (id : nat) : ComCall IVShape
| Cell_FormulaU (c : IVCell) : ComCall string
| Cell_FormulaU_put (c : IVCell) (v : Variant) : ComCall unit
| Cell_ResultIU (c : IVCell) : ComCall float
| Cell_ResultStr (c : IVCell) (units : Z) : ComCall string.

(** ** How the application answers *)

Module App.

Definition Answer (A : Type) : Type := HRESULT + A * Visio.
Definition fail {A} : Answer A := inl DISP_E_EXCEPTION.
Definition answer {A} (a : A) (v : Visio) : Answer A := inr (a, v).

Definition blank_sheet : Sheet :=
  {| sh_NameU := ""; sh_Text := ""; sh_OneD := false; sh_cells := ∅;
     sh_page := (0%nat, 0%nat); sh_FromConnects := [] |}.

Definition blank_document : Document :=
  {| dc_FullName := ""; dc_props := ∅; dc_Masters := [];
     dc_Pages := [ {| pg_NameU := "Page-1"; pg_AutoSize := false |} ] |}.

Definition bind_to (file : string) (doc : Document) : Document :=
  {| dc_FullName := file; dc_props := dc_props doc;
     dc_Masters := dc_Masters doc; dc_Pages := dc_Pages doc |}.

Definition set_props (f : gmap string Variant → gmap string Variant) (doc : Document) : Document :=
  {| dc_FullName := dc_FullName doc; dc_props := f (dc_props doc);
     dc_Masters := dc_Masters doc; dc_Pages := dc_Pages doc |}.

Definition set_Pages (f : list Page → list Page) (doc : Document) : Document :=
  {| dc_FullName := dc_FullName doc; dc_props := dc_props doc;
     dc_Masters := dc_Masters doc; dc_Pages := f (dc_Pages doc) |}.

Definition set_cells (f : gmap string Variant → gmap string Variant) (s : Sheet) : Sheet :=
  {| sh_NameU := sh_NameU s; sh_Text := sh_Text s; sh_OneD := sh_OneD s;
     sh_cells := f (sh_cells s); sh_page := sh_page s;
     sh_FromConnects := sh_FromConnects s |}.

Definition set_Text (t : string) (s : Sheet) : Sheet :=
  {| sh_NameU := sh_NameU s; sh_Text := t; sh_OneD := sh_OneD s;
     sh_cells := sh_cells s; sh_page := sh_page s;
     sh_FromConnects := sh_FromConnects s |}.

Definition add_connect (id : nat) (s : Sheet) : Sheet :=
  {| sh_NameU := sh_NameU s; sh_Text := sh_Text s; sh_OneD := sh_OneD s;
     sh_cells := sh_cells s; sh_page := sh_page s;
     sh_FromConnects := sh_FromConnects s ++ [id] |}.

(** A new document object made from a file on disk; [file] is the path
    the document stays bound to (empty for a copy of a template). *)
Definition open_document (doc : Document) (file : string) (v : Visio) : Answer IVDocument :=
  let d := fresh v in
  answer (DocumentObj d)
    (set_ActivePage (if dc_Pages doc is [] then ActivePage v else Some (d, 0%nat))
       (bump (set_Documents <[d := bind_to file doc]> v))).

Definition load (filename : string) (file : string) (v : Visio) : Answer IVDocument :=
  match disk v !! filename with
  | Some doc => open_document doc file v
  | None => fail
  end.

Definition on_document {A} (d : nat) (v : Visio) (k : Document → Answer A) : Answer A :=
  match Documents v !! d with Some doc => k doc | None => fail end.

Definition on_page {A} (p : IVPage) (v : Visio) (k : Document → Page → Answer A) : Answer A :=
  let 'PageObj d i := p in
  on_document d v (λ doc, match dc_Pages doc !! i with Some pg => k doc pg | None => fail end).

Definition on_master {A} (m : IVMaster) (v : Visio) (k : Master → Answer A) : Answer A :=
  let 'MasterObj d i := m in
  on_document d v (λ doc, match dc_Masters doc !! i with Some ms => k ms | None => fail end).

Definition sheet_of (v : Visio) (sh : IVShape) : option Sheet :=
  match sh with
  | ShapeObj id => Shapes v !! id
  | MasterShapeObj d i j =>
      doc ← Documents v !! d; ms ← dc_Masters doc !! i; ms_Shapes ms !! j
  end.

Definition on_sheet {A} (sh : IVShape) (v : Visio) (k : Sheet → Answer A) : Answer A :=
  match sheet_of v sh with Some s => k s | None => fail end.

Definition on_cell {A} (c : IVCell) (v : Visio) (k : Variant → Answer A) : Answer A :=
  let 'CellObj sh name := c in
  on_sheet sh v (λ s, match sh_cells s !! name with Some x => k x | None => fail end).

Definition update_sheet (sh : IVShape) (f : Sheet → Sheet) (v : Visio) : Answer unit :=
  match sh with
  | ShapeObj id =>
      match Shapes v !! id with
      | Some s => answer tt (set_Shapes <[id := f s]> v)
      | None => fail
      end
  | MasterShapeObj _ _ _ => fail
  end.

Definition cell_of (sh : IVShape) (name : string) (v : Visio) : Answer IVCell :=
  on_sheet sh v (λ s, if sh_cells s !! name is Some _ then answer (CellObj sh name) v else fail).

(** The name a new instance of a master gets on the page. *)
Definition instance_name (v : Visio) (base : string) (id : nat) : string :=
  if bool_decide (base ∈ sh_NameU <$> (map_to_list (Shapes v)).*2)
  then base +:+ "." +:+ pretty id else base.

Definition first_sheet (ms : Master) : Sheet := default blank_sheet (ms_Shapes ms !! 0%nat).

Definition instantiate (v : Visio) (ms : Master) (page : nat * nat) (oneD : bool)
    (cells : gmap string Variant → gmap string Variant) : Sheet :=
  let base := first_sheet ms in
  {| sh_NameU := instance_name v (ms_NameU ms) (fresh v); sh_Text := sh_Text base;
     sh_OneD := oneD; sh_cells := cells (sh_cells base); sh_page := page;
     sh_FromConnects := [] |}.

Definition dynamic_connector : Master :=
  {| ms_NameU := "Dynamic connector"; ms_ObjectType := vC.visObjTypeMaster;
     ms_Shapes := [] |}.

Definition connector_master (v : Visio) (connector : option IVMaster) : option Master :=
  match connector with
  | None => Some dynamic_connector
  | Some (MasterObj d i) => doc ← Documents v !! d; dc_Masters doc !! i
  end.

Definition auto_connect (a : IVShape) (b : option IVShape) (connector : option IVMaster)
    (v : Visio) : Answer unit :=
  match a, b with
  | ShapeObj ia, Some (ShapeObj ib) =>
      match Shapes v !! ia, Shapes v !! ib, connector_master v connector with
      | Some sa, Some sb, Some ms =>
          if decide (sh_page sa = sh_page sb) then
            let id := fresh v in
            let conn := instantiate v ms (sh_page sa) true (λ c, c) in
            answer tt
              (bump (set_Shapes (λ m, <[id := conn]>
                 (alter (add_connect id) ib (alter (add_connect id) ia m))) v))
          else fail
      | _, _, _ => fail
      end
  | _, _ => fail
  end.

End App.

(** The answer of the application to one call. *)
Definition invoke {A} (c : ComCall A) (v : Visio) : App.Answer A :=
  match c in ComCall T return App.Answer T with
  | EnsureDispatch _ => App.answer tt v
  | Application_Visible_put b => App.answer tt (set_Visible b v)
  | Application_AlertResponse => App.answer (AlertResponse v) v
  | Application_AlertResponse_put z => App.answer tt (set_AlertResponse z v)
  | ActiveWindow_Page =>
      match ActivePage v with
      | Some (d, i) => App.on_page (PageObj d i) v (λ _ _, App.answer (PageObj d i) v)
      | None => App.fail
      end
  | ActiveWindow_Page_put name =>
      match ActivePage v with
      | Some (d, _) =>
          App.on_document d v (λ doc,
            match list_find (λ pg, pg_NameU pg = name) (dc_Pages doc) with
            | Some (i, _) => App.answer tt (set_ActivePage (Some (d, i)) v)
            | None => App.fail
            end)
      | None => App.fail
      end
  | Settings_RasterExportUseTransparencyColor_put z => App.answer tt (set_Raster z v)
  | Documents_Add filename =>
      if decide (filename = "") then App.open_document App.blank_document "" v
      else App.load filename "" v
  | Documents_Open filename => App.load filename filename v
  | Documents_OpenEx filename _ => App.load filename filename v
  | Document_Pages (DocumentObj d) =>
      App.on_document d v (λ _, App.answer (PagesObj d) v)
  | Document_get (DocumentObj d) item =>
      App.on_document d v (λ doc, App.answer (default VEmpty (dc_props doc !! item)) v)
  | Document_put (DocumentObj d) name value =>
      App.on_document d v (λ doc,
        App.answer tt (set_Documents <[d := App.set_props <[name := value]> doc]> v))
  | Document_Save (DocumentObj d) =>
      App.on_document d v (λ doc,
        if decide (dc_FullName doc = "") then App.fail
        else App.answer tt (set_disk <[dc_FullName doc := doc]> v))
  | Document_SaveAs (DocumentObj d) filename =>
      App.on_document d v (λ doc,
        if decide (filename = "") then App.fail
        else App.answer tt
               (set_disk <[filename := App.bind_to filename doc]>
                  (set_Documents <[d := App.bind_to filename doc]> v)))
  | Document_Print (DocumentObj d) => App.on_document d v (λ _, App.answer tt v)
  | Document_ExportAsFixedFormat (DocumentObj d) _ _ _ _ =>
      App.on_document d v (λ _, App.answer tt v)
  | Document_Close (DocumentObj d) =>
      App.on_document d v (λ _,
        App.answer tt
          (set_ActivePage (if ActivePage v is Some (d', i)
                           then (if decide (d' = d) then None else Some (d', i))
                           else None)
             (set_Documents (delete d) v)))
  | Document_Masters (DocumentObj d) =>
      App.on_document d v (λ doc,
        App.answer (MasterObj d <$> seq 0 (length (dc_Masters doc))) v)
  | Masters_ItemU (DocumentObj d) name =>
      App.on_document d v (λ doc,
        match list_find (λ ms, ms_NameU ms = name) (dc_Masters doc) with
        | Some (i, _) => App.answer (MasterObj d i) v
        | None => App.fail
        end)
  | Master_NameU m => App.on_master m v (λ ms, App.answer (ms_NameU ms) v)
  | Master_ObjectType m => App.on_master m v (λ ms, App.answer (ms_ObjectType ms) v)
  | Master_Shapes_Count m =>
      App.on_master m v (λ ms, App.answer (Z.of_nat (length (ms_Shapes ms))) v)
  | Master_Shapes_Item (MasterObj d i) z =>
      App.on_master (MasterObj d i) v (λ ms,
        if decide (1 ≤ z ≤ Z.of_nat (length (ms_Shapes ms)))
        then App.answer (MasterShapeObj d i (Z.to_nat (z - 1))) v else App.fail)
  | Master_BoundingBox m _ =>
      App.on_master m v (λ ms, App.answer (BoundingBox_of (engine v) (App.first_sheet ms)) v)
  | Pages_Count (PagesObj d) =>
      App.on_document d v (λ doc, App.answer (Z.of_nat (length (dc_Pages doc))) v)
  | Pages_Add (PagesObj d) =>
      App.on_document d v (λ doc,
        let i := length (dc_Pages doc) in
        let pg := {| pg_NameU := "Page-" +:+ pretty (S i); pg_AutoSize := false |} in
        App.answer (PageObj d i)
          (set_ActivePage (Some (d, i))
             (set_Documents <[d := App.set_Pages (λ ps, ps ++ [pg]) doc]> v)))
  | Pages_enum (PagesObj d) =>
      App.on_document d v (λ doc,
        App.answer (PageObj d <$> seq 0 (length (dc_Pages doc))) v)
  | Pages_ItemU (PagesObj d) key =>
      App.on_document d v (λ doc,
        match key with
        | inl z =>
            if decide (1 ≤ z ≤ Z.of_nat (length (dc_Pages doc)))
            then App.answer (PageObj d (Z.to_nat (z - 1))) v else App.fail
        | inr name =>
            match list_find (λ pg, pg_NameU pg = name) (dc_Pages doc) with
            | Some (i, _) => App.answer (PageObj d i) v
            | None => App.fail
            end
        end)
  | Page_AutoSize_put (PageObj d i) b =>
      App.on_page (PageObj d i) v (λ doc pg,
        let pg' := {| pg_NameU := pg_NameU pg; pg_AutoSize := b |} in
        App.answer tt (set_Documents <[d := App.set_Pages <[i := pg']> doc]> v))
  | Page_NameU_put (PageObj d i) name =>
      App.on_page (PageObj d i) v (λ doc pg,
        if decide (name = "" ∨ name ∈ pg_NameU <$> delete i (dc_Pages doc))
        then App.fail
        else
          let pg' := {| pg_NameU := name; pg_AutoSize := pg_AutoSize pg |} in
          App.answer tt (set_Documents <[d := App.set_Pages <[i := pg']> doc]> v))
  | Page_NameU p => App.on_page p v (λ _ pg, App.answer (pg_NameU pg) v)
  | Page_Index (PageObj d i) =>
      App.on_page (PageObj d i) v (λ _ _, App.answer (Z.of_nat i + 1) v)
  | Page_Drop (PageObj d i) master x y =>
      App.on_page (PageObj d i) v (λ _ _,
        App.on_master master v (λ ms,
          let id := fresh v in
          let s := App.instantiate v ms (d, i) false
                     (λ c, <["PinX" := VFloat x]> (<["PinY" := VFloat y]> c)) in
          App.answer (ShapeObj id) (bump (set_Shapes <[id := s]> v))))
  | Page_CenterDrawing p => App.on_page p v (λ _ _, App.answer tt v)
  | Page_ResizeToFitContents p => App.on_page p v (λ _ _, App.answer tt v)
  | Shape_CellsU sh name => App.cell_of sh name v
  | Shape_Cells sh name => App.cell_of sh name v
  | Shape_CellExistsU sh name _ =>
      App.on_sheet sh v (λ s, App.answer (bool_decide (is_Some (sh_cells s !! name))) v)
  | Shape_BoundingBox sh _ =>
      App.on_sheet sh v (λ s, App.answer (BoundingBox_of (engine v) s) v)
  | Shape_SetCenter sh x y =>
      App.update_sheet sh
        (App.set_cells (λ c, <["PinX" := VFloat x]> (<["PinY" := VFloat y]> c))) v
  | Shape_Text sh => App.on_sheet sh v (λ s, App.answer (sh_Text s) v)
  | Shape_Text_put sh t => App.update_sheet sh (App.set_Text t) v
  | Shape_OneD sh => App.on_sheet sh v (λ s, App.answer (if sh_OneD s then -1 else 0) v)
  | Shape_DeleteEx sh _ =>
      match sh with
      | ShapeObj id =>
          App.on_sheet sh v (λ _, App.answer tt (set_Shapes (delete id) v))
      | MasterShapeObj _ _ _ => App.fail
      end
  | Shape_Export sh _ => App.on_sheet sh v (λ _, App.answer tt v)
  | Shape_NameU sh => App.on_sheet sh v (λ s, App.answer (sh_NameU s) v)
  | Shape_FromConnects sh =>
      match sh with
      | ShapeObj id =>
          App.on_sheet sh v (λ s,
            App.answer (ConnectObj id <$> seq 0 (length (sh_FromConnects s))) v)
      | MasterShapeObj _ _ _ => App.fail
      end
  | Connect_FromSheet_ID (ConnectObj id k) =>
      App.on_sheet (ShapeObj id) v (λ s,
        match sh_FromConnects s !! k with
        | Some from => App.answer from v
        | None => App.fail
        end)
  | Shape_AutoConnect sh to _ connector => App.auto_connect sh to connector v
  | Shape_Invoke _ _ _ => App.fail
  | Shape_ContainingPage_Shapes_ItemFromID sh id =>
      App.on_sheet sh v (λ s,
        App.on_sheet (ShapeObj id) v (λ s',
          if decide (sh_page s' = sh_page s) then App.answer (ShapeObj id) v else App.fail))
  | Cell_FormulaU c => App.on_cell c v (λ x, App.answer (FormulaU_of (engine v) x) v)
  | Cell_FormulaU_put (CellObj sh name) x =>
      App.on_cell (CellObj sh name) v (λ _,
        App.update_sheet sh (App.set_cells <[name := x]>) v)
  | Cell_ResultIU c => App.on_cell c v (λ x, App.answer (ResultIU_of (engine v) x) v)
  | Cell_ResultStr c _ => App.on_cell c v (λ x, App.answer (ResultStr_of (engine v) x) v)
  end.

(** ** The Python side: exceptions, log records, the world *)

Inductive PyArg :=
| ANone
| AStr (s : string)
| AInt (z : Z)
| AReason (hr : HRESULT).

Inductive Exn :=
| com_error (hr : HRESULT)
| AttributeError (arg : PyArg)
| KeyError (arg : PyArg)
| ValueError (arg : PyArg)
| IndexError (arg : PyArg).

Inductive Result (A : Type) :=
| Ok (a : A)
| Raise (e : Exn).
Arguments Ok {A} a.
Arguments Raise {A} e.

Inductive Level := WARNING | ERROR.

Record LogRecord := {
  levelname : Level;
  msg : string;
  args : list PyArg }.

(** One automation call as it happened: the call and, when it failed,
    the error it raised. *)
Record Event := {
  ev_call : sigT ComCall;
  ev_error : option HRESULT }.

(** The world a Python operation runs in: the application, the failures
    its environment will inject (by number of the call), the calls made so
    far and the records written to the log. *)
Record World := {
  app : Visio;
  faults : nat → option HRESULT;
  trace : list Event;
  log : list LogRecord }.

Definition emit (r : LogRecord) (w : World) : World :=
  {| app := app w; faults := faults w; trace := trace w; log := log w ++ [r] |}.

Definition record {A} (c : ComCall A) (err : option HRESULT) (v : Visio) (w : World) : World :=
  {| app := v; faults := faults w;
     trace := trace w ++ [ {| ev_call := existT A c; ev_error := err |} ];
     log := log w |}.

(** ** The monad of Python operations

    [Py Self A] is a method of an object of class [Self] returning an [A]:
    it reads and updates the object and the world, and either returns or
    raises.  What an operation did to its object before it raised stays
    done. *)

Definition Py (Self A : Type) : Type := Self → World → Result A * Self * World.

Definition ret {Self A} (a : A) : Py Self A := λ self w, (Ok a, self, w).

Definition bind {Self A B} (m : Py Self A) (k : A → Py Self B) : Py Self B :=
  λ self w,
    match m self w with
    | (Ok a, self', w') => k a self' w'
    | (Raise e, self', w') => (Raise e, self', w')
    end.

Definition raise {Self A} (e : Exn) : Py Self A := λ self w, (Raise e, self, w).

Definition get_self {Self} : Py Self Self := λ self w, (Ok self, self, w).

Definition put_self {Self} (self' : Self) : Py Self unit := λ _ w, (Ok tt, self', w).

(** [try: m  except com_error as reason: h reason] *)
Definition try_com {Self A} (m : Py Self A) (h : HRESULT → Py Self A) : Py Self A :=
  λ self w,
    match m self w with
    | (Raise (com_error reason), self', w') => h reason self' w'
    | r => r
    end.

(** A caller that catches whatever [m] raises and goes on: the outcome of
    [m] becomes a value. *)
Definition attempt {Self A} (m : Py Self A) : Py Self (Result A) :=
  λ self w, let '(r, self', w') := m self w in (Ok r, self', w').

(** Python 2's [hasattr]: the attribute is fetched, and every exception the
    fetch raises means "no". *)
Definition hasattr {Self A} (m : Py Self A) : Py Self bool :=
  λ self w,
    match m self w with
    | (Ok _, self', w') => (Ok true, self', w')
    | (Raise _, self', w') => (Ok false, self', w')
    end.

(** An automation call: the environment may fail it, else the application
    answers.  Either way the call is recorded. *)
Definition com {Self A} (c : ComCall A) : Py Self A :=
  λ self w,
    match faults w (length (trace w)) with
    | Some hr => (Raise (com_error hr), self, record c (Some hr) (app w) w)
    | None =>
        match invoke c (app w) with
        | inl hr => (Raise (com_error hr), self, record c (Some hr) (app w) w)
        | inr (a, v) => (Ok a, self, record c None v w)
        end
    end.

Definition logging {Self} (lvl : Level) (fmt : string) (a : list PyArg) : Py Self unit :=
  λ self w, (Ok tt, self, emit {| levelname := lvl; msg := fmt; args := a |} w).

Declare Scope py_scope.
Delimit Scope py_scope with py.
Notation "'let*' x ':=' m 'in' k" := (bind m (λ x, k))
  (at level 10, x pattern, m at level 100, k at level 200) : py_scope.
Notation "m ';;;' k" := (bind m (λ _, k))
  (at level 100, k at level 200, right associativity) : py_scope.
Local Open Scope py_scope.

Module logger.
Definition error {Self} := @logging Self ERROR.
Definition warning {Self} := @logging Self WARNING.
End logger.

(** [for x in l: body x] *)
Fixpoint for_each {Self A} (l : list A) (body : A → Py Self unit) : Py Self unit :=
  match l with
  | [] => ret tt
  | x :: l' => body x ;;; for_each l' body
  end.

(** A method of another object, run from inside an operation: the object
    is passed and handed back with what the method made of it. *)
Definition on_object {Self Other A} (o : Other) (m : Py Other A) : Py Self (A * Other) :=
  λ self w,
    match m o w with
    | (Ok a, o', w') => (Ok (a, o'), self, w')
    | (Raise e, _, w') => (Raise e, self, w')
    end.

(** ** Python strings *)

Definition dquote : string := String (Ascii.ascii_of_nat 34) "".

(** [c in s] *)
Fixpoint occurs (c : Ascii.ascii) (s : string) : bool :=
  match s with
  | EmptyString => false
  | String c' s' => if decide (c' = c) then true else occurs c s'
  end.

(** [s.count(c)] *)
Fixpoint count (c : Ascii.ascii) (s : string) : nat :=
  match s with
  | EmptyString => 0%nat
  | String c' s' => if decide (c' = c) then S (count c s') else count c s'
  end.

(** [s.split(sep)] for a separator of one character. *)
Fixpoint split (sep : Ascii.ascii) (s : string) : list string :=
  match s with
  | EmptyString => [""]
  | String c s' =>
      if decide (c = sep) then "" :: split sep s'
      else
        match split sep s' with
        | hd :: tl => String c hd :: tl
        | [] => [String c ""]
        end
  end.

(** [os.path] belongs to the platform, not to the package: the package
    only asks it for the two functions below. *)
Class OsPath := {
  splitext : string → string * string;
  basename : string → string }.

(** * stencils.py *)

Record VisStencils := {
  __stencils : gmap string IVDocument;
  __shapes : gmap string (list string) }.

Record InfoDict := {
  objectType : Z;
  shapesCount : Z;
  width : float;
  height : float;
  size : float * float }.

Module Stencils.
Section with_os_path.
Context `{OsPath}.

Definition set_stencil (key : string) (doc : IVDocument) : Py VisStencils unit :=
  let* self := get_self in
  put_self {| __stencils := <[key := doc]> (__stencils self); __shapes := __shapes self |}.

Definition set_shape (name : string) (keys : list string) : Py VisStencils unit :=
  let* self := get_self in
  put_self {| __stencils := __stencils self; __shapes := <[name := keys]> (__shapes self) |}.

(** [os.path.basename(os.path.splitext(filename)[0])] *)
Definition key_of (filename : string) : string := basename (splitext filename).1.

(** The body of the loop over the masters of a newly opened stencil. *)
Definition register_master (key : string) (shape : IVMaster) : Py VisStencils unit :=
  let* name := com (Master_NameU shape) in
  let* self := get_self in
  if bool_decide (name ∉ dom (__shapes self)) then
    let* name := com (Master_NameU shape) in
    set_shape name [key]
  else
    let* name := com (Master_NameU shape) in
    let* self := get_self in
    match __shapes self !! name with
    | Some keys => set_shape name (key :: keys)
    | None => raise (KeyError (AStr name))
    end.

Definition add_stencil (filename : string) : Py VisStencils unit :=
  let key := key_of filename in
  let* self := get_self in
  if bool_decide (key ∉ dom (__stencils self)) then
    let* doc :=
      try_com (com (Documents_OpenEx filename vC.visOpenDocked))
        (λ reason,
           logger.error "Loading of stencil file failed for: %s" [AStr filename] ;;;
           logger.error "COM Exception: %s" [AReason reason] ;;;
           raise (com_error reason)) in
    set_stencil key doc ;;;
    let* masters := com (Document_Masters doc) in
    for_each masters (register_master key)
  else ret tt.

Definition __init__ (args : list string) : Py VisStencils unit :=
  put_self {| __stencils := ∅; __shapes := ∅ |} ;;;
  for_each args add_stencil.

Definition __iter__ : Py VisStencils (list string) :=
  let* self := get_self in
  ret (map_to_list (__shapes self)).*1.

Definition get (shape : string) (index : Z) : Py VisStencils IVMaster :=
  let* self := get_self in
  match __shapes self !! shape with
  | Some keys =>
      if bool_decide (Z.of_nat (length keys) > index ∧ index >= 0) then
        match keys !! Z.to_nat index with
        | Some key =>
            match __stencils self !! key with
            | Some doc => com (Masters_ItemU doc shape)
            | None => raise (KeyError (AStr key))
            end
        | None => raise (IndexError (AInt index))
        end
      else
        logger.error "Bad shape index: %s" [AInt index] ;;;
        raise (ValueError (AInt index))
  | None =>
      logger.error "Non existing shape: %s" [AStr shape] ;;;
      raise (KeyError (AStr shape))
  end.

Definition __getitem__ (shape : string) : Py VisStencils IVMaster := get shape 0.

Definition get_info (shape : string) (index : Z) : Py VisStencils InfoDict :=
  let* master := get shape index in
  let info_dict :=
    {| objectType := vC.visObjTypeUnknown; shapesCount := 0;
       width := 0%float; height := 0%float; size := (0%float, 0%float) |} in
  let* ty := com (Master_ObjectType master) in
  let* single :=
    (if bool_decide (ty = vC.visObjTypeMaster) then
       let* n := com (Master_Shapes_Count master) in ret (bool_decide (n = 1))
     else ret false) in
  if single then
    let* ty := com (Master_ObjectType master) in
    let* n := com (Master_Shapes_Count master) in
    let* s1 := com (Master_Shapes_Item master 1) in
    let* cw := com (Shape_Cells s1 "Width") in
    let* w := com (Cell_ResultIU cw) in
    let* s1 := com (Master_Shapes_Item master 1) in
    let* ch := com (Shape_Cells s1 "Height") in
    let* h := com (Cell_ResultIU ch) in
    let* master' := get shape index in
    let* x := com (Master_BoundingBox master' vC.visBBoxUprightWH) in
    let '(x0, x1, x2, x3) := x in
    ret {| objectType := ty; shapesCount := n; width := w; height := h;
           size := (PrimFloat.sub x2 x0, PrimFloat.sub x3 x1) |}
  else
    logger.warning "Object type is not 'master', results unpredictable" [] ;;;
    ret info_dict.

Definition export (filename shape : string) (index : Z) : Py VisStencils unit :=
  com (Settings_RasterExportUseTransparencyColor_put (-1)) ;;;
  let* master := get shape index in
  try_com
    (let* s1 := com (Master_Shapes_Item master 1) in
     com (Shape_Export s1 filename))
    (λ reason,
       logger.error "Export failed: %s" [AReason reason] ;;;
       raise (com_error reason)).

(** A client of a [VisStencils] object: any sequence of calls of its
    methods, each one caught when it raises. *)
Inductive Request :=
| Add_stencil (filename : string)
| Get (shape : string) (index : Z)
| Get_info (shape : string) (index : Z)
| Export (filename shape : string) (index : Z)
| Iter.

Definition serve (q : Request) : Py VisStencils unit :=
  match q with
  | Add_stencil filename => add_stencil filename
  | Get shape index => get shape index ;;; ret tt
  | Get_info shape index => get_info shape index ;;; ret tt
  | Export filename shape index => export filename shape index
  | Iter => __iter__ ;;; ret tt
  end.

Definition session (qs : list Request) : Py VisStencils unit :=
  for_each qs (λ q, attempt (serve q) ;;; ret tt).

End with_os_path.
End Stencils.


(** * visCOM.py *)

(** [pythoncom] belongs to the platform, as [os.path] does: of an error
    the package asks it one thing, the text that describes the error
    ([details[1]]), which the import formats into a log message. *)
Class Pythoncom := {
  strerror : HRESULT → string }.

Module visCOM.
Section with_pythoncom.
Context `{Pythoncom}.

(** The body of the module, run when it is imported. *)
Definition import : Py unit unit :=
  try_com (com (EnsureDispatch "Visio.Application"))
    (λ details,
       logger.error ("Exception: " +:+ strerror details) [] ;;;
       logger.error "It was not possible to initiate Visio COM object! Exiting..." [] ;;;
       raise (com_error details)) ;;;
  com (Application_Visible_put true).

End with_pythoncom.
End visCOM.

(** * documents.py *)

Record VisDocument := {
  _filename : string;
  _document : IVDocument;
  _pages : IVPages }.

(** The properties of the document interface that the type library
    declares; fetching an attribute that the interface does not have
    raises [AttributeError] before the application is asked.  (The methods
    of the interface are not fetched as attributes here.) *)
Definition IVDocument_properties : list string :=
  ["Title"; "Subject"; "Creator"; "Manager"; "Company"; "Category";
   "Keywords"; "Description"; "HyperlinkBase"; "AlternateNames";
   "Name"; "Path"; "FullName"; "Saved"; "ReadOnly"; "Version"].

Definition IVDocument_getattr {Self} (d : IVDocument) (item : string) : Py Self Variant :=
  if bool_decide (item ∈ IVDocument_properties) then com (Document_get d item)
  else raise (AttributeError (AStr item)).

Definition IVDocument_setattr {Self} (d : IVDocument) (name : string) (value : Variant)
  : Py Self unit :=
  if bool_decide (name ∈ IVDocument_properties) then com (Document_put d name value)
  else raise (AttributeError (AStr name)).

Definition page_arg (page : Z + string) : PyArg :=
  match page with inl z => AInt z | inr s => AStr s end.

Definition name_arg (name : option string) : PyArg :=
  match name with Some s => AStr s | None => ANone end.

Module Documents.

Definition __init__ (filename : string) (rw : bool) : Py unit VisDocument :=
  let* document :=
    try_com
      (if bool_decide (rw = false) then com (Documents_Add filename)
       else com (Documents_Open filename))
      (λ reason,
         logger.error "Loading of document failed for: %s" [AStr filename] ;;;
         logger.error "COM Exception: %s" [AReason reason] ;;;
         raise (com_error reason)) in
  let* pages := com (Document_Pages document) in
  ret {| _filename := filename; _document := document; _pages := pages |}.

Definition __getattr__ (item : string) : Py VisDocument Variant :=
  let* self := get_self in
  let* has := hasattr (IVDocument_getattr (_document self) item) in
  if has then IVDocument_getattr (_document self) item
  else
    logger.error "Property does not exist: %s" [AStr item] ;;;
    raise (AttributeError (AStr item)).

Definition __len__ : Py VisDocument Z :=
  let* self := get_self in
  com (Pages_Count (_pages self)).

Definition setProperty (name : string) (value : Variant) : Py VisDocument unit :=
  let* self := get_self in
  let* has := hasattr (IVDocument_getattr (_document self) name) in
  if has then IVDocument_setattr (_document self) name value
  else
    logger.error "Property does not exist: %s" [AStr name] ;;;
    raise (AttributeError (AStr name)).

Definition add (name : option string) : Py VisDocument Z :=
  let* self := get_self in
  let* new_page :=
    try_com (com (Pages_Add (_pages self)))
      (λ reason,
         logger.error "Page adding failed for page: %s" [name_arg name] ;;;
         logger.error "COM Exception: %s" [AReason reason] ;;;
         raise (com_error reason)) in
  com (Page_AutoSize_put new_page true) ;;;
  (if name is Some n then com (Page_NameU_put new_page n) else ret tt) ;;;
  com (Page_Index new_page).

Definition active_page : Py VisDocument IVPage := com ActiveWindow_Page.

Definition set_active_page (name : string) : Py VisDocument unit :=
  com (ActiveWindow_Page_put name).

(** [for page in self._pages: yield page.NameU], run to the end. *)
Fixpoint page_names (pages : list IVPage) : Py VisDocument (list string) :=
  match pages with
  | [] => ret []
  | page :: rest =>
      let* name := com (Page_NameU page) in
      let* names := page_names rest in
      ret (name :: names)
  end.

Definition __iter__ : Py VisDocument (list string) :=
  let* self := get_self in
  let* pages := com (Pages_enum (_pages self)) in
  page_names pages.

(** [name in doc]: the class has no [__contains__], so the generator of
    [__iter__] is consumed until it yields a value equal to [name]. *)
Fixpoint consume_until (name : string) (pages : list IVPage) : Py VisDocument bool :=
  match pages with
  | [] => ret false
  | page :: rest =>
      let* n := com (Page_NameU page) in
      if bool_decide (n = name) then ret true else consume_until name rest
  end.

Definition __contains__ (name : string) : Py VisDocument bool :=
  let* self := get_self in
  let* pages := com (Pages_enum (_pages self)) in
  consume_until name pages.

Definition __getitem__ (page : Z + string) : Py VisDocument IVPage :=
  let* self := get_self in
  try_com (com (Pages_ItemU (_pages self) page))
    (λ reason,
       logger.error "Getting page '%s' failed" [page_arg page] ;;;
       logger.error "COM Exception: %s" [AReason reason] ;;;
       raise (com_error reason)).

Definition save : Py VisDocument unit :=
  let* self := get_self in
  try_com (com (Document_Save (_document self)))
    (λ reason,
       logger.error "Failed to save document to file" [] ;;;
       logger.error "COM Exception: %s" [AReason reason] ;;;
       raise (com_error reason)).

Definition saveAs (filename : string) : Py VisDocument unit :=
  let* self := get_self in
  try_com (com (Document_SaveAs (_document self) filename))
    (λ reason,
       logger.error "Failed to save document to file: %s" [AStr filename] ;;;
       logger.error "COM Exception: %s" [AReason reason] ;;;
       raise (com_error reason)).

Definition printDefault : Py VisDocument unit :=
  let* self := get_self in
  try_com (com (Document_Print (_document self)))
    (λ reason,
       logger.error "Failed to print document" [] ;;;
       logger.error "COM Exception: %s" [AReason reason] ;;;
       raise (com_error reason)).

Definition export (filename : string) : Py VisDocument unit :=
  let* self := get_self in
  try_com (com (Document_ExportAsFixedFormat (_document self) 1 filename 1 0))
    (λ reason,
       logger.error "Failed to print document" [] ;;;
       logger.error "COM Exception: %s" [AReason reason] ;;;
       raise (com_error reason)).

Definition close (nosave : bool) : Py VisDocument unit :=
  let* self := get_self in
  let* AlertResponse := com Application_AlertResponse in
  (if nosave then com (Application_AlertResponse_put 7) else ret tt) ;;;
  try_com (com (Document_Close (_document self)))
    (λ reason,
       logger.error "Failed to print document" [] ;;;
       logger.error "COM Exception: %s" [AReason reason] ;;;
       raise (com_error reason)) ;;;
  com (Application_AlertResponse_put AlertResponse).

Definition crop_page (page : IVPage) : Py unit unit :=
  com (Page_CenterDrawing page) ;;;
  com (Page_ResizeToFitContents page).

End Documents.

(** * shapes.py *)

Record VisShape := { _shape : option IVShape }.

Record VisConnector := {
  as_VisShape : VisShape;
  _type : string }.

(** The members of the shape interface that the type library declares
    and the package names. *)
Definition IVShape_members : list string :=
  ["AutoConnect"; "BoundingBox"; "CellExistsU"; "Cells"; "CellsU";
   "ContainingPage"; "DeleteEx"; "Export"; "FromConnects"; "ID"; "NameU";
   "OneD"; "SetCenter"; "Text"].

Definition NoneType_has_no (attr : string) : Exn :=
  AttributeError (AStr ("'NoneType' object has no attribute '" +:+ attr +:+ "'")).

Definition IVShape_has_no (attr : string) : Exn :=
  AttributeError (AStr ("'IVShape' object has no attribute '" +:+ attr +:+ "'")).

(** ["=\"{0}\"".format(value)] *)
Definition quoted (value : string) : string := "=" +:+ dquote +:+ value +:+ dquote.

(** ["RGB({0},{1},{2})".format(red, green, blue)] *)
Definition RGB (red green blue : Z) : string :=
  "RGB(" +:+ pretty red +:+ "," +:+ pretty green +:+ "," +:+ pretty blue +:+ ")".

Module Shapes.

(** Numbers reach the setters as floats, on which [float(...)] is the
    identity, and texts as strings, on which [unicode(...)] is. *)

(** [self._shape.attr]: the object behind the handle, on its way to the
    member [attr]; there is none to fetch from [None]. *)
Definition shape_attr (attr : string) : Py VisShape IVShape :=
  let* self := get_self in
  match _shape self with
  | Some sh => ret sh
  | None => raise (NoneType_has_no attr)
  end.

Definition __init__ (stencil : IVMaster) (page : option IVPage) (x y : float)
  : Py unit VisShape :=
  let* page :=
    (match page with
     | None => com ActiveWindow_Page
     | Some page => ret page
     end) in
  let* sh := com (Page_Drop page stencil x y) in
  ret {| _shape := Some sh |}.

Definition x : Py VisShape IVCell :=
  let* sh := shape_attr "CellsU" in
  com (Shape_CellsU sh "PinX").

Definition set_x (xval : float) : Py VisShape unit :=
  let* sh := shape_attr "CellsU" in
  let* cell := com (Shape_CellsU sh "PinX") in
  com (Cell_FormulaU_put cell (VFloat xval)).

Definition y : Py VisShape IVCell :=
  let* sh := shape_attr "CellsU" in
  com (Shape_CellsU sh "PinY").

Definition set_y (yval : float) : Py VisShape unit :=
  let* sh := shape_attr "CellsU" in
  let* cell := com (Shape_CellsU sh "PinY") in
  com (Cell_FormulaU_put cell (VFloat yval)).

Definition coords : Py VisShape (float * float * float * float) :=
  let* sh := shape_attr "BoundingBox" in
  com (Shape_BoundingBox sh vC.visBBoxUprightWH).

Definition moveto (xnew ynew : float) : Py VisShape unit :=
  let* sh := shape_attr "SetCenter" in
  com (Shape_SetCenter sh xnew ynew).

Definition w : Py VisShape IVCell :=
  let* sh := shape_attr "CellsU" in
  com (Shape_CellsU sh "Width").

Definition set_w (wval : float) : Py VisShape unit :=
  let* sh := shape_attr "CellsU" in
  let* cell := com (Shape_CellsU sh "Width") in
  com (Cell_FormulaU_put cell (VFloat wval)).

Definition h : Py VisShape IVCell :=
  let* sh := shape_attr "CellsU" in
  com (Shape_CellsU sh "Height").

Definition set_h (hval : float) : Py VisShape unit :=
  let* sh := shape_attr "CellsU" in
  let* cell := com (Shape_CellsU sh "Height") in
  com (Cell_FormulaU_put cell (VFloat hval)).

Definition text : Py VisShape string :=
  let* sh := shape_attr "Text" in
  com (Shape_Text sh).

Definition set_text (textval : string) : Py VisShape unit :=
  let* sh := shape_attr "Text" in
  com (Shape_Text_put sh textval).

Definition linecolor : Py VisShape string :=
  let* sh := shape_attr "CellsU" in
  let* cell := com (Shape_CellsU sh "LineColor") in
  com (Cell_FormulaU cell).

Definition set_linecolor (fillformula : string) : Py VisShape unit :=
  let* sh := shape_attr "CellsU" in
  let* cell := com (Shape_CellsU sh "LineColor") in
  com (Cell_FormulaU_put cell (VStr fillformula)).

Definition setlinecolor (red green blue : Z) : Py VisShape unit :=
  set_linecolor (RGB red green blue).

Definition fillcolor : Py VisShape string :=
  let* sh := shape_attr "CellsU" in
  let* cell := com (Shape_CellsU sh "Fillforegnd") in
  com (Cell_FormulaU cell).

Definition set_fillcolor (fillformula : string) : Py VisShape unit :=
  let* sh := shape_attr "CellsU" in
  let* cell := com (Shape_CellsU sh "Fillforegnd") in
  com (Cell_FormulaU_put cell (VStr fillformula)).

Definition setfillcolor (red green blue : Z) : Py VisShape unit :=
  set_fillcolor (RGB red green blue).

Definition oneD : Py VisShape bool :=
  let* sh := shape_attr "OneD" in
  let* v := com (Shape_OneD sh) in
  ret (if bool_decide (v = 0) then false else true).

Definition cell (cellid : string) : Py VisShape string :=
  let* sh := shape_attr "CellExistsU" in
  let* exists_ := com (Shape_CellExistsU sh cellid 0) in
  if negb exists_ then raise (AttributeError ANone)
  else
    let* sh := shape_attr "CellsU" in
    let* c := com (Shape_CellsU sh cellid) in
    com (Cell_FormulaU c).

Definition setcell (cellid cellvalue : string) (preformated : bool) : Py VisShape unit :=
  let* sh := shape_attr "CellExistsU" in
  let* exists_ := com (Shape_CellExistsU sh cellid 0) in
  if negb exists_ then raise (AttributeError ANone)
  else if preformated then
    let* sh := shape_attr "CellsU" in
    let* c := com (Shape_CellsU sh cellid) in
    com (Cell_FormulaU_put c (VStr cellvalue))
  else
    let* sh := shape_attr "CellsU" in
    let* c := com (Shape_CellsU sh cellid) in
    com (Cell_FormulaU_put c (VStr (quoted cellvalue))).

Definition delete (flags : Z) : Py VisShape unit :=
  let* sh := shape_attr "DeleteEx" in
  com (Shape_DeleteEx sh flags) ;;;
  put_self {| _shape := None |}.

End Shapes.

Module Connector.

(** A method that [VisConnector] inherits from [VisShape]. *)
Definition inherited {A} (m : Py VisShape A) : Py VisConnector A :=
  λ self w,
    let '(r, s, w') := m (as_VisShape self) w in
    (r, {| as_VisShape := s; _type := _type self |}, w').

Definition shape_attr (attr : string) : Py VisConnector IVShape :=
  inherited (Shapes.shape_attr attr).

(** [[i.FromSheet.ID for i in connects]] *)
Fixpoint FromSheet_IDs {Self} (connects : list IVConnect) : Py Self (list nat) :=
  match connects with
  | [] => ret []
  | i :: rest =>
      let* id := com (Connect_FromSheet_ID i) in
      let* ids := FromSheet_IDs rest in
      ret (id :: ids)
  end.

Definition text : Py VisConnector string :=
  let* self := get_self in
  if bool_decide (_type self = "Data_Connect") then
    let* sh := shape_attr "Cells" in
    let* ca := com (Shape_Cells sh "Prop.Port_A_Port_Name") in
    let* descA := com (Cell_ResultStr ca vC.visNone) in
    let* sh := shape_attr "Cells" in
    let* cb := com (Shape_Cells sh "Prop.Port_B_Port_Name") in
    let* descB := com (Cell_ResultStr cb vC.visNone) in
    ret (descA +:+ ";" +:+ descB)
  else
    let* sh := shape_attr "Text" in
    com (Shape_Text sh).

Definition set_text (textval : string) : Py VisConnector unit :=
  let* self := get_self in
  if bool_decide (_type self = "Data_Connect") then
    let* desc :=
      (if occurs ";"%char textval then
         match split ";"%char textval with
         | [descA; descB] => ret (descA, descB)
         | [] | [_] => raise (ValueError (AStr "need more than 1 value to unpack"))
         | _ => raise (ValueError (AStr "too many values to unpack"))
         end
       else ret (textval, "")) in
    let '(descA, descB) := desc in
    let* sh := shape_attr "Cells" in
    let* ca := com (Shape_Cells sh "Prop.Port_A_Port_Name") in
    com (Cell_FormulaU_put ca (VStr (quoted descA))) ;;;
    let* sh := shape_attr "Cells" in
    let* cb := com (Shape_Cells sh "Prop.Port_B_Port_Name") in
    com (Cell_FormulaU_put cb (VStr (quoted descB)))
  else
    let* sh := shape_attr "Text" in
    com (Shape_Text_put sh textval).

Definition __init__ (shapeA shapeB : VisShape) (connector : option IVMaster)
    (placementDir : Z) (text : option string) : Py unit VisConnector :=
  let* fetched := on_object shapeA (Shapes.shape_attr "FromConnects") in
  let a := fetched.1 in
  let* connects := com (Shape_FromConnects a) in
  let* conn_list := FromSheet_IDs connects in
  com (Shape_AutoConnect a (_shape shapeB) placementDir connector) ;;;
  let* connects := com (Shape_FromConnects a) in
  let* ids := FromSheet_IDs connects in
  match elements (list_to_set ids ∖ list_to_set conn_list : gset nat) with
  | [] => raise (IndexError (AStr "list index out of range"))
  | conn_ID :: _ =>
      let* sh := com (Shape_ContainingPage_Shapes_ItemFromID a conn_ID) in
      let* name := com (Shape_NameU sh) in
      let self := {| as_VisShape := {| _shape := Some sh |};
                     _type := default "" (head (split "."%char name)) |} in
      match text with
      | Some textval =>
          let* done := on_object self (set_text textval) in
          ret done.2
      | None => ret self
      end
  end.

(** [self._shape.setcell(...)]: [setcell] is fetched from the automation
    object of the shape, which has the members of [IVShape_members]. *)
Definition route_style (style : Z) : Py VisConnector unit :=
  let* sh := shape_attr "setcell" in
  if bool_decide ("setcell" ∈ IVShape_members) then
    com (Shape_Invoke sh "setcell" [VStr "ShapeRouteStyle"; VInt style; VBool false])
  else raise (IVShape_has_no "setcell").

End Connector.

(** * The operations of the package *)

(** The getters, setters and methods of a [VisShape]. *)
Inductive VisShape_method : ∀ {A}, Py VisShape A → Prop :=
| method_x : VisShape_method Shapes.x
| method_set_x xval : VisShape_method (Shapes.set_x xval)
| method_y : VisShape_method Shapes.y
| method_set_y yval : VisShape_method (Shapes.set_y yval)
| method_coords : VisShape_method Shapes.coords
| method_moveto xnew ynew : VisShape_method (Shapes.moveto xnew ynew)
| method_w : VisShape_method Shapes.w
| method_set_w wval : VisShape_method (Shapes.set_w wval)
| method_h : VisShape_method Shapes.h
| method_set_h hval : VisShape_method (Shapes.set_h hval)
| method_text : VisShape_method Shapes.text
| method_set_text textval : VisShape_method (Shapes.set_text textval)
| method_linecolor : VisShape_method Shapes.linecolor
| method_set_linecolor fillformula : VisShape_method (Shapes.set_linecolor fillformula)
| method_setlinecolor red green blue : VisShape_method (Shapes.setlinecolor red green blue)
| method_fillcolor : VisShape_method Shapes.fillcolor
| method_set_fillcolor fillformula : VisShape_method (Shapes.set_fillcolor fillformula)
| method_setfillcolor red green blue : VisShape_method (Shapes.setfillcolor red green blue)
| method_oneD : VisShape_method Shapes.oneD
| method_cell cellid : VisShape_method (Shapes.cell cellid)
| method_setcell cellid cellvalue preformated :
    VisShape_method (Shapes.setcell cellid cellvalue preformated)
| method_delete flags : VisShape_method (Shapes.delete flags).

(** Those of a [VisConnector]: what it inherits (the [text] accessors of
    the base class stay reachable through the base class), the [text]
    accessors it overrides them with, and [route_style]. *)
Inductive VisConnector_method : ∀ {A}, Py VisConnector A → Prop :=
| method_inherited {A} (m : Py VisShape A) :
    VisShape_method m → VisConnector_method (Connector.inherited m)
| method_connector_text : VisConnector_method Connector.text
| method_connector_set_text textval : VisConnector_method (Connector.set_text textval)
| method_route_style style : VisConnector_method (Connector.route_style style).

(** The calls that the package makes only under an [except com_error]
    clause that logs. *)
Definition guarded {A} (c : ComCall A) : bool :=
  match c with
  | EnsureDispatch _
  | Documents_Add _ | Documents_Open _ | Documents_OpenEx _ _
  | Pages_Add _ | Pages_ItemU _ _
  | Document_Save _ | Document_SaveAs _ _ | Document_Print _
  | Document_ExportAsFixedFormat _ _ _ _ _ | Document_Close _
  | Shape_Export _ _ => true
  | _ => false
  end.

(** [VisStencils.export] makes one call more under its clause,
    [master.Shapes.Item(1)], which [get_info] makes under none. *)
Definition guarded_in_export {A} (c : ComCall A) : bool :=
  match c with
  | Master_Shapes_Item _ _ => true
  | _ => guarded c
  end.

(** Every operation of the package that reaches the application, but for
    the two that forward a property of the document:
    [VisDocument.__getattr__] and [VisDocument.setProperty] probe the
    property with [hasattr] first.  With each operation comes the guard
    that tells, of the calls the operation makes, those it makes under an
    [except com_error] clause. *)
Inductive operation `{OsPath} `{Pythoncom} :
    (∀ T, ComCall T → bool) → ∀ {Self A}, Py Self A → Prop :=
| op_import : operation (@guarded) visCOM.import
| op_VisDocument filename rw : operation (@guarded) (Documents.__init__ filename rw)
| op_len : operation (@guarded) Documents.__len__
| op_add name : operation (@guarded) (Documents.add name)
| op_active_page : operation (@guarded) Documents.active_page
| op_set_active_page name : operation (@guarded) (Documents.set_active_page name)
| op_iter : operation (@guarded) Documents.__iter__
| op_contains name : operation (@guarded) (Documents.__contains__ name)
| op_getitem page : operation (@guarded) (Documents.__getitem__ page)
| op_save : operation (@guarded) Documents.save
| op_saveAs filename : operation (@guarded) (Documents.saveAs filename)
| op_printDefault : operation (@guarded) Documents.printDefault
| op_export filename : operation (@guarded) (Documents.export filename)
| op_close nosave : operation (@guarded) (Documents.close nosave)
| op_crop_page page : operation (@guarded) (Documents.crop_page page)
| op_VisStencils args : operation (@guarded) (Stencils.__init__ args)
| op_stencils_iter : operation (@guarded) Stencils.__iter__
| op_stencils_getitem shape : operation (@guarded) (Stencils.__getitem__ shape)
| op_get shape index : operation (@guarded) (Stencils.get shape index)
| op_get_info shape index : operation (@guarded) (Stencils.get_info shape index)
| op_stencils_export filename shape index :
    operation (@guarded_in_export) (Stencils.export filename shape index)
| op_add_stencil filename : operation (@guarded) (Stencils.add_stencil filename)
| op_VisShape stencil page x y :
    operation (@guarded) (Shapes.__init__ stencil page x y)
| op_VisShape_method {A} (m : Py VisShape A) :
    VisShape_method m → operation (@guarded) m
| op_VisConnector shapeA shapeB connector placementDir text :
    operation (@guarded) (Connector.__init__ shapeA shapeB connector placementDir text)
| op_VisConnector_method {A} (m : Py VisConnector A) :
    VisConnector_method m → operation (@guarded) m.

(** * Vocabulary of the statements *)

(** A world whose environment injects no failure: a call fails only when
    the application refuses it. *)
Definition calm (w : World) : Prop := ∀ n, faults w n = None.

Definition master_names (lib : Document) : list string := ms_NameU <$> dc_Masters lib.

(** A library defines a master named [X]; master names are unique within
    a library. *)
Definition defines (lib : Document) (X : string) : Prop :=
  NoDup (master_names lib) ∧ X ∈ master_names lib.

(** Registering the master names of the library [key]: each name gets
    [key] at the front of its resolution list. *)
Definition register (key : string) (names : list string)
    (shapes : gmap string (list string)) : gmap string (list string) :=
  foldl (λ m n, <[n := key :: default [] (m !! n)]> m) shapes names.

(** The master object [m] is the master named [X] of the document that was
    opened from [file], whose content is [lib]. *)
Definition master_from (w : World) (m : IVMaster) (file : string) (lib : Document)
    (X : string) : Prop :=
  let 'MasterObj d i := m in
  Documents (app w) !! d = Some (App.bind_to file lib)
  ∧ ∃ ms, dc_Masters lib !! i = Some ms ∧ ms_NameU ms = X.

Definition log_error (fmt : string) (a : list PyArg) : LogRecord :=
  {| levelname := ERROR; msg := fmt; args := a |}.

(** The file an event opened as a stencil, if it is such an event. *)
Definition opened_stencil (ev : Event) : option string :=
  match projT2 (ev_call ev) with
  | Documents_OpenEx filename _ => Some filename
  | _ => None
  end.

(** [m] relates the state it starts in to the state it ends in by [R],
    however it ends. *)
Definition respects {Self A} (R : relation (Self * World)) (m : Py Self A) : Prop :=
  ∀ self w r self' w', m self w = (r, self', w') → R (self, w) (self', w').

(** From one state of a [VisStencils] object to a later one: no library is
    dropped or replaced, and a stencil file was opened only for a key that
    was not loaded. *)
Definition stencils_grow `{OsPath} : relation (VisStencils * World) :=
  λ a b,
    __stencils a.1 ⊆ __stencils b.1
    ∧ ∃ t, trace b.2 = trace a.2 ++ t
           ∧ Forall (λ ev, ∀ f, opened_stencil ev = Some f →
                        Stencils.key_of f ∉ dom (__stencils a.1)) t.

(** A page that [add] has named: auto-sized, with the name given. *)
Definition named_page (name : string) : Page :=
  {| pg_NameU := name; pg_AutoSize := true |}.

(** No call of [t] failed. *)
Definition clean (t : list Event) : Prop := Forall (λ ev, ev_error ev = None) t.

(** The record [r] tells of the error [hr]: it is of level [ERROR] and
    has the error as an argument or, as the record of the import has, the
    text of the error in its message. *)
Definition tells `{Pythoncom} (hr : HRESULT) (r : LogRecord) : Prop :=
  levelname r = ERROR
  ∧ (AReason hr ∈ args r ∨ msg r = "Exception: " +:+ strerror hr).

(** The records [l] report the error [hr]: one of them tells of it. *)
Definition reported `{Pythoncom} (hr : HRESULT) (l : list LogRecord) : Prop :=
  ∃ r, r ∈ l ∧ tells hr r.

(** The records [l] report no error. *)
Definition unreported `{Pythoncom} (l : list LogRecord) : Prop :=
  ∀ hr, ¬ reported hr l.

(** The discipline of an operation [m] towards failing calls, where [g]
    tells the calls that [m] makes under an [except com_error] clause.
    The calls [m] makes and the records it writes are appended to the
    trace and the log.  When no call fails, [m] raises no [com_error] and
    its records report none.  When a call fails, it is the last call [m]
    makes (none is made again, nor any other after it) and [m] raises the
    very error of the call; the records [m] wrote report the error when
    [g] holds of the call, and report no error when it does not. *)
Definition disciplined `{Pythoncom} (g : ∀ A, ComCall A → bool) {Self A}
    (m : Py Self A) : Prop :=
  ∀ self w r self' w',
    m self w = (r, self', w') →
    ∃ t l,
      trace w' = trace w ++ t ∧ log w' = log w ++ l
      ∧ ((clean t ∧ unreported l ∧ ∀ hr, r ≠ Raise (com_error hr))
         ∨ ∃ t0 ev hr,
             t = t0 ++ [ev] ∧ clean t0 ∧ ev_error ev = Some hr
             ∧ r = Raise (com_error hr)
             ∧ if g _ (projT2 (ev_call ev)) then reported hr l else unreported l).

(** Every failing call is logged: what the specification asks of every
    operation. *)
Definition logs_every_failure `{Pythoncom} {Self A} (m : Py Self A) : Prop :=
  disciplined (λ _ _, true) m.

(** An [except com_error as reason] clause that logs the reason and raises
    it again. *)
Definition logs_and_reraises `{Pythoncom} {Self A} (h : HRESULT → Py Self A) : Prop :=
  ∀ reason self w,
    ∃ w' l, h reason self w = (Raise (com_error reason), self, w')
            ∧ trace w' = trace w ∧ log w' = log w ++ l ∧ reported reason l.

(** [m] makes no call but those of which [g] holds. *)
Definition calls_only (g : ∀ A, ComCall A → bool) {Self A} (m : Py Self A) : Prop :=
  ∀ self w r self' w',
    m self w = (r, self', w') →
    ∃ t, trace w' = trace w ++ t
         ∧ Forall (λ ev, g _ (projT2 (ev_call ev)) = true) t.

(** What the cell [name] of the shape [id] holds in the world [w]. *)
Definition cell_formula (w : World) (id : nat) (name : string) : option Variant :=
  s ← Shapes (app w) !! id; sh_cells s !! name.

(** * Example worlds *)

(** [os.path] on Windows ([ntpath] of Python 2.7): the separators are [\]
    and [/], the drive is a letter with its colon or the host and share of
    a UNC path, the extension starts at the last dot of the last component
    unless only dots precede it there. *)
Module ntpath.

Definition is_sep (c : ascii) : bool :=
  bool_decide (c = "\"%char ∨ c = "/"%char).

Definition is_dot (c : ascii) : bool := bool_decide (c = "."%char).

(** The characters after the last one that satisfies [p], and how many
    come before them. *)
Fixpoint after_last (p : ascii → bool) (cs : list ascii) : list ascii :=
  match cs with
  | [] => []
  | c :: cs' => if existsb p cs' then after_last p cs' else if p c then cs' else cs
  end.

(** The position of the first separator. *)
Fixpoint find_sep (cs : list ascii) : option nat :=
  match cs with
  | [] => None
  | c :: cs' => if is_sep c then Some 0%nat else S <$> find_sep cs'
  end.

Definition splitdrive (cs : list ascii) : list ascii * list ascii :=
  match cs with
  | c0 :: c1 :: rest =>
      if is_sep c0 && is_sep c1 && negb (if rest is c2 :: _ then is_sep c2 else false)
      then
        (* a UNC path: two separators, the host, one separator, the share *)
        match find_sep rest with
        | None => ([], cs)
        | Some i =>
            match find_sep (drop (S i) rest) with
            | Some 0%nat => ([], cs)
            | Some j => (take (2 + S i + j) cs, drop (2 + S i + j) cs)
            | None => (cs, [])
            end
        end
      else if bool_decide (c1 = ":"%char) then ([c0; c1], rest)
      else ([], cs)
  | _ => ([], cs)
  end.

Definition basename (path : string) : string :=
  String.string_of_list_ascii
    (after_last is_sep (splitdrive (String.list_ascii_of_string path)).2).

Definition splitext (path : string) : string * string :=
  let cs := String.list_ascii_of_string path in
  let tail := after_last is_sep cs in
  let ext := after_last is_dot tail in
  let stem := take (length tail - S (length ext)) tail in
  if existsb is_dot tail && existsb (λ c, negb (is_dot c)) stem then
    (String.string_of_list_ascii (take (length cs - S (length ext)) cs),
     String.string_of_list_ascii (drop (length cs - S (length ext)) cs))
  else (path, "").

End ntpath.

#[export] Instance ntpath_OsPath : OsPath :=
  {| splitext := ntpath.splitext; basename := ntpath.basename |}.

Module Demo.

(** A platform that describes every error with the same text. *)
Definition pythoncom0 : Pythoncom :=
  {| strerror := λ _, "Exception occurred." |}.

Definition engine0 : Engine :=
  {| ResultIU_of := λ x, if x is VFloat f then f else 0%float;
     ResultStr_of := λ x, if x is VStr s then s else "";
     FormulaU_of := λ x, if x is VStr s then s else "";
     BoundingBox_of := λ _, (0%float, 0%float, 0%float, 0%float) |}.

Definition sheet (name : string) (cells : list (string * Variant)) : Sheet :=
  {| sh_NameU := name; sh_Text := ""; sh_OneD := false;
     sh_cells := list_to_map cells; sh_page := (0%nat, 0%nat);
     sh_FromConnects := [] |}.

Definition master (name : string) : Master :=
  {| ms_NameU := name; ms_ObjectType := vC.visObjTypeMaster;
     ms_Shapes := [sheet name [("Width", VFloat 1%float); ("Height", VFloat 1%float)]] |}.

Definition library (names : list string) : Document :=
  {| dc_FullName := ""; dc_props := ∅; dc_Masters := master <$> names; dc_Pages := [] |}.

Definition basic : Document := library ["Circle"; "Square"; "Dynamic connector"].
Definition periph : Document := library ["Server"; "Dynamic connector"].
Definition network : Document := library ["Data_Connect"; "Dynamic connector"].
Definition old_periph : Document := library ["Printer"].

Definition box : Sheet :=
  sheet "Square"
    [("PinX", VStr "=Sheet.5!PinX+1"); ("PinY", VFloat 1%float);
     ("Width", VStr "=GUARD(2 in)"); ("Height", VFloat 1%float)].

Definition link : Sheet :=
  sheet "Data_Connect.7"
    [("Prop.Port_A_Port_Name", VStr "A"); ("Prop.Port_B_Port_Name", VStr "B")].

(** The application with four stencil files on disk, one blank document
    open (handle 0), a box (shape 0) and a connector (shape 1) on its page. *)
Definition visio0 : Visio :=
  {| disk := list_to_map
       [("Basic Shapes.vss", basic); ("periph_m.vss", periph);
        ("C:\data\network_connector.vss", network);
        ("D:\old\periph_m.vss", old_periph)];
     Documents := {[ 0%nat := App.blank_document ]};
     Shapes := list_to_map [(0%nat, box); (1%nat, link)];
     fresh := 2;
     AlertResponse := 0;
     ActivePage := Some (0%nat, 0%nat);
     RasterExportUseTransparencyColor := 0;
     Visible := true;
     engine := engine0 |}.

Definition world0 : World :=
  {| app := visio0; faults := λ _, None; trace := []; log := [] |}.

(** The world [w], but for the call number [n], which fails with [hr]. *)
Definition failing_at (n : nat) (hr : HRESULT) (w : World) : World :=
  {| app := app w;
     faults := λ k, if decide (k = n) then Some hr else faults w k;
     trace := trace w; log := log w |}.

Definition doc0 : VisDocument :=
  {| _filename := ""; _document := DocumentObj 0; _pages := PagesObj 0 |}.

Definition no_stencils : VisStencils := {| __stencils := ∅; __shapes := ∅ |}.

Definition box0 : VisShape := {| _shape := Some (ShapeObj 0) |}.

Definition link1 : VisConnector :=
  {| as_VisShape := {| _shape := Some (ShapeObj 1) |}; _type := "Data_Connect" |}.

(** The stencils object and the world after [periph_m.vss] was loaded. *)
Definition loaded : Result unit * VisStencils * World :=
  Stencils.add_stencil "periph_m.vss" no_stencils world0.

(** The box and the world after the box was deleted. *)
Definition deleted : Result unit * VisShape * World :=
  Shapes.delete vC.visDeleteNormal box0 world0.

End Demo.

(** * Further vocabulary *)

(** The registry of a [VisStencils] object is consistent: every registered
    name has at least one library, and every library a name is resolved
    through is loaded. *)
Definition consistent (self : VisStencils) : Prop :=
  ∀ name keys,
    __shapes self !! name = Some keys →
    keys ≠ [] ∧ ∀ key, key ∈ keys → key ∈ dom (__stencils self).

(** The outcomes [get shape index] can have. *)
Definition get_outcome (shape : string) (index : Z) (r : Result IVMaster) : Prop :=
  (∃ m, r = Ok m)
  ∨ (∃ hr, r = Raise (com_error hr))
  ∨ r = Raise (ValueError (AInt index))
  ∨ r = Raise (KeyError (AStr shape)).

Definition no_stencils : VisStencils := {| __stencils := ∅; __shapes := ∅ |}.

(** The object is the same at the end as at the start. *)
Definition same_object {Self} : relation (Self * World) := λ a b, b.1 = a.1.

(** The master a handle designates in a state of the application. *)
Definition master_of (v : Visio) (m : IVMaster) : option Master :=
  let 'MasterObj d i := m in
  doc ← Documents v !! d; dc_Masters doc !! i.

(** What [get_info] returns for something that is not a master with a
    single shape. *)
Definition placeholder_info : InfoDict :=
  {| objectType := vC.visObjTypeUnknown; shapesCount := 0;
     width := 0%float; height := 0%float; size := (0%float, 0%float) |}.

Definition log_warning (fmt : string) (a : list PyArg) : LogRecord :=
  {| levelname := WARNING; msg := fmt; args := a |}.

(** Width and height of an upright bounding box. *)
Definition box_size (box : float * float * float * float) : float * float :=
  let '(x0, x1, x2, x3) := box in (PrimFloat.sub x2 x0, PrimFloat.sub x3 x1).

(** * More example worlds *)

Module Scene.

(** The text of a formula of the form [="text"]. *)
Definition unquote (formula : string) : string :=
  String.substring 2 (String.length formula - 3) formula.

(** An application that evaluates such a formula to its text. *)
Definition engine1 : Engine :=
  {| ResultIU_of := ResultIU_of Demo.engine0;
     ResultStr_of := λ x, if x is VStr s then unquote s else "";
     FormulaU_of := FormulaU_of Demo.engine0;
     BoundingBox_of := BoundingBox_of Demo.engine0 |}.

(** A master made of two shapes. *)
Definition rack : Master :=
  {| ms_NameU := "Rack"; ms_ObjectType := vC.visObjTypeMaster;
     ms_Shapes := [Demo.sheet "Frame" []; Demo.sheet "Shelf" []] |}.

Definition racks : Document :=
  {| dc_FullName := ""; dc_props := ∅; dc_Masters := [rack]; dc_Pages := [] |}.

Definition circle : Sheet :=
  Demo.sheet "Circle"
    [("LineColor", VStr "0"); ("Fillforegnd", VStr "1"); ("PinX", VFloat 1%float)].

(** The application of [Demo.visio0] with one more stencil file on disk,
    a circle (shape 2) on the page, and the evaluator above. *)
Definition visio1 : Visio :=
  {| disk := <["racks.vss" := racks]> (disk Demo.visio0);
     Documents := Documents Demo.visio0;
     Shapes := <[2%nat := circle]> (Shapes Demo.visio0);
     fresh := 3;
     AlertResponse := 0;
     ActivePage := Some (0%nat, 0%nat);
     RasterExportUseTransparencyColor := 0;
     Visible := true;
     engine := engine1 |}.

Definition world1 : World :=
  {| app := visio1; faults := λ _, None; trace := []; log := [] |}.

Definition circle2 : VisShape := {| _shape := Some (ShapeObj 2) |}.

(** The stencils object and the world after [racks.vss] was loaded. *)
Definition racks_loaded : Result unit * VisStencils * World :=
  Stencils.add_stencil "racks.vss" Demo.no_stencils world1.

End Scene.
(** * Running operations in a world without injected failures *)

Lemma com_answer {Self A} (c : ComCall A) (self : Self) w a v :
  calm w → invoke c (app w) = inr (a, v) →
  com c self w = (Ok a, self, record c None v w).
Proof. intros Hc Hi. unfold com. by rewrite Hc, Hi. Qed.

Lemma com_answer_at {Self A} (c : ComCall A) (self : Self) w a v :
  faults w (length (trace w)) = None → invoke c (app w) = inr (a, v) →
  com c self w = (Ok a, self, record c None v w).
Proof. intros Hf Hi. unfold com. by rewrite Hf, Hi. Qed.

Lemma com_faulted {Self A} (c : ComCall A) (self : Self) w hr :
  faults w (length (trace w)) = Some hr →
  com c self w = (Raise (com_error hr), self, record c (Some hr) (app w) w).
Proof. intros Hf. unfold com. by rewrite Hf. Qed.

Lemma com_refused {Self A} (c : ComCall A) (self : Self) w hr :
  calm w → invoke c (app w) = inl hr →
  com c self w = (Raise (com_error hr), self, record c (Some hr) (app w) w).
Proof. intros Hc Hi. unfold com. by rewrite Hc, Hi. Qed.

Lemma calm_record {A} (c : ComCall A) e v w : calm w → calm (record c e v w).
Proof. intros Hc n. apply Hc. Qed.

Lemma calm_emit r w : calm w → calm (emit r w).
Proof. intros Hc n. apply Hc. Qed.

Lemma bind_Ok {Self A B} (m : Py Self A) (k : A → Py Self B) self w a self' w' :
  m self w = (Ok a, self', w') → bind m k self w = k a self' w'.
Proof. intros Hm. unfold bind. by rewrite Hm. Qed.

Lemma bind_Raise {Self A B} (m : Py Self A) (k : A → Py Self B) self w e self' w' :
  m self w = (Raise e, self', w') → bind m k self w = (Raise e, self', w').
Proof. intros Hm. unfold bind. by rewrite Hm. Qed.

#[local] Hint Resolve calm_record calm_emit : core.

Lemma bind_inv {Self A B} (m : Py Self A) (k : A → Py Self B) self w r self' w' :
  bind m k self w = (r, self', w') →
  (∃ a s1 w1, m self w = (Ok a, s1, w1) ∧ k a s1 w1 = (r, self', w'))
  ∨ (∃ e, m self w = (Raise e, self', w') ∧ r = Raise e).
Proof.
  unfold bind. destruct (m self w) as [[[a|e] s1] w1]; intros Hk.
  - left. eauto.
  - right. exists e. by inversion Hk.
Qed.

Lemma com_inv {Self A} (c : ComCall A) (self : Self) w r self' w' :
  com c self w = (r, self', w') →
  self' = self
  ∧ ((∃ a v, r = Ok a ∧ w' = record c None v w)
     ∨ (∃ hr, r = Raise (com_error hr) ∧ w' = record c (Some hr) (app w) w)).
Proof.
  unfold com. destruct (faults w _) as [hr|].
  { intros [= <- <- <-]. eauto 10. }
  destruct (invoke c (app w)) as [hr|[a v]]; intros [= <- <- <-]; eauto 10.
Qed.

(** ** Relations that every step of an operation respects *)

Section respects.
Context {Self : Type} (R : relation (Self * World)) `{!PreOrder R}.

Lemma respects_ret {A} (a : A) : respects R (ret a).
Proof. intros self w r self' w' [= _ <- <-]. reflexivity. Qed.

Lemma respects_raise {A} e : respects R (@raise Self A e).
Proof. intros self w r self' w' [= _ <- <-]. reflexivity. Qed.

Lemma respects_get_self : respects R get_self.
Proof. intros self w r self' w' [= _ <- <-]. reflexivity. Qed.

Lemma respects_bind {A B} (m : Py Self A) (k : A → Py Self B) :
  respects R m → (∀ a, respects R (k a)) → respects R (bind m k).
Proof.
  intros Hm Hk self w r self' w' Hrun.
  apply bind_inv in Hrun as [(a & s1 & w1 & H1 & H2)|(e & H1 & _)].
  - etrans; [by eapply Hm|by eapply Hk].
  - by eapply Hm.
Qed.

Lemma respects_try_com {A} (m : Py Self A) h :
  respects R m → (∀ reason, respects R (h reason)) → respects R (try_com m h).
Proof.
  intros Hm Hh self w r self' w'. unfold try_com.
  destruct (m self w) as [[[a|e] s1] w1] eqn:H1.
  - intros [= <- <- <-]. by eapply Hm.
  - destruct e; try (intros [= <- <- <-]; by eapply Hm).
    intros H2. etrans; [by eapply Hm|by eapply Hh].
Qed.

Lemma respects_attempt {A} (m : Py Self A) : respects R m → respects R (attempt m).
Proof.
  intros Hm self w r self' w'. unfold attempt.
  destruct (m self w) as [[r1 s1] w1] eqn:H1. intros [= _ <- <-]. by eapply Hm.
Qed.

Lemma respects_hasattr {A} (m : Py Self A) : respects R m → respects R (hasattr m).
Proof.
  intros Hm self w r self' w'. unfold hasattr.
  destruct (m self w) as [[[a|e] s1] w1] eqn:H1; intros [= _ <- <-]; by eapply Hm.
Qed.

Lemma respects_for_each {A} (l : list A) body :
  (∀ x, respects R (body x)) → respects R (for_each l body).
Proof.
  intros Hb. induction l as [|x l IH]; simpl.
  - apply respects_ret.
  - apply respects_bind; [apply Hb|done].
Qed.

Lemma respects_com {A} (c : ComCall A) :
  (∀ self w e v, R (self, w) (self, record c e v w)) → respects R (com c).
Proof.
  intros Hc self w r self' w'. unfold com.
  destruct (faults w _); [intros [= _ <- <-]; apply Hc|].
  destruct (invoke c (app w)) as [hr|[a v]]; intros [= _ <- <-]; apply Hc.
Qed.

Lemma respects_logging lvl fmt a :
  (∀ self w r, R (self, w) (self, emit r w)) → respects R (logging lvl fmt a).
Proof. intros Hl self w r self' w' [= _ <- <-]. apply Hl. Qed.

End respects.

(** * stencils.py: loading and resolving *)

Lemma register_lookup_notin key names shapes N :
  N ∉ names → register key names shapes !! N = shapes !! N.
Proof.
  unfold register. revert shapes.
  induction names as [|n names IH]; intros shapes Hin; [done|].
  apply not_elem_of_cons in Hin as [Hne Hin]. simpl.
  rewrite IH by done. by rewrite lookup_insert_ne.
Qed.

Lemma register_lookup_in key names shapes N :
  NoDup names → N ∈ names →
  register key names shapes !! N = Some (key :: default [] (shapes !! N)).
Proof.
  unfold register. revert shapes.
  induction names as [|n names IH]; intros shapes Hnd Hin.
  { by apply elem_of_nil in Hin. }
  apply NoDup_cons in Hnd as [Hn Hnd]. simpl.
  destruct (decide (N = n)) as [->|Hne].
  - pose proof (register_lookup_notin key names
                  (<[n := key :: default [] (shapes !! n)]> shapes) n Hn) as Hr.
    unfold register in Hr. rewrite Hr. by rewrite lookup_insert_eq.
  - apply elem_of_cons in Hin as [?|Hin]; [done|].
    rewrite IH by done. by rewrite lookup_insert_ne.
Qed.

Section stencils_facts.
Context `{OsPath}.

Lemma invoke_Master_NameU v d i doc ms :
  Documents v !! d = Some doc → dc_Masters doc !! i = Some ms →
  invoke (Master_NameU (MasterObj d i)) v = inr (ms_NameU ms, v).
Proof.
  intros Hd Hm. simpl. unfold App.on_document. rewrite Hd. by rewrite Hm.
Qed.

Lemma register_master_step key d i doc ms self w :
  calm w → Documents (app w) !! d = Some doc → dc_Masters doc !! i = Some ms →
  ∃ w',
    Stencils.register_master key (MasterObj d i) self w =
      (Ok tt,
       {| __stencils := __stencils self;
          __shapes := <[ms_NameU ms := key :: default [] (__shapes self !! ms_NameU ms)]>
                        (__shapes self) |},
       w')
    ∧ calm w' ∧ app w' = app w ∧ log w' = log w.
Proof.
  intros Hc Hd Hm.
  pose proof (invoke_Master_NameU (app w) d i doc ms Hd Hm) as Hi.
  set (w1 := record (Master_NameU (MasterObj d i)) None (app w) w).
  assert (Hc1 : calm w1) by by apply calm_record.
  exists (record (Master_NameU (MasterObj d i)) None (app w1) w1).
  split; [|by repeat split; auto].
  unfold Stencils.register_master.
  rewrite (bind_Ok _ _ _ _ _ _ _ (com_answer _ self w _ _ Hc Hi)).
  fold w1. unfold bind at 1, get_self at 1.
  destruct (__shapes self !! ms_NameU ms) as [keys|] eqn:Hk.
  - rewrite bool_decide_eq_false_2.
    2:{ intros Hn. apply Hn, elem_of_dom. by rewrite Hk. }
    rewrite (bind_Ok _ _ _ _ _ _ _ (com_answer _ self w1 _ _ Hc1 Hi)).
    unfold bind, get_self, Stencils.set_shape, bind, get_self, put_self.
    by rewrite Hk.
  - rewrite bool_decide_eq_true_2.
    2:{ by apply not_elem_of_dom. }
    rewrite (bind_Ok _ _ _ _ _ _ _ (com_answer _ self w1 _ _ Hc1 Hi)).
    by unfold Stencils.set_shape, bind, get_self, put_self.
Qed.

Lemma register_masters_loop key d doc (l : list nat) self w :
  calm w → Documents (app w) !! d = Some doc →
  Forall (λ i, is_Some (dc_Masters doc !! i)) l →
  ∃ w',
    for_each (MasterObj d <$> l) (Stencils.register_master key) self w =
      (Ok tt,
       {| __stencils := __stencils self;
          __shapes := register key (omap (λ i, ms_NameU <$> dc_Masters doc !! i) l)
                        (__shapes self) |},
       w')
    ∧ calm w' ∧ app w' = app w ∧ log w' = log w.
Proof.
  intros Hc Hd Hl. revert self w Hc Hd.
  induction Hl as [|i l [ms Hm] Hl IH]; intros self w Hc Hd.
  { exists w. by destruct self. }
  destruct (register_master_step key d i doc ms self w Hc Hd Hm)
    as (w1 & Hrun & Hc1 & Ha1 & Hl1).
  rewrite <- Ha1 in Hd.
  destruct (IH {| __stencils := __stencils self;
                  __shapes := <[ms_NameU ms := key :: default [] (__shapes self !! ms_NameU ms)]>
                                (__shapes self) |} w1 Hc1 Hd)
    as (w2 & Hrun2 & Hc2 & Ha2 & Hl2).
  exists w2. split; [|by rewrite Ha2, Hl2].
  cbn [fmap list_fmap for_each]. rewrite (bind_Ok _ _ _ _ _ _ _ Hrun).
  rewrite Hrun2. cbn [omap list_omap]. rewrite Hm. done.
Qed.

Lemma omap_lookup_seq {A B} (f : A → B) (pre l : list A) :
  omap (λ i, f <$> (pre ++ l) !! i) (seq (length pre) (length l)) = f <$> l.
Proof.
  revert pre. induction l as [|x l IH]; intros pre; [done|].
  cbn [length seq omap list_omap].
  rewrite lookup_app_r, Nat.sub_diag by lia. cbn.
  f_equal. specialize (IH (pre ++ [x])).
  rewrite length_app, <- app_assoc in IH. cbn in IH.
  by rewrite Nat.add_1_r in IH.
Qed.

Lemma add_stencil_loads filename lib self w :
  calm w →
  Stencils.key_of filename ∉ dom (__stencils self) →
  disk (app w) !! filename = Some lib →
  ∃ w',
    Stencils.add_stencil filename self w =
      (Ok tt,
       {| __stencils := <[Stencils.key_of filename := DocumentObj (fresh (app w))]>
                          (__stencils self);
          __shapes := register (Stencils.key_of filename) (master_names lib)
                        (__shapes self) |},
       w')
    ∧ calm w'
    ∧ disk (app w') = disk (app w)
    ∧ Documents (app w') = <[fresh (app w) := App.bind_to filename lib]> (Documents (app w))
    ∧ fresh (app w') = S (fresh (app w))
    ∧ log w' = log w.
Proof.
  intros Hc Hkey Hdisk.
  set (d := fresh (app w)).
  assert (∃ v1, invoke (Documents_OpenEx filename vC.visOpenDocked) (app w)
                  = inr (DocumentObj d, v1)
                ∧ disk v1 = disk (app w)
                ∧ Documents v1 = <[d := App.bind_to filename lib]> (Documents (app w))
                ∧ fresh v1 = S d) as (v1 & Hopen & Hdk & Hdocs & Hfr).
  { eexists. split; [simpl; unfold App.load; rewrite Hdisk; reflexivity|done]. }
  set (w1 := record (Documents_OpenEx filename vC.visOpenDocked) None v1 w).
  assert (Hc1 : calm w1) by by apply calm_record.
  assert (Hd1 : Documents (app w1) !! d = Some (App.bind_to filename lib)).
  { simpl. rewrite Hdocs. apply lookup_insert_eq. }
  assert (Hm : invoke (Document_Masters (DocumentObj d)) (app w1) =
               inr (MasterObj d <$> seq 0 (length (dc_Masters lib)), app w1)).
  { simpl. unfold App.on_document. simpl in Hd1. by rewrite Hd1. }
  set (w2 := record (Document_Masters (DocumentObj d)) None (app w1) w1).
  set (self1 := {| __stencils := <[Stencils.key_of filename := DocumentObj d]> (__stencils self);
                   __shapes := __shapes self |}).
  destruct (register_masters_loop (Stencils.key_of filename) d
              (App.bind_to filename lib) (seq 0 (length (dc_Masters lib))) self1 w2)
    as (w3 & Hrun & Hc3 & Ha3 & Hl3).
  { by apply calm_record. }
  { done. }
  { apply Forall_forall. intros i Hi. apply elem_of_seq in Hi.
    apply lookup_lt_is_Some. simpl. lia. }
  exists w3. split; [|by rewrite Ha3, Hl3].
  unfold Stencils.add_stencil. unfold bind at 1, get_self at 1.
  rewrite bool_decide_eq_true_2 by done.
  erewrite bind_Ok; cycle 1.
  { unfold try_com. by rewrite (com_answer _ self w _ _ Hc Hopen). }
  fold w1. erewrite bind_Ok; cycle 1.
  { unfold Stencils.set_stencil, bind, get_self, put_self. reflexivity. }
  fold self1. rewrite (bind_Ok _ _ _ _ _ _ _ (com_answer _ self1 w1 _ _ Hc1 Hm)).
  fold w2. rewrite Hrun. simpl.
  pose proof (omap_lookup_seq ms_NameU [] (dc_Masters lib)) as Ho.
  simpl in Ho. unfold master_names. by rewrite Ho.
Qed.

Lemma find_master lib X :
  X ∈ master_names lib →
  ∃ i ms, list_find (λ ms, ms_NameU ms = X) (dc_Masters lib) = Some (i, ms)
          ∧ dc_Masters lib !! i = Some ms ∧ ms_NameU ms = X.
Proof.
  intros Hin. apply list_elem_of_fmap in Hin as (ms0 & -> & Hin).
  destruct (list_find_elem_of (λ ms, ms_NameU ms = ms_NameU ms0) _ _ Hin eq_refl)
    as [[i ms] Hf].
  exists i, ms. split; [done|]. by apply list_find_Some in Hf as (? & ? & _).
Qed.

Lemma get_at X keys n key d file lib self w :
  calm w →
  __shapes self !! X = Some keys → keys !! n = Some key →
  __stencils self !! key = Some (DocumentObj d) →
  Documents (app w) !! d = Some (App.bind_to file lib) →
  X ∈ master_names lib →
  ∃ m w', Stencils.get X (Z.of_nat n) self w = (Ok m, self, w')
          ∧ master_from w' m file lib X ∧ calm w' ∧ log w' = log w.
Proof.
  intros Hc Hk Hn Hs Hd HX.
  destruct (find_master lib X HX) as (i & ms & Hf & Hi & Hname).
  exists (MasterObj d i). eexists. split.
  - unfold Stencils.get, bind at 1, get_self at 1. rewrite Hk.
    rewrite bool_decide_eq_true_2.
    2:{ apply lookup_lt_Some in Hn. lia. }
    rewrite Nat2Z.id, Hn, Hs. apply com_answer; [done|].
    simpl. unfold App.on_document. rewrite Hd. simpl. by rewrite Hf.
  - simpl. eauto 10.
Qed.

Lemma get_bad_index X keys index self w :
  __shapes self !! X = Some keys →
  ¬ (Z.of_nat (length keys) > index ∧ index >= 0) →
  Stencils.get X index self w =
    (Raise (ValueError (AInt index)), self,
     emit (log_error "Bad shape index: %s" [AInt index]) w).
Proof.
  intros Hk Hi. unfold Stencils.get, bind at 1, get_self at 1. rewrite Hk.
  by rewrite bool_decide_eq_false_2.
Qed.

Lemma get_unregistered N index self w :
  __shapes self !! N = None →
  Stencils.get N index self w =
    (Raise (KeyError (AStr N)), self,
     emit (log_error "Non existing shape: %s" [AStr N]) w).
Proof.
  intros Hk. unfold Stencils.get, bind at 1, get_self at 1. by rewrite Hk.
Qed.

(** C1.  Libraries [f1], [f2], [f3], with pairwise different keys, are
    loaded in this order and each defines a master named [X].  Then
    [get X 0] returns the master [X] of the document opened from [f3],
    [get X 1] the one of [f2], [get X 2] the one of [f1]; [get X 3] logs
    and raises [ValueError(3)]; and for a name [N] that none of the
    libraries defines, [get N i] logs and raises [KeyError(N)] whatever the
    index [i]. *)
Theorem get_resolves_last_loaded_first f1 f2 f3 lib1 lib2 lib3 X self0 w0 :
  calm w0 →
  disk (app w0) !! f1 = Some lib1 →
  disk (app w0) !! f2 = Some lib2 →
  disk (app w0) !! f3 = Some lib3 →
  Stencils.key_of f1 ≠ Stencils.key_of f2 →
  Stencils.key_of f1 ≠ Stencils.key_of f3 →
  Stencils.key_of f2 ≠ Stencils.key_of f3 →
  defines lib1 X → defines lib2 X → defines lib3 X →
  ∃ self w,
    Stencils.__init__ [f1; f2; f3] self0 w0 = (Ok tt, self, w)
    ∧ (∃ m w', Stencils.get X 0 self w = (Ok m, self, w') ∧ master_from w' m f3 lib3 X)
    ∧ (∃ m w', Stencils.get X 1 self w = (Ok m, self, w') ∧ master_from w' m f2 lib2 X)
    ∧ (∃ m w', Stencils.get X 2 self w = (Ok m, self, w') ∧ master_from w' m f1 lib1 X)
    ∧ Stencils.get X 3 self w =
        (Raise (ValueError (AInt 3)), self, emit (log_error "Bad shape index: %s" [AInt 3]) w)
    ∧ ∀ N i, N ∉ master_names lib1 → N ∉ master_names lib2 → N ∉ master_names lib3 →
        Stencils.get N i self w =
          (Raise (KeyError (AStr N)), self,
           emit (log_error "Non existing shape: %s" [AStr N]) w).
Proof.
  intros Hc Hd1 Hd2 Hd3 H12 H13 H23 [Hnd1 HX1] [Hnd2 HX2] [Hnd3 HX3].
  set (e := {| __stencils := ∅; __shapes := ∅ |}).
  destruct (add_stencil_loads f1 lib1 e w0 Hc) as (w1 & R1 & Hc1 & Hk1 & HD1 & Hf1 & _);
    [by apply not_elem_of_dom|done|].
  set (s1 := {| __stencils := _ |}) in R1.
  destruct (add_stencil_loads f2 lib2 s1 w1 Hc1) as (w2 & R2 & Hc2 & Hk2 & HD2 & Hf2 & _);
    [apply not_elem_of_dom; subst s1; simpl; by rewrite lookup_insert_ne|by rewrite Hk1|].
  set (s2 := {| __stencils := _ |}) in R2.
  destruct (add_stencil_loads f3 lib3 s2 w2 Hc2) as (w3 & R3 & Hc3 & Hk3 & HD3 & Hf3 & _);
    [apply not_elem_of_dom; subst s2 s1; simpl; by rewrite !lookup_insert_ne|by rewrite Hk2, Hk1|].
  set (s3 := {| __stencils := _ |}) in R3.
  exists s3, w3.
  assert (HsX : __shapes s3 !! X =
                Some [Stencils.key_of f3; Stencils.key_of f2; Stencils.key_of f1]).
  { subst s3 s2 s1. simpl. by rewrite !register_lookup_in. }
  assert (Hfresh : fresh (app w1) ≠ fresh (app w0) ∧ fresh (app w2) ≠ fresh (app w0)
                   ∧ fresh (app w2) ≠ fresh (app w1)) by (rewrite Hf2, Hf1; lia).
  destruct Hfresh as (Hn10 & Hn20 & Hn21).
  split; [|split; [|split; [|split; [|split]]]].
  - unfold Stencils.__init__. unfold bind at 1, put_self at 1. fold e.
    cbn [for_each]. rewrite (bind_Ok _ _ _ _ _ _ _ R1), (bind_Ok _ _ _ _ _ _ _ R2).
    by rewrite (bind_Ok _ _ _ _ _ _ _ R3).
  - destruct (get_at X _ 0 _ (fresh (app w2)) f3 lib3 s3 w3 Hc3 HsX eq_refl)
      as (m & w' & Hg & Hm & _); [| |done|by eauto].
    + subst s3. simpl. apply lookup_insert_eq.
    + rewrite HD3. apply lookup_insert_eq.
  - destruct (get_at X _ 1 _ (fresh (app w1)) f2 lib2 s3 w3 Hc3 HsX eq_refl)
      as (m & w' & Hg & Hm & _); [| |done|by eauto].
    + subst s3 s2. simpl. rewrite lookup_insert_ne by done. apply lookup_insert_eq.
    + rewrite HD3, HD2. rewrite lookup_insert_ne by done. apply lookup_insert_eq.
  - destruct (get_at X _ 2 _ (fresh (app w0)) f1 lib1 s3 w3 Hc3 HsX eq_refl)
      as (m & w' & Hg & Hm & _); [| |done|by eauto].
    + subst s3 s2 s1. simpl. rewrite !lookup_insert_ne by done. apply lookup_insert_eq.
    + rewrite HD3, HD2, HD1. rewrite !lookup_insert_ne by done. apply lookup_insert_eq.
  - apply (get_bad_index X _ 3 s3 w3 HsX). simpl. lia.
  - intros N i HN1 HN2 HN3. apply get_unregistered.
    subst s3 s2 s1. simpl. by rewrite !register_lookup_notin.
Qed.

(** ** Libraries are never dropped, and never opened twice *)

#[local] Instance stencils_grow_preorder : PreOrder stencils_grow.
Proof.
  split.
  - intros [s w]. split; [done|]. exists []. by rewrite app_nil_r.
  - intros [s1 w1] [s2 w2] [s3 w3] [Hs12 (t1 & Ht1 & Hf1)] [Hs23 (t2 & Ht2 & Hf2)].
    simpl in *. split; [by etrans|].
    exists (t1 ++ t2). simpl. split; [by rewrite Ht2, Ht1, app_assoc|].
    apply Forall_app. split; [done|].
    eapply Forall_impl; [exact Hf2|]. intros ev Hev f Hf Hin.
    apply (Hev f Hf). by eapply (subseteq_dom _ _ Hs12).
Qed.

Lemma grow_record {A} (c : ComCall A) e v (self : VisStencils) w :
  (∀ f, opened_stencil {| ev_call := existT A c; ev_error := e |} = Some f →
        Stencils.key_of f ∉ dom (__stencils self)) →
  stencils_grow (self, w) (self, record c e v w).
Proof.
  intros Hc. split; [done|]. eexists. split; [reflexivity|]. by constructor.
Qed.

Lemma grow_emit r (self : VisStencils) w : stencils_grow (self, w) (self, emit r w).
Proof. split; [done|]. exists []. by rewrite app_nil_r. Qed.

Lemma grow_set_shape name keys : respects stencils_grow (Stencils.set_shape name keys).
Proof.
  intros self w r self' w' [= _ <- <-]. split; [done|]. exists []. by rewrite app_nil_r.
Qed.

Ltac grows :=
  repeat first
    [ apply (respects_ret stencils_grow)
    | apply (respects_raise stencils_grow)
    | apply (respects_get_self stencils_grow)
    | apply grow_set_shape
    | apply (respects_bind stencils_grow); [|intros ?]
    | apply (respects_try_com stencils_grow); [|intros ?]
    | apply (respects_for_each stencils_grow); intros ?
    | apply (respects_com stencils_grow); intros; apply grow_record; by intros ? [=]
    | apply (respects_logging stencils_grow); intros; apply grow_emit
    | match goal with
      | |- respects _ (if ?b then _ else _) => destruct b
      | |- respects _ (match ?x with _ => _ end) => destruct x
      end ].

Lemma register_master_grows key m :
  respects stencils_grow (Stencils.register_master key m).
Proof. unfold Stencils.register_master. grows. Qed.

Lemma get_grows shape index : respects stencils_grow (Stencils.get shape index).
Proof. unfold Stencils.get. grows. Qed.

Lemma get_info_grows shape index : respects stencils_grow (Stencils.get_info shape index).
Proof. unfold Stencils.get_info. grows. Qed.

Lemma export_grows filename shape index :
  respects stencils_grow (Stencils.export filename shape index).
Proof. unfold Stencils.export. grows. Qed.

Lemma add_stencil_grows filename :
  respects stencils_grow (Stencils.add_stencil filename).
Proof.
  intros self w r self' w'. unfold Stencils.add_stencil.
  unfold bind at 1, get_self at 1.
  case_bool_decide as Hkey; [|intros [= _ <- <-]; reflexivity].
  assert (Hev : ∀ e v, stencils_grow (self, w)
            (self, record (Documents_OpenEx filename vC.visOpenDocked) e v w)).
  { intros e v. apply grow_record. by intros f [= <-]. }
  intros Hrun. apply bind_inv in Hrun as [(doc & s1 & w1 & Hopen & Hrest)|(e & Hopen & _)].
  - unfold try_com in Hopen.
    destruct (com _ self w) as [[[a|e] s0] w0] eqn:Hcom;
      apply com_inv in Hcom as (-> & [(a' & v & [= <-] & ->)|(hr & [=] & ->)]).
    2:{ subst e. discriminate Hopen. }
    injection Hopen as <- <- <-.
    apply bind_inv in Hrest as [(u & s2 & w2 & Hset & Hloop)|(e & [=] & _)].
    injection Hset as _ <- <-.
    etrans; [apply (Hev None v)|]. etrans.
    2:{ revert Hloop. apply (respects_bind stencils_grow).
        - apply (respects_com stencils_grow). intros. apply grow_record. by intros ? [=].
        - intros masters. apply (respects_for_each stencils_grow).
          intros m. apply register_master_grows. }
    split; simpl.
    + apply insert_subseteq. by apply not_elem_of_dom.
    + exists []. by rewrite app_nil_r.
  - unfold try_com in Hopen.
    destruct (com _ self w) as [[[a|e0] s0] w0] eqn:Hcom;
      apply com_inv in Hcom as (-> & [(a' & v & [=] & ->)|(hr & [= ->] & ->)]).
    { discriminate Hopen. }
    injection Hopen as _ <- <-.
    etrans; [apply (Hev (Some hr) (app w))|].
    etrans; apply grow_emit.
Qed.

Lemma serve_grows q : respects stencils_grow (Stencils.serve q).
Proof.
  destruct q; simpl.
  - apply add_stencil_grows.
  - apply (respects_bind stencils_grow); [apply get_grows|intros; apply (respects_ret stencils_grow)].
  - apply (respects_bind stencils_grow);
      [apply get_info_grows|intros; apply (respects_ret stencils_grow)].
  - apply export_grows.
  - unfold Stencils.__iter__. grows.
Qed.

Lemma session_grows qs : respects stencils_grow (Stencils.session qs).
Proof.
  apply (respects_for_each stencils_grow). intros q.
  apply (respects_bind stencils_grow); [|intros; apply (respects_ret stencils_grow)].
  apply (respects_attempt stencils_grow), serve_grows.
Qed.

Lemma add_stencil_registers filename self w self' w' :
  Stencils.add_stencil filename self w = (Ok tt, self', w') →
  Stencils.key_of filename ∈ dom (__stencils self').
Proof.
  unfold Stencils.add_stencil. unfold bind at 1, get_self at 1.
  case_bool_decide as Hkey.
  2:{ by intros [= <- <-]. }
  intros Hrun. apply bind_inv in Hrun as [(doc & s1 & w1 & Hopen & Hrest)|(e & _ & [=])].
  apply bind_inv in Hrest as [(u & s2 & w2 & Hset & Hloop)|(e & _ & [=])].
  injection Hset as _ <- <-.
  assert (Hg : stencils_grow
                 ({| __stencils := <[Stencils.key_of filename := doc]> (__stencils s1);
                     __shapes := __shapes s1 |}, w1) (self', w')).
  { revert Hloop. apply (respects_bind stencils_grow).
    - apply (respects_com stencils_grow). intros. apply grow_record. by intros ? [=].
    - intros masters. apply (respects_for_each stencils_grow).
      intros m. apply register_master_grows. }
  destruct Hg as [Hsub _]. simpl in Hsub.
  eapply (subseteq_dom _ _ Hsub). rewrite dom_insert_L. apply elem_of_union_l.
  by apply elem_of_singleton.
Qed.

Lemma add_stencil_loaded_key filename self w :
  Stencils.key_of filename ∈ dom (__stencils self) →
  Stencils.add_stencil filename self w = (Ok tt, self, w).
Proof.
  intros Hin. unfold Stencils.add_stencil, bind, get_self.
  rewrite bool_decide_eq_false_2; [done|]. by intros Hn.
Qed.

(** C2.  When a call of [add_stencil] has returned, a second call with a
    file name of the same key changes nothing: the library registry and
    the resolution lists are the ones the first call left, and no
    automation call is made, so the file is not opened again. *)
Theorem add_stencil_idempotent p1 p2 self w self1 w1 :
  Stencils.key_of p1 = Stencils.key_of p2 →
  Stencils.add_stencil p1 self w = (Ok tt, self1, w1) →
  Stencils.add_stencil p2 self1 w1 = (Ok tt, self1, w1).
Proof.
  intros Hkey Hrun. apply add_stencil_registers in Hrun.
  apply add_stencil_loaded_key. by rewrite <- Hkey.
Qed.

(** C9.  The key of a library is [basename(splitext(filename)[0])].  Once
    [add_stencil p1] has returned, [add_stencil p2] for a path [p2] of the
    same key is a no-op; and whatever the client calls on the object
    afterwards, the library registered under the key stays the one it was
    and no file of that key, so not the one at [p2], is ever opened. *)
Theorem same_key_is_never_opened p1 p2 self w self1 w1 :
  p1 ≠ p2 →
  Stencils.key_of p1 = Stencils.key_of p2 →
  Stencils.add_stencil p1 self w = (Ok tt, self1, w1) →
  Stencils.key_of p2 = basename (splitext p2).1
  ∧ Stencils.add_stencil p2 self1 w1 = (Ok tt, self1, w1)
  ∧ ∀ qs r self' w',
      Stencils.session qs self1 w1 = (r, self', w') →
      is_Some (__stencils self1 !! Stencils.key_of p2)
      ∧ __stencils self' !! Stencils.key_of p2 = __stencils self1 !! Stencils.key_of p2
      ∧ ∃ t, trace w' = trace w1 ++ t
             ∧ Forall (λ ev, opened_stencil ev ≠ Some p2) t.
Proof.
  intros _ Hkey Hrun. split; [done|].
  apply add_stencil_registers in Hrun. rewrite Hkey in Hrun.
  split; [by apply add_stencil_loaded_key|].
  intros qs r self' w' Hs.
  apply session_grows in Hs as [Hsub (t & Ht & Hev)]. simpl in *.
  apply elem_of_dom in Hrun as Hsome. split; [done|]. split.
  - destruct Hsome as [d Hd]. rewrite Hd. by eapply lookup_weaken.
  - exists t. split; [done|]. eapply Forall_impl; [exact Hev|].
    intros ev Hf Hp2. by apply (Hf p2).
Qed.

End stencils_facts.

(** * shapes.py *)

Lemma delete_invalidates flags self w self' w' :
  Shapes.delete flags self w = (Ok tt, self', w') → self' = {| _shape := None |}.
Proof.
  unfold Shapes.delete. intros Hrun.
  apply bind_inv in Hrun as [(sh & s1 & w1 & _ & Hrun)|(e & _ & [=])].
  apply bind_inv in Hrun as [(u & s2 & w2 & _ & Hput)|(e & _ & [=])].
  by injection Hput as <- _.
Qed.

Lemma deleted_VisShape_raises {A} (m : Py VisShape A) w :
  VisShape_method m →
  ∃ attr, m {| _shape := None |} w = (Raise (NoneType_has_no attr), {| _shape := None |}, w).
Proof. intros Hm. destruct Hm; eexists; reflexivity. Qed.

Lemma deleted_VisConnector_raises {A} (m : Py VisConnector A) ty w :
  VisConnector_method m →
  ∃ e, m {| as_VisShape := {| _shape := None |}; _type := ty |} w
       = (Raise e, {| as_VisShape := {| _shape := None |}; _type := ty |}, w).
Proof.
  intros Hm. destruct Hm as [A m Hm| |textval|style].
  - destruct (deleted_VisShape_raises m w Hm) as [attr Hr].
    eexists. unfold Connector.inherited. simpl. by rewrite Hr.
  - unfold Connector.text, bind, get_self. simpl.
    destruct (bool_decide (ty = "Data_Connect")); eexists; reflexivity.
  - unfold Connector.set_text. unfold bind at 1, get_self at 1. simpl.
    destruct (bool_decide (ty = "Data_Connect")); [|eexists; reflexivity].
    destruct (occurs ";" textval); [|eexists; reflexivity].
    destruct (split ";" textval) as [|a [|b [|c l]]]; eexists; reflexivity.
  - eexists. reflexivity.
Qed.

(** C4.  When [delete] has returned, the handle of the object is [None],
    and every getter, setter and method of the object, run in whatever
    world, raises and leaves the world as it found it: no automation call
    is made, nothing is read and nothing is written. *)
Theorem use_after_delete_raises flags self w self' w' :
  Shapes.delete flags self w = (Ok tt, self', w') →
  _shape self' = None
  ∧ (∀ A (m : Py VisShape A) w2,
       VisShape_method m →
       ∃ attr, m self' w2 = (Raise (NoneType_has_no attr), self', w2))
  ∧ (∀ A (m : Py VisConnector A) ty w2,
       VisConnector_method m →
       ∃ e, m {| as_VisShape := self'; _type := ty |} w2
            = (Raise e, {| as_VisShape := self'; _type := ty |}, w2)).
Proof.
  intros Hdel. apply delete_invalidates in Hdel as ->.
  split; [done|]. split.
  - intros A m w2. apply deleted_VisShape_raises.
  - intros A m ty w2. apply deleted_VisConnector_raises.
Qed.

(** C7.  [route_style] fetches [setcell] from the automation object of the
    shape, which has no such member: whatever the connector, the style and
    the world, the call raises [AttributeError] and no cell is written. *)
Theorem route_style_raises self style w :
  ∃ msg, Connector.route_style style self w = (Raise (AttributeError msg), self, w).
Proof.
  destruct self as [[[sh|]] ty]; eexists; reflexivity.
Qed.

(** ** Python's [split] and [in] *)

Lemma split_length sep s : length (split sep s) = S (count sep s).
Proof.
  induction s as [|c s IH]; [done|]. simpl.
  destruct (decide (c = sep)); simpl; [by rewrite IH|].
  destruct (split sep s) as [|hd tl]; [done|]. exact IH.
Qed.

Lemma occurs_count sep s : occurs sep s = bool_decide (0 < count sep s)%nat.
Proof.
  induction s as [|c s IH]; [done|]. simpl.
  destruct (decide (c = sep)); [|done].
  symmetry. apply bool_decide_eq_true_2. lia.
Qed.

(** ** Cells of a placed shape *)

Lemma invoke_Shape_Cells v id s name :
  Shapes v !! id = Some s → is_Some (sh_cells s !! name) →
  invoke (Shape_Cells (ShapeObj id) name) v = inr (CellObj (ShapeObj id) name, v).
Proof.
  intros Hs [x Hx]. unfold invoke, App.cell_of, App.on_sheet, App.sheet_of.
  by rewrite Hs, Hx.
Qed.

Lemma invoke_Shape_CellsU v id s name :
  Shapes v !! id = Some s → is_Some (sh_cells s !! name) →
  invoke (Shape_CellsU (ShapeObj id) name) v = inr (CellObj (ShapeObj id) name, v).
Proof. apply invoke_Shape_Cells. Qed.

Lemma invoke_Cell_FormulaU_put v id s name x :
  Shapes v !! id = Some s → is_Some (sh_cells s !! name) →
  invoke (Cell_FormulaU_put (CellObj (ShapeObj id) name) x) v
  = inr (tt, set_Shapes <[id := App.set_cells <[name := x]> s]> v).
Proof.
  intros Hs [y Hy].
  unfold invoke, App.on_cell, App.on_sheet, App.sheet_of, App.update_sheet.
  by rewrite Hs, Hy.
Qed.

Lemma shape_attr_Some attr sh w :
  Shapes.shape_attr attr {| _shape := Some sh |} w = (Ok sh, {| _shape := Some sh |}, w).
Proof. reflexivity. Qed.

Lemma connector_shape_attr_Some attr sh ty w :
  Connector.shape_attr attr {| as_VisShape := {| _shape := Some sh |}; _type := ty |} w
  = (Ok sh, {| as_VisShape := {| _shape := Some sh |}; _type := ty |}, w).
Proof. reflexivity. Qed.


(** * documents.py: pages *)

Lemma delete_last {A} (l : list A) x : delete (length l) (l ++ [x]) = l.
Proof. induction l as [|y l IH]; simpl; [done|]. by rewrite IH. Qed.

Lemma insert_last {A} (l : list A) x y : <[length l := y]> (l ++ [x]) = l ++ [y].
Proof. induction l as [|z l IH]; simpl; [done|]. by rewrite IH. Qed.

Lemma add_appends_named_page d doc name self w :
  calm w →
  _pages self = PagesObj d →
  Documents (app w) !! d = Some doc →
  name ≠ "" → name ∉ pg_NameU <$> dc_Pages doc →
  ∃ w',
    Documents.add (Some name) self w
      = (Ok (Z.of_nat (length (dc_Pages doc)) + 1), self, w')
    ∧ calm w'
    ∧ Documents (app w') !! d
      = Some (App.set_Pages (λ ps, ps ++ [named_page name]) doc).
Proof.
  intros Hc Hp Hd Hne Hfresh.
  set (n := length (dc_Pages doc)).
  set (pg0 := {| pg_NameU := "Page-" +:+ pretty (S n); pg_AutoSize := false |}).
  set (pg1 := {| pg_NameU := pg_NameU pg0; pg_AutoSize := true |}).
  set (doc0 := App.set_Pages (λ ps, ps ++ [pg0]) doc).
  set (doc1 := App.set_Pages <[n := pg1]> doc0).
  set (doc2 := App.set_Pages <[n := named_page name]> doc1).
  set (v0 := set_ActivePage (Some (d, n)) (set_Documents <[d := doc0]> (app w))).
  set (v1 := set_Documents <[d := doc1]> v0).
  set (v2 := set_Documents <[d := doc2]> v1).
  assert (H0 : invoke (Pages_Add (PagesObj d)) (app w) = inr (PageObj d n, v0)).
  { unfold invoke, App.on_document. by rewrite Hd. }
  assert (Hl0 : dc_Pages doc0 !! n = Some pg0).
  { simpl. rewrite lookup_app_r by done. by rewrite Nat.sub_diag. }
  assert (H1 : invoke (Page_AutoSize_put (PageObj d n) true) v0 = inr (tt, v1)).
  { unfold invoke, App.on_page, App.on_document. simpl.
    rewrite lookup_insert_eq. by rewrite Hl0. }
  assert (Hl1 : dc_Pages doc1 = dc_Pages doc ++ [pg1]) by apply insert_last.
  assert (H2 : invoke (Page_NameU_put (PageObj d n) name) v1 = inr (tt, v2)).
  { unfold invoke, App.on_page, App.on_document. simpl.
    rewrite lookup_insert_eq. rewrite Hl1.
    rewrite lookup_app_r by done. rewrite Nat.sub_diag. simpl.
    rewrite decide_False; [done|]. unfold n. rewrite delete_last. tauto. }
  assert (Hl2 : dc_Pages doc2 = dc_Pages doc ++ [named_page name]).
  { change (dc_Pages doc2) with (<[n := named_page name]> (dc_Pages doc1)).
    rewrite Hl1. apply insert_last. }
  assert (H3 : invoke (Page_Index (PageObj d n)) v2 = inr (Z.of_nat n + 1, v2)).
  { unfold invoke, App.on_page, App.on_document. simpl.
    rewrite lookup_insert_eq. rewrite Hl2.
    rewrite lookup_app_r by done. by rewrite Nat.sub_diag. }
  set (w0 := record (Pages_Add (PagesObj d)) None v0 w).
  set (w1 := record (Page_AutoSize_put (PageObj d n) true) None v1 w0).
  set (w2 := record (Page_NameU_put (PageObj d n) name) None v2 w1).
  exists (record (Page_Index (PageObj d n)) None v2 w2).
  split; [|split].
  - unfold Documents.add. unfold bind at 1, get_self at 1. rewrite Hp.
    erewrite bind_Ok; cycle 1.
    { unfold try_com. by rewrite (com_answer _ self w _ _ Hc H0). }
    fold w0.
    rewrite (bind_Ok _ _ _ _ _ _ _ (com_answer _ self w0 _ _ (calm_record _ _ _ _ Hc) H1)).
    fold w1.
    assert (Hc1 : calm w1) by (by repeat apply calm_record).
    rewrite (bind_Ok _ _ _ _ _ _ _ (com_answer _ self w1 _ _ Hc1 H2)).
    fold w2. apply com_answer; [by apply calm_record|done].
  - by repeat apply calm_record.
  - simpl. rewrite lookup_insert_eq. f_equal.
    destruct doc. unfold doc2, App.set_Pages. simpl. f_equal.
    simpl in Hl2. exact Hl2.
Qed.

Lemma invoke_Page_NameU v d doc i pg :
  Documents v !! d = Some doc → dc_Pages doc !! i = Some pg →
  invoke (Page_NameU (PageObj d i)) v = inr (pg_NameU pg, v).
Proof.
  intros Hd Hi. unfold invoke, App.on_page, App.on_document. by rewrite Hd, Hi.
Qed.

(** The membership test finds a name that a page of the document has. *)
Lemma consume_until_finds name d doc (l : list nat) self w :
  calm w → Documents (app w) !! d = Some doc →
  Forall (λ i, is_Some (dc_Pages doc !! i)) l →
  Exists (λ i, pg_NameU <$> dc_Pages doc !! i = Some name) l →
  ∃ w', Documents.consume_until name (PageObj d <$> l) self w = (Ok true, self, w')
        ∧ calm w'.
Proof.
  intros Hc Hd Hall Hex. revert w Hc Hd Hex.
  induction Hall as [|i l [pg Hi] Hall IH]; intros w Hc Hd Hex.
  { by apply Exists_nil in Hex. }
  cbn [fmap list_fmap Documents.consume_until].
  rewrite (bind_Ok _ _ _ _ _ _ _
             (com_answer _ self w _ _ Hc (invoke_Page_NameU _ _ _ _ _ Hd Hi))).
  case_bool_decide as Hname.
  - eexists. split; [reflexivity|by apply calm_record].
  - apply IH; [by apply calm_record|done|].
    apply Exists_cons in Hex as [Hex|Hex]; [|done].
    rewrite Hi in Hex. simpl in Hex. congruence.
Qed.

(** C8.  In a document that is open, [add] with a name that is not empty
    and that no page of the document has returns; it appends one page, so
    that [len] grows by exactly one; the name is found by the membership
    test and by the lookup by name, which yields the new page; and the
    index returned is the position of the new page, at which the lookup by
    index yields it. *)
Theorem add_makes_page_discoverable d doc name self w :
  calm w →
  _pages self = PagesObj d →
  Documents (app w) !! d = Some doc →
  name ≠ "" → name ∉ pg_NameU <$> dc_Pages doc →
  ∃ index w' new_page,
    Documents.add (Some name) self w = (Ok index, self, w')
    ∧ (∃ n w0 w1, Documents.__len__ self w = (Ok n, self, w0)
                  ∧ Documents.__len__ self w' = (Ok (n + 1), self, w1))
    ∧ (∃ w1, Documents.__contains__ name self w' = (Ok true, self, w1))
    ∧ (∃ w1, Documents.__getitem__ (inr name) self w' = (Ok new_page, self, w1))
    ∧ (∃ w1, Documents.__getitem__ (inl index) self w' = (Ok new_page, self, w1))
    ∧ (∃ w1, com (Page_NameU new_page) self w' = (Ok name, self, w1))
    ∧ (∃ w1, com (Page_Index new_page) self w' = (Ok index, self, w1))
    ∧ index = Z.of_nat (length (dc_Pages doc)) + 1.
Proof.
  intros Hc Hp Hd Hne Hfresh.
  destruct (add_appends_named_page d doc name self w Hc Hp Hd Hne Hfresh)
    as (w' & Hadd & Hc' & Hd').
  set (n := length (dc_Pages doc)) in *.
  set (doc' := App.set_Pages (λ ps, ps ++ [named_page name]) doc) in *.
  assert (Hlen : length (dc_Pages doc') = S n).
  { simpl. rewrite length_app. simpl. lia. }
  assert (Hnew : dc_Pages doc' !! n = Some (named_page name)).
  { simpl. rewrite lookup_app_r by done. by rewrite Nat.sub_diag. }
  exists (Z.of_nat n + 1), w', (PageObj d n).
  split; [done|]. repeat split.
  - exists (Z.of_nat n). do 2 eexists. split.
    + unfold Documents.__len__, bind, get_self. rewrite Hp.
      apply com_answer; [done|]. unfold invoke, App.on_document. by rewrite Hd.
    + unfold Documents.__len__, bind, get_self. rewrite Hp.
      apply com_answer; [done|]. unfold invoke, App.on_document.
      rewrite Hd', Hlen. unfold App.answer. do 2 f_equal. lia.
  - unfold Documents.__contains__. unfold bind at 1, get_self at 1. rewrite Hp.
    erewrite bind_Ok; cycle 1.
    { apply com_answer; [done|]. unfold invoke, App.on_document. by rewrite Hd'. }
    destruct (consume_until_finds name d doc' (seq 0 (length (dc_Pages doc'))) self
                (record (Pages_enum (PagesObj d)) None (app w') w'))
      as (w1 & Hrun & _); [by apply calm_record|done| | |by eauto].
    + apply Forall_forall. intros i Hi. apply elem_of_seq in Hi.
      apply lookup_lt_is_Some. lia.
    + apply Exists_exists. exists n. split; [apply elem_of_seq; lia|].
      by rewrite Hnew.
  - eexists. unfold Documents.__getitem__, bind, get_self, try_com. rewrite Hp.
    erewrite com_answer; [reflexivity|done|].
    unfold invoke, App.on_document. rewrite Hd'.
    assert (list_find (λ pg, pg_NameU pg = name) (dc_Pages doc')
            = Some (n, named_page name)) as ->; [|done].
    apply list_find_Some. split; [done|]. split; [done|].
    intros j pg Hj Hlt Hpg. apply Hfresh. apply list_elem_of_fmap.
    exists pg. split; [done|]. apply list_elem_of_lookup. exists j.
    simpl in Hj. by rewrite lookup_app_l in Hj.
  - eexists. unfold Documents.__getitem__, bind, get_self, try_com. rewrite Hp.
    erewrite com_answer; [reflexivity|done|].
    unfold invoke, App.on_document. rewrite Hd', Hlen.
    rewrite decide_True by lia. unfold App.answer. do 3 f_equal. lia.
  - eexists. apply com_answer; [done|].
    apply (invoke_Page_NameU _ _ _ _ _ Hd' Hnew).
  - eexists. apply com_answer; [done|].
    unfold invoke, App.on_page, App.on_document. by rewrite Hd', Hnew.
Qed.

(** * Failing automation calls *)

Section discipline.
Context `{Pythoncom} (g : ∀ A, ComCall A → bool) {Self : Type}.

Lemma unreported_nil : unreported [].
Proof. intros hr (r & Hin & _). by apply elem_of_nil in Hin. Qed.

Lemma unreported_app l1 l2 : unreported l1 → unreported l2 → unreported (l1 ++ l2).
Proof.
  intros H1 H2 hr (r & Hin & Ht).
  apply elem_of_app in Hin as [Hin|Hin]; [apply (H1 hr)|apply (H2 hr)]; by exists r.
Qed.

Lemma reported_app_l hr l1 l2 : reported hr l1 → reported hr (l1 ++ l2).
Proof. intros (r & Hr & ?). exists r. split; [|done]. apply elem_of_app. by left. Qed.

Lemma reported_app_r hr l1 l2 : reported hr l2 → reported hr (l1 ++ l2).
Proof. intros (r & Hr & ?). exists r. split; [|done]. apply elem_of_app. by right. Qed.

Lemma silent_disciplined {A} (m : Py Self A) :
  (∀ self w, ∃ r self', m self w = (r, self', w) ∧ ∀ hr, r ≠ Raise (com_error hr)) →
  disciplined g m.
Proof.
  intros Hm self w r self' w' Hrun.
  destruct (Hm self w) as (r0 & s0 & H0 & Hr0). rewrite H0 in Hrun.
  injection Hrun as <- <- <-. exists [], []. rewrite !app_nil_r.
  split; [done|]. split; [done|]. left.
  split; [constructor|]. split; [apply unreported_nil|exact Hr0].
Qed.

Lemma disciplined_ret {A} (a : A) : disciplined g (@ret Self A a).
Proof. apply silent_disciplined. intros. by do 2 eexists. Qed.

Lemma disciplined_raise {A} e :
  (∀ hr, e ≠ com_error hr) → disciplined g (@raise Self A e).
Proof.
  intros He. apply silent_disciplined. intros. do 2 eexists. split; [reflexivity|].
  intros hr [= Heq]. by apply (He hr).
Qed.

Lemma disciplined_get_self : disciplined g (@get_self Self).
Proof. apply silent_disciplined. intros. by do 2 eexists. Qed.

Lemma disciplined_put_self s : disciplined g (@put_self Self s).
Proof. apply silent_disciplined. intros. by do 2 eexists. Qed.

Lemma disciplined_logging lvl fmt a :
  unreported [ {| levelname := lvl; msg := fmt; args := a |} ] →
  disciplined g (@logging Self lvl fmt a).
Proof.
  intros Hu self w r self' w' [= <- <- <-]. eexists [], [_]. rewrite app_nil_r.
  split; [done|]. split; [reflexivity|]. left.
  split; [constructor|]. split; [exact Hu|done].
Qed.

Lemma disciplined_com {A} (c : ComCall A) :
  g A c = false → disciplined g (@com Self A c).
Proof.
  intros Hg self w r self' w' Hrun.
  apply com_inv in Hrun as (-> & [(a & v & -> & ->)|(hr & -> & ->)]).
  - eexists [_], []. rewrite app_nil_r. split; [done|]. split; [done|].
    left. split; [by repeat constructor|]. split; [apply unreported_nil|done].
  - eexists [_], []. rewrite app_nil_r. split; [done|]. split; [done|].
    right. eexists [], _, hr. split; [done|]. split; [constructor|].
    split; [done|]. split; [done|]. simpl. rewrite Hg. apply unreported_nil.
Qed.

Lemma disciplined_bind {A B} (m : Py Self A) (k : A → Py Self B) :
  disciplined g m → (∀ a, disciplined g (k a)) → disciplined g (bind m k).
Proof.
  intros Hm Hk self w r self' w' Hrun.
  apply bind_inv in Hrun as [(a & s1 & w1 & H1 & H2)|(e & H1 & ->)].
  - apply Hm in H1 as (t1 & l1 & Ht1 & Hl1 & Hc1).
    apply Hk in H2 as (t2 & l2 & Ht2 & Hl2 & Hc2).
    destruct Hc1 as [(Hc1 & Hu1 & _)|(t0 & ev & hr & _ & _ & _ & [=] & _)].
    exists (t1 ++ t2), (l1 ++ l2).
    split; [by rewrite Ht2, Ht1, app_assoc|]. split; [by rewrite Hl2, Hl1, app_assoc|].
    destruct Hc2 as [(Hc2 & Hu2 & Hr2)|(t0 & ev & hr & -> & Hc0 & Hev & -> & Hg)].
    + left. split; [by apply Forall_app|]. split; [by apply unreported_app|done].
    + right. exists (t1 ++ t0), ev, hr. split; [by rewrite app_assoc|].
      split; [by apply Forall_app|]. split; [done|]. split; [done|].
      destruct (g _ (projT2 (ev_call ev)));
        [by apply reported_app_r|by apply unreported_app].
  - apply Hm in H1 as (t & l & Ht & Hl & Hc). exists t, l.
    split; [done|]. split; [done|].
    destruct Hc as [(Hc & Hu & Hr)|(t0 & ev & hr & -> & Hc0 & Hev & [= ->] & Hg)].
    + left. split; [done|]. split; [done|]. intros hr [= ->]. by apply (Hr hr).
    + right. by exists t0, ev, hr.
Qed.

Lemma disciplined_for_each {A} (l : list A) body :
  (∀ x, disciplined g (body x)) → disciplined g (@for_each Self A l body).
Proof.
  intros Hb. induction l as [|x l IH]; simpl.
  - apply disciplined_ret.
  - apply disciplined_bind; [apply Hb|done].
Qed.

Lemma calls_only_com {A} (c : ComCall A) : g A c = true → calls_only g (@com Self A c).
Proof.
  intros Hg self w r self' w' Hrun.
  apply com_inv in Hrun as (-> & [(a & v & -> & ->)|(hr & -> & ->)]);
    eexists [_]; (split; [done|]); by repeat constructor.
Qed.

Lemma calls_only_bind {A B} (m : Py Self A) (k : A → Py Self B) :
  calls_only g m → (∀ a, calls_only g (k a)) → calls_only g (bind m k).
Proof.
  intros Hm Hk self w r self' w' Hrun.
  apply bind_inv in Hrun as [(a & s1 & w1 & H1 & H2)|(e & H1 & ->)].
  - apply Hm in H1 as (t1 & Ht1 & Hg1). apply Hk in H2 as (t2 & Ht2 & Hg2).
    exists (t1 ++ t2). split; [by rewrite Ht2, Ht1, app_assoc|]. by apply Forall_app.
  - by apply Hm in H1.
Qed.

End discipline.

Section handlers.
Context `{Pythoncom}.

Lemma reported_here hr r l :
  levelname r = ERROR → AReason hr ∈ args r → reported hr (r :: l).
Proof.
  intros Hl Ha. exists r. split; [apply elem_of_cons; by left|]. split; [done|by left].
Qed.

Lemma reported_text hr r l :
  levelname r = ERROR → msg r = "Exception: " +:+ strerror hr → reported hr (r :: l).
Proof.
  intros Hl Ha. exists r. split; [apply elem_of_cons; by left|]. split; [done|by right].
Qed.

Lemma reported_later hr r l : reported hr l → reported hr (r :: l).
Proof. intros (r' & Hr & ?). exists r'. split; [apply elem_of_cons; by right|done]. Qed.

(** What is made under an [except com_error] clause: inside, no record is
    written for a failing call and every call is one the guard holds of;
    the clause writes the records. *)
Lemma disciplined_try_com g {Self A} (m : Py Self A) h :
  disciplined (λ _ _, false) m → calls_only g m → logs_and_reraises h →
  disciplined g (try_com m h).
Proof.
  intros Hm Hcalls Hh self w r self' w'. unfold try_com.
  destruct (m self w) as [[r1 s1] w1] eqn:H1.
  destruct (Hcalls _ _ _ _ _ H1) as (t' & Ht' & Hgt).
  apply Hm in H1 as (t & l & Ht & Hl & Hc).
  assert (t' = t) as -> by (rewrite Ht in Ht'; by apply app_inv_head in Ht').
  destruct Hc as [(Hc & Hu & Hr)|(t0 & ev & hr & -> & Hc0 & Hev & -> & _)].
  - destruct r1 as [a|e].
    { intros [= <- <- <-]. exists t, l. split; [done|]. split; [done|]. by left. }
    destruct e as [hr|?|?|?|?]; [by destruct (Hr hr)|..];
      intros [= <- <- <-]; exists t, l; (split; [done|]); (split; [done|]);
      by left.
  - intros Hrun. destruct (Hh hr s1 w1) as (w2 & lh & Hh2 & Ht2 & Hl2 & Hrep).
    rewrite Hh2 in Hrun. injection Hrun as <- <- <-.
    exists (t0 ++ [ev]), (l ++ lh). split; [by rewrite Ht2|].
    split; [by rewrite Hl2, Hl, app_assoc|].
    right. exists t0, ev, hr. split; [done|]. split; [done|]. split; [done|].
    split; [done|].
    apply Forall_app in Hgt as [_ Hgev]. apply Forall_cons in Hgev as [-> _].
    by apply reported_app_r.
Qed.

Lemma disciplined_on_object g {Self Other A} (o : Other) (m : Py Other A) :
  disciplined g m → disciplined g (@on_object Self Other A o m).
Proof.
  intros Hm self w r self' w'. unfold on_object.
  destruct (m o w) as [[[a|e] o'] w1] eqn:H1; intros [= <- <- <-];
    apply Hm in H1 as (t & l & Ht & Hl & Hc); exists t, l;
    (split; [done|]); (split; [done|]).
  - destruct Hc as [(Hc & Hu & _)|(t0 & ev & hr & _ & _ & _ & [=] & _)]. by left.
  - destruct Hc as [(Hc & Hu & Hr)|(t0 & ev & hr & -> & Hc0 & Hev & [= ->] & Hg)].
    + left. split; [done|]. split; [done|]. intros hr [= ->]. by apply (Hr hr).
    + right. by exists t0, ev, hr.
Qed.

Lemma disciplined_inherited g {A} (m : Py VisShape A) :
  disciplined g m → disciplined g (Connector.inherited m).
Proof.
  intros Hm self w r self' w'. unfold Connector.inherited.
  destruct (m (as_VisShape self) w) as [[r1 s1] w1] eqn:H1. intros [= <- <- <-].
  by apply Hm in H1.
Qed.

End handlers.

(** A record that tells of no error: it is a warning, or it has no error
    among its arguments and its message is not that of the import. *)
Ltac tells_nothing :=
  let hr := fresh "hr" in
  let r := fresh "r" in
  let Hin := fresh "Hin" in
  let Hlvl := fresh "Hlvl" in
  let Hor := fresh "Hor" in
  let Ha := fresh "Ha" in
  intros hr (r & Hin & Hlvl & Hor);
  apply list_elem_of_singleton in Hin; subst r; simpl in Hlvl, Hor;
  first
    [ discriminate Hlvl
    | destruct Hor as [Ha|Ha];
      [ repeat (apply elem_of_cons in Ha as [Ha|Ha]; [discriminate Ha|]);
        by apply elem_of_nil in Ha
      | discriminate Ha ] ].

Ltac handler :=
  intros ? ? ?; do 2 eexists;
  split; [reflexivity|]; split; [reflexivity|];
  split; [cbn; rewrite <- ?app_assoc; reflexivity|];
  first
    [ apply reported_here; [reflexivity|apply elem_of_cons; by left]
    | apply reported_later, reported_here; [reflexivity|apply elem_of_cons; by left]
    | apply reported_text; reflexivity ].

Ltac only_calls :=
  repeat first
    [ apply calls_only_com; reflexivity
    | apply calls_only_bind; [|intros ?]
    | match goal with
      | |- calls_only _ (if ?b then _ else _) => destruct b
      end ].

Ltac discipline :=
  repeat first
    [ apply disciplined_ret
    | apply disciplined_raise; intros ? ?; discriminate
    | apply disciplined_get_self | apply disciplined_put_self
    | apply disciplined_logging; tells_nothing
    | apply disciplined_com; solve [reflexivity|auto]
    | apply disciplined_bind; [|intros ?]
    | apply disciplined_try_com; [|only_calls|handler]
    | apply disciplined_for_each; intros ?
    | apply disciplined_on_object
    | apply disciplined_inherited
    | assumption
    | match goal with
      | |- disciplined _ (if ?b then _ else _) => destruct b
      | |- disciplined _ (match ?x with _ => _ end) => destruct x
      | |- disciplined _ (let _ := _ in _) => cbv zeta
      end ].

Section failing_calls.
Context `{OsPath} `{Pythoncom}.

Lemma disciplined_page_names (g : ∀ A, ComCall A → bool) pages :
  (∀ page, g _ (Page_NameU page) = false) →
  disciplined g (Documents.page_names pages).
Proof. intros Hg. induction pages as [|page rest IH]; simpl; discipline. Qed.

Lemma disciplined_consume_until (g : ∀ A, ComCall A → bool) name pages :
  (∀ page, g _ (Page_NameU page) = false) →
  disciplined g (Documents.consume_until name pages).
Proof. intros Hg. induction pages as [|page rest IH]; simpl; discipline. Qed.

Lemma disciplined_FromSheet_IDs (g : ∀ A, ComCall A → bool) {Self} connects :
  (∀ c, g _ (Connect_FromSheet_ID c) = false) →
  disciplined g (@Connector.FromSheet_IDs Self connects).
Proof. intros Hg. induction connects as [|c rest IH]; simpl; discipline. Qed.

Lemma disciplined_VisShape_method {A} (m : Py VisShape A) :
  VisShape_method m → disciplined (@guarded) m.
Proof. intros Hm. destruct Hm; discipline. Qed.

Lemma disciplined_VisConnector_method {A} (m : Py VisConnector A) :
  VisConnector_method m → disciplined (@guarded) m.
Proof.
  intros Hm. destruct Hm as [A m Hm| |textval|style].
  - apply disciplined_inherited. by apply disciplined_VisShape_method.
  - discipline.
  - discipline.
  - discipline.
Qed.

Ltac discipline_all :=
  repeat first
    [ progress discipline
    | apply disciplined_page_names; intros; reflexivity
    | apply disciplined_consume_until; intros; reflexivity
    | apply disciplined_FromSheet_IDs; intros; reflexivity ].


End failing_calls.

(** * The statements at the example worlds *)

Lemma calm_world0 : calm Demo.world0.
Proof. intros n. reflexivity. Defined.

Lemma get_resolves_last_loaded_first_witness :
  ∃ self w m w',
    Stencils.__init__
      ["Basic Shapes.vss"; "periph_m.vss"; "C:\data\network_connector.vss"]
      Demo.no_stencils Demo.world0 = (Ok tt, self, w)
    ∧ Stencils.get "Dynamic connector" 0 self w = (Ok m, self, w')
    ∧ master_from w' m "C:\data\network_connector.vss" Demo.network
        "Dynamic connector"
    ∧ Stencils.get "Dynamic connector" 3 self w
      = (Raise (ValueError (AInt 3)), self,
         emit (log_error "Bad shape index: %s" [AInt 3]) w).
Proof.
  destruct (get_resolves_last_loaded_first
              "Basic Shapes.vss" "periph_m.vss" "C:\data\network_connector.vss"
              Demo.basic Demo.periph Demo.network "Dynamic connector"
              Demo.no_stencils Demo.world0)
    as (self & w & Hinit & (m & w' & Hget & Hm) & _ & _ & Hbad & _).
  - exact calm_world0.
  - vm_compute; reflexivity.
  - vm_compute; reflexivity.
  - vm_compute; reflexivity.
  - vm_compute. intros Heq. discriminate Heq.
  - vm_compute. intros Heq. discriminate Heq.
  - vm_compute. intros Heq. discriminate Heq.
  - split; apply (bool_decide_unpack _); vm_compute; exact I.
  - split; apply (bool_decide_unpack _); vm_compute; exact I.
  - split; apply (bool_decide_unpack _); vm_compute; exact I.
  - exists self, w, m, w'. exact (conj Hinit (conj Hget (conj Hm Hbad))).
Defined.

Lemma add_stencil_idempotent_witness :
  Stencils.add_stencil "D:\old\periph_m.vss" Demo.loaded.1.2 Demo.loaded.2
  = (Ok tt, Demo.loaded.1.2, Demo.loaded.2).
Proof.
  apply (add_stencil_idempotent "periph_m.vss" "D:\old\periph_m.vss"
           Demo.no_stencils Demo.world0).
  - vm_compute; reflexivity.
  - vm_compute; reflexivity.
Defined.

Lemma same_key_is_never_opened_witness :
  Stencils.key_of "D:\old\periph_m.vss" = "periph_m"
  ∧ Stencils.add_stencil "D:\old\periph_m.vss" Demo.loaded.1.2 Demo.loaded.2
    = (Ok tt, Demo.loaded.1.2, Demo.loaded.2)
  ∧ ∀ qs r self' w',
      Stencils.session qs Demo.loaded.1.2 Demo.loaded.2 = (r, self', w') →
      ∃ t, trace w' = trace Demo.loaded.2 ++ t
           ∧ Forall (λ ev, opened_stencil ev ≠ Some "D:\old\periph_m.vss") t.
Proof.
  destruct (same_key_is_never_opened "periph_m.vss" "D:\old\periph_m.vss"
              Demo.no_stencils Demo.world0 Demo.loaded.1.2 Demo.loaded.2)
    as (Hkey & Hnoop & Hever).
  - intros Heq. discriminate Heq.
  - vm_compute; reflexivity.
  - vm_compute; reflexivity.
  - split; [vm_compute; reflexivity|]. split; [exact Hnoop|].
    intros qs r self' w' Hs. destruct (Hever qs r self' w' Hs) as (_ & _ & Ht).
    exact Ht.
Defined.

Lemma use_after_delete_raises_witness :
  _shape Demo.deleted.1.2 = None
  ∧ ∃ attr, Shapes.x Demo.deleted.1.2 Demo.deleted.2
            = (Raise (NoneType_has_no attr), Demo.deleted.1.2, Demo.deleted.2).
Proof.
  destruct (use_after_delete_raises vC.visDeleteNormal Demo.box0 Demo.world0
              Demo.deleted.1.2 Demo.deleted.2) as (Hnone & Hshape & _).
  - vm_compute; reflexivity.
  - split; [exact Hnone|]. apply (Hshape _ Shapes.x Demo.deleted.2 method_x).
Defined.

Lemma add_makes_page_discoverable_witness :
  ∃ w' w1,
    Documents.add (Some "TestPage") Demo.doc0 Demo.world0
    = (Ok 2, Demo.doc0, w')
    ∧ Documents.__contains__ "TestPage" Demo.doc0 w' = (Ok true, Demo.doc0, w1).
Proof.
  destruct (add_makes_page_discoverable 0 App.blank_document "TestPage"
              Demo.doc0 Demo.world0)
    as (index & w' & page & Hadd & _ & (w1 & Hin) & _ & _ & _ & _ & ->).
  - exact calm_world0.
  - reflexivity.
  - vm_compute; reflexivity.
  - intros Heq. discriminate Heq.
  - apply (bool_decide_unpack _). vm_compute. exact I.
  - exists w', w1. exact (conj Hadd Hin).
Defined.



(** * Where the code departs from the specification *)

Lemma com_Ok_inv {Self A} (c : ComCall A) (self : Self) w a self' w' :
  com c self w = (Ok a, self', w') →
  ∃ v, invoke c (app w) = inr (a, v) ∧ self' = self ∧ w' = record c None v w.
Proof.
  unfold com. destruct (faults w _); [done|].
  destruct (invoke c (app w)) as [hr|[a0 v]]; [done|].
  intros [= <- <- <-]. by exists v.
Qed.

(** Whatever was written, and whichever shape the handle designates, what
    the getter returns is the cell object. *)
Lemma x_is_a_cell_object sh w c self' w' :
  Shapes.x {| _shape := Some sh |} w = (Ok c, self', w') → c = CellObj sh "PinX".
Proof.
  unfold Shapes.x. rewrite (bind_Ok _ _ _ _ _ _ _ (shape_attr_Some _ _ _)).
  intros Hrun. apply com_Ok_inv in Hrun as (v & Hi & _).
  unfold invoke, App.cell_of, App.on_sheet in Hi.
  destruct (App.sheet_of (app w) sh) as [s|]; [|done].
  destruct (sh_cells s !! "PinX"); [|done]. by injection Hi as <- _.
Qed.

(** On the path where [Close] succeeds the alert response is put back. *)
Lemma close_restores_alert_response d doc self w :
  calm w → _document self = DocumentObj d → Documents (app w) !! d = Some doc →
  ∃ w', Documents.close true self w = (Ok tt, self, w')
        ∧ AlertResponse (app w') = AlertResponse (app w).
Proof.
  intros Hc Hdoc Hd.
  set (w1 := record Application_AlertResponse None (app w) w).
  set (w2 := record (Application_AlertResponse_put 7) None
               (set_AlertResponse 7 (app w)) w1).
  assert (∃ v, invoke (Document_Close (DocumentObj d)) (app w2) = inr (tt, v)
               ∧ AlertResponse v = 7) as (v & Hclose & Hv).
  { eexists. split.
    - unfold invoke, App.on_document. simpl. rewrite Hd. reflexivity.
    - reflexivity. }
  eexists. split.
  - unfold Documents.close. unfold bind at 1, get_self at 1. rewrite Hdoc.
    rewrite (bind_Ok _ _ _ _ _ _ _
               (com_answer Application_AlertResponse self w _ _ Hc eq_refl)).
    fold w1.
    rewrite (bind_Ok _ _ _ _ _ _ _
               (com_answer (Application_AlertResponse_put 7) self w1 tt
                  (set_AlertResponse 7 (app w)) (calm_record _ _ _ _ Hc) eq_refl)).
    fold w2. erewrite bind_Ok; cycle 1.
    { unfold try_com. rewrite (com_answer _ self w2 _ _ (calm_record _ _ _ _
                                 (calm_record _ _ _ _ Hc)) Hclose). reflexivity. }
    apply com_answer; [by repeat apply calm_record|reflexivity].
  - reflexivity.
Qed.

(** C3.  The box of the example holds formulas in [PinX] and [Width].
    After [x = 2.5] the cell holds the literal [2.5], and reading [x] back
    returns the cell object of the automation interface, not the number;
    the same for [y], [w] and [h]. *)
Theorem getter_returns_the_cell_object :
  (∃ w', (Shapes.set_x 2.5 ;;; Shapes.x) Demo.box0 Demo.world0
         = (Ok (CellObj (ShapeObj 0) "PinX"), Demo.box0, w')
         ∧ cell_formula Demo.world0 0 "PinX" = Some (VStr "=Sheet.5!PinX+1")
         ∧ cell_formula w' 0 "PinX" = Some (VFloat 2.5))
  ∧ (∃ w', (Shapes.set_y 2.5 ;;; Shapes.y) Demo.box0 Demo.world0
           = (Ok (CellObj (ShapeObj 0) "PinY"), Demo.box0, w')
           ∧ cell_formula w' 0 "PinY" = Some (VFloat 2.5))
  ∧ (∃ w', (Shapes.set_w 5 ;;; Shapes.w) Demo.box0 Demo.world0
           = (Ok (CellObj (ShapeObj 0) "Width"), Demo.box0, w')
           ∧ cell_formula Demo.world0 0 "Width" = Some (VStr "=GUARD(2 in)")
           ∧ cell_formula w' 0 "Width" = Some (VFloat 5))
  ∧ (∃ w', (Shapes.set_h 1 ;;; Shapes.h) Demo.box0 Demo.world0
           = (Ok (CellObj (ShapeObj 0) "Height"), Demo.box0, w')
           ∧ cell_formula w' 0 "Height" = Some (VFloat 1)).
Proof.
  repeat split; eexists; (split; [vm_compute; reflexivity|]);
    repeat split; vm_compute; reflexivity.
Qed.

(** C6.  [close(nosave=True)] whose [Close] call fails: the first two calls,
    which read the alert response and set it to 7, succeed in every state
    of the application; the third, [Close], fails with [hr]; the operation
    raises, and the alert response is left at 7, whatever it was. *)
Theorem close_failure_leaves_alert_response (self : VisDocument) (v : Visio)
    (t : list Event) (l : list LogRecord) (hr : HRESULT) :
  let w := {| app := v;
              faults := λ n, if decide (n = (length t + 2)%nat) then Some hr else None;
              trace := t; log := l |} in
  ∃ w', Documents.close true self w = (Raise (com_error hr), self, w')
        ∧ AlertResponse (app w') = 7
        ∧ log w' = l ++ [log_error "Failed to print document" [];
                         log_error "COM Exception: %s" [AReason hr]].
Proof.
  intros w.
  set (w1 := record Application_AlertResponse None v w).
  set (w2 := record (Application_AlertResponse_put 7) None (set_AlertResponse 7 v) w1).
  assert (H0 : faults w (length (trace w)) = None).
  { simpl. apply decide_False. lia. }
  assert (H1 : faults w1 (length (trace w1)) = None).
  { simpl. rewrite length_app. simpl. apply decide_False. lia. }
  assert (H2 : faults w2 (length (trace w2)) = Some hr).
  { simpl. rewrite !length_app. simpl. apply decide_True. lia. }
  eexists. split; [|split].
  - unfold Documents.close. unfold bind at 1, get_self at 1.
    rewrite (bind_Ok _ _ _ _ _ _ _
               (com_answer_at Application_AlertResponse self w (AlertResponse v) v H0 eq_refl)).
    fold w1.
    rewrite (bind_Ok _ _ _ _ _ _ _
               (com_answer_at (Application_AlertResponse_put 7) self w1 tt
                  (set_AlertResponse 7 v) H1 eq_refl)).
    fold w2. apply bind_Raise. unfold try_com.
    rewrite (com_faulted _ self w2 hr H2). reflexivity.
  - reflexivity.
  - cbn. by rewrite <- app_assoc.
Qed.


(** C8, as the specification has it, does not hold of every name.  The
    page is added before it is named, and the application refuses a name
    that another page has: in the blank document of the example, whose
    page is [Page-1], [add("Page-1")] raises and returns no index, and the
    document has a second page, which kept the name the application gave
    it. *)
Lemma add_with_a_taken_name_raises :
  ∃ w' doc',
    Documents.add (Some "Page-1") Demo.doc0 Demo.world0
    = (Raise (com_error DISP_E_EXCEPTION), Demo.doc0, w')
    ∧ Documents (app w') !! 0%nat = Some doc'
    ∧ pg_NameU <$> dc_Pages doc' = ["Page-1"; "Page-2"].
Proof.
  do 2 eexists. split; [vm_compute; reflexivity|].
  split; vm_compute; reflexivity.
Qed.

(** The two operations that forward a document property: the probe of
    [hasattr] fetches the property, and when the fetch fails its
    [com_error] is turned into the [AttributeError] of a missing
    property. *)
Lemma getattr_replaces_the_error :
  ∃ w', Documents.__getattr__ "Creator" Demo.doc0
          (Demo.failing_at 0 (-5) Demo.world0)
        = (Raise (AttributeError (AStr "Creator")), Demo.doc0, w')
        ∧ log w' = [log_error "Property does not exist: %s" [AStr "Creator"]].
Proof. eexists. split; reflexivity. Qed.


(** * Operations that leave their object alone *)

#[local] Instance same_object_preorder {Self} : PreOrder (@same_object Self).
Proof.
  split.
  - by intros [s w].
  - intros [s1 w1] [s2 w2] [s3 w3]. unfold same_object. simpl. congruence.
Qed.

Ltac keeps_object :=
  repeat first
    [ apply (respects_ret same_object)
    | apply (respects_raise same_object)
    | apply (respects_get_self same_object)
    | apply (respects_bind same_object); [|intros ?]
    | apply (respects_try_com same_object); [|intros ?]
    | apply (respects_hasattr same_object)
    | apply (respects_for_each same_object); intros ?
    | apply (respects_com same_object); by intros
    | apply (respects_logging same_object); by intros
    | assumption
    | match goal with
      | |- respects _ (if ?b then _ else _) => destruct b
      | |- respects _ (match ?x with _ => _ end) => destruct x
      | |- respects _ (let _ := _ in _) => cbv zeta
      end ].

(** * stencils.py: failed loads, the registry, iteration *)

Section more_stencils.
Context `{OsPath}.

(** X1.  When the call that opens the stencil file fails, with whatever
    error, [add_stencil] writes two records to the log (the file name,
    then the reason), raises that error, and leaves the object as it
    was: no key is registered. *)
Theorem add_stencil_failure_registers_nothing filename self w hr w1 :
  Stencils.key_of filename ∉ dom (__stencils self) →
  com (Documents_OpenEx filename vC.visOpenDocked) self w
    = (Raise (com_error hr), self, w1) →
  Stencils.add_stencil filename self w
  = (Raise (com_error hr), self,
     emit (log_error "COM Exception: %s" [AReason hr])
       (emit (log_error "Loading of stencil file failed for: %s" [AStr filename]) w1)).
Proof.
  intros Hkey Hopen. unfold Stencils.add_stencil.
  unfold bind at 1, get_self at 1. rewrite bool_decide_eq_true_2 by done.
  apply bind_Raise. unfold try_com. rewrite Hopen. reflexivity.
Qed.

Lemma register_master_effect key m self w r self' w' :
  Stencils.register_master key m self w = (r, self', w') →
  self' = self
  ∨ ∃ name keys,
      self' = {| __stencils := __stencils self;
                 __shapes := <[name := key :: keys]> (__shapes self) |}
      ∧ (keys = [] ∨ __shapes self !! name = Some keys).
Proof.
  unfold Stencils.register_master. intros Hrun.
  apply bind_inv in Hrun as [(name & s1 & w1 & Hc1 & Hrun)|(e & Hc1 & _)].
  2:{ left. by apply com_inv in Hc1 as [-> _]. }
  apply com_inv in Hc1 as [-> _].
  unfold bind at 1, get_self at 1 in Hrun.
  case_bool_decide as Hnew.
  - apply bind_inv in Hrun as [(name2 & s2 & w2 & Hc2 & Hset)|(e & Hc2 & _)].
    2:{ left. by apply com_inv in Hc2 as [-> _]. }
    apply com_inv in Hc2 as [-> _].
    injection Hset as _ <- _. right. exists name2, []. split; [done|by left].
  - apply bind_inv in Hrun as [(name2 & s2 & w2 & Hc2 & Hrun)|(e & Hc2 & _)].
    2:{ left. by apply com_inv in Hc2 as [-> _]. }
    apply com_inv in Hc2 as [-> _].
    unfold bind at 1, get_self at 1 in Hrun.
    destruct (__shapes self !! name2) as [keys|] eqn:Hk.
    + injection Hrun as _ <- _. right. exists name2, keys. split; [done|by right].
    + injection Hrun as _ <- _. by left.
Qed.

Lemma register_master_consistent key m self w r self' w' :
  Stencils.register_master key m self w = (r, self', w') →
  consistent self → key ∈ dom (__stencils self) →
  consistent self' ∧ __stencils self' = __stencils self.
Proof.
  intros Hrun Hcons Hkey.
  apply register_master_effect in Hrun as [->|(name & keys & -> & Hkeys)]; [done|].
  split; [|done]. intros n ks. simpl.
  destruct (decide (name = n)) as [->|Hne].
  - rewrite lookup_insert_eq. intros [= <-]. split; [done|].
    intros k [->|Hk]%elem_of_cons; [done|].
    destruct Hkeys as [->|Hold]; [by apply elem_of_nil in Hk|].
    by apply (Hcons _ _ Hold).
  - rewrite lookup_insert_ne by done. apply Hcons.
Qed.

Lemma register_loop_consistent key (l : list IVMaster) self w r self' w' :
  for_each l (Stencils.register_master key) self w = (r, self', w') →
  consistent self → key ∈ dom (__stencils self) →
  consistent self' ∧ __stencils self' = __stencils self.
Proof.
  revert self w. induction l as [|m l IH]; intros self w Hrun Hcons Hkey.
  { by injection Hrun as _ <- _. }
  simpl in Hrun.
  apply bind_inv in Hrun as [(u & s1 & w1 & H1 & Hrun)|(e & H1 & _)].
  - destruct (register_master_consistent _ _ _ _ _ _ _ H1 Hcons Hkey) as [Hc1 Hs1].
    destruct (IH _ _ Hrun Hc1) as [Hc2 Hs2]; [by rewrite Hs1|].
    split; [done|]. by rewrite Hs2.
  - by eapply register_master_consistent.
Qed.

Lemma consistent_set_stencil key doc self :
  consistent self →
  consistent {| __stencils := <[key := doc]> (__stencils self);
                __shapes := __shapes self |}.
Proof.
  intros Hcons name keys Hk. destruct (Hcons name keys Hk) as [Hne Hin].
  split; [done|]. intros k Hkin. simpl. rewrite dom_insert_L.
  apply elem_of_union_r. by apply Hin.
Qed.

Lemma add_stencil_consistent filename self w r self' w' :
  Stencils.add_stencil filename self w = (r, self', w') →
  consistent self → consistent self'.
Proof.
  unfold Stencils.add_stencil. unfold bind at 1, get_self at 1.
  case_bool_decide as Hkey; [|by intros [= _ <- _]].
  intros Hrun Hcons.
  apply bind_inv in Hrun as [(doc & s1 & w1 & Hopen & Hrun)|(e & Hopen & _)].
  - assert (s1 = self) as ->.
    { unfold try_com in Hopen.
      destruct (com _ self w) as [[[a|e] s0] w0] eqn:Hcom;
        apply com_inv in Hcom as [-> _]; [by injection Hopen|].
      destruct e; discriminate Hopen. }
    apply bind_inv in Hrun as [(u & s2 & w2 & Hset & Hrun)|(e & [=] & _)].
    injection Hset as _ <- _.
    pose proof (consistent_set_stencil (Stencils.key_of filename) doc self Hcons) as Hc2.
    apply bind_inv in Hrun as [(ms & s3 & w3 & Hms & Hloop)|(e & Hms & _)].
    + apply com_inv in Hms as [-> _].
      eapply register_loop_consistent; [exact Hloop|done|].
      simpl. rewrite dom_insert_L. apply elem_of_union_l. by apply elem_of_singleton.
    + by apply com_inv in Hms as [-> _].
  - unfold try_com in Hopen.
    destruct (com _ self w) as [[[a|e0] s0] w0] eqn:Hcom;
      apply com_inv in Hcom as [-> _]; [discriminate Hopen|].
    destruct e0; by injection Hopen as _ <- _.
Qed.

Lemma get_same_object shape index : respects same_object (Stencils.get shape index).
Proof. unfold Stencils.get. keeps_object. Qed.

Lemma serve_consistent q self w r self' w' :
  Stencils.serve q self w = (r, self', w') → consistent self → consistent self'.
Proof.
  destruct q as [filename|shape index|shape index|filename shape index|]; simpl.
  - apply add_stencil_consistent.
  - intros Hrun. assert (respects same_object (Stencils.get shape index ;;; ret tt)) as Hs.
    { keeps_object. }
    apply Hs in Hrun. unfold same_object in Hrun. simpl in Hrun. by subst.
  - intros Hrun.
    assert (respects same_object (Stencils.get_info shape index ;;; ret tt)) as Hs.
    { unfold Stencils.get_info. keeps_object. }
    apply Hs in Hrun. unfold same_object in Hrun. simpl in Hrun. by subst.
  - intros Hrun.
    assert (respects same_object (Stencils.export filename shape index)) as Hs.
    { unfold Stencils.export. keeps_object. }
    apply Hs in Hrun. unfold same_object in Hrun. simpl in Hrun. by subst.
  - intros Hrun. assert (respects same_object (Stencils.__iter__ ;;; ret tt)) as Hs.
    { unfold Stencils.__iter__. keeps_object. }
    apply Hs in Hrun. unfold same_object in Hrun. simpl in Hrun. by subst.
Qed.

Lemma session_consistent qs self w r self' w' :
  Stencils.session qs self w = (r, self', w') → consistent self → consistent self'.
Proof.
  unfold Stencils.session. revert self w.
  induction qs as [|q qs IH]; intros self w Hrun Hcons.
  { by injection Hrun as _ <- _. }
  simpl in Hrun.
  apply bind_inv in Hrun as [(u & s1 & w1 & H1 & Hrun)|(e & H1 & _)].
  - apply IH in Hrun; [done|].
    apply bind_inv in H1 as [(o & s0 & w0 & H0 & [= _ <- _])|(e & H0 & _)].
    + unfold attempt in H0. destruct (Stencils.serve q self w) as [[r0 s'] w''] eqn:Hq.
      injection H0 as _ <- _. by eapply serve_consistent.
    + unfold attempt in H0. by destruct (Stencils.serve q self w) as [[r0 s'] w''].
  - apply bind_inv in H1 as [(o & s0 & w0 & H0 & [=])|(e' & H0 & _)].
    unfold attempt in H0. by destruct (Stencils.serve q self w) as [[r0 s'] w''].
Qed.

Lemma get_outcomes shape index self w :
  consistent self → get_outcome shape index (Stencils.get shape index self w).1.1.
Proof.
  intros Hcons. unfold Stencils.get, bind at 1, get_self at 1.
  destruct (__shapes self !! shape) as [keys|] eqn:Hk.
  2:{ right. right. by right. }
  case_bool_decide as Hrange.
  2:{ right. right. by left. }
  destruct (Hcons _ _ Hk) as [_ Hin].
  destruct (lookup_lt_is_Some_2 keys (Z.to_nat index)) as [key Hkey]; [lia|].
  rewrite Hkey.
  pose proof (Hin key) as Hd. rewrite elem_of_dom in Hd.
  destruct Hd as [doc Hdoc].
  { apply list_elem_of_lookup. by eexists. }
  rewrite Hdoc.
  destruct (com (Masters_ItemU doc shape) self w) as [[r s'] w'] eqn:Hcom.
  apply com_inv in Hcom as (_ & [(a & v & -> & _)|(hr & -> & _)]); simpl.
  - left. by eexists.
  - right. left. by eexists.
Qed.

(** X2.  Whatever a client calls on a [VisStencils] object that starts
    empty, and in whatever world (calls may fail at any point, a load may
    stop half way), the registry stays consistent: every registered name
    has a library, and every library in a resolution list is loaded.  So
    [get] only ever returns a master, raises the [com_error] of the
    application, [ValueError(index)] or [KeyError(shape)]. *)
Theorem registry_stays_consistent qs w r self w' shape index w1 :
  Stencils.session qs no_stencils w = (r, self, w') →
  consistent self
  ∧ get_outcome shape index (Stencils.get shape index self w1).1.1.
Proof.
  intros Hrun.
  assert (consistent self) as Hcons.
  { eapply session_consistent; [exact Hrun|]. intros name keys Hk.
    unfold no_stencils in Hk. simpl in Hk. by rewrite lookup_empty in Hk. }
  split; [done|]. by apply get_outcomes.
Qed.

Lemma get_Ok_inv shape index self w m s' w1 :
  Stencils.get shape index self w = (Ok m, s', w1) →
  ∃ keys key d i ms doc,
    __shapes self !! shape = Some keys
    ∧ 0 ≤ index < Z.of_nat (length keys)
    ∧ keys !! Z.to_nat index = Some key
    ∧ __stencils self !! key = Some (DocumentObj d)
    ∧ Documents (app w) !! d = Some doc
    ∧ list_find (λ ms, ms_NameU ms = shape) (dc_Masters doc) = Some (i, ms)
    ∧ m = MasterObj d i ∧ s' = self
    ∧ w1 = record (Masters_ItemU (DocumentObj d) shape) None (app w) w.
Proof.
  unfold Stencils.get, bind at 1, get_self at 1.
  destruct (__shapes self !! shape) as [keys|] eqn:Hk; [|done].
  case_bool_decide as Hrange; [|done].
  destruct (keys !! Z.to_nat index) as [key|] eqn:Hkey; [|done].
  destruct (__stencils self !! key) as [[d]|] eqn:Hd; [|done].
  intros Hrun. apply com_Ok_inv in Hrun as (v & Hi & -> & ->).
  unfold invoke, App.on_document in Hi.
  destruct (Documents (app w) !! d) as [doc|] eqn:Hdoc; [|done].
  destruct (list_find _ (dc_Masters doc)) as [[i ms]|] eqn:Hf; [|done].
  injection Hi as <- <-.
  exists keys, key, d, i, ms, doc. repeat split; try done; lia.
Qed.

Lemma get_resolves X keys n key d doc i ms self w :
  calm w →
  __shapes self !! X = Some keys → keys !! n = Some key →
  __stencils self !! key = Some (DocumentObj d) →
  Documents (app w) !! d = Some doc →
  list_find (λ ms, ms_NameU ms = X) (dc_Masters doc) = Some (i, ms) →
  Stencils.get X (Z.of_nat n) self w
  = (Ok (MasterObj d i), self, record (Masters_ItemU (DocumentObj d) X) None (app w) w).
Proof.
  intros Hc Hk Hn Hs Hd Hf.
  unfold Stencils.get, bind at 1, get_self at 1. rewrite Hk.
  rewrite bool_decide_eq_true_2.
  2:{ apply lookup_lt_Some in Hn. lia. }
  rewrite Nat2Z.id, Hn, Hs. apply com_answer; [done|].
  unfold invoke, App.on_document. by rewrite Hd, Hf.
Qed.

(** X3.  Loading one more library keeps every earlier definition
    resolvable: a master that [get X i] returned before the load is what
    [get] returns after it at index [i + 1] when the new library defines
    [X], and at index [i] when it does not. *)
Theorem load_shifts_earlier_definitions filename lib self w X i m w1 :
  calm w →
  Stencils.key_of filename ∉ dom (__stencils self) →
  disk (app w) !! filename = Some lib →
  NoDup (master_names lib) →
  Documents (app w) !! fresh (app w) = None →
  Stencils.get X (Z.of_nat i) self w = (Ok m, self, w1) →
  ∃ self' w' w2,
    Stencils.add_stencil filename self w = (Ok tt, self', w')
    ∧ Stencils.get X (Z.of_nat (if bool_decide (X ∈ master_names lib) then S i else i))
        self' w'
      = (Ok m, self', w2).
Proof.
  intros Hc Hkey Hdisk Hnd Hfresh Hget.
  apply get_Ok_inv in Hget
    as (keys & key & d & j & ms & doc & Hk & Hrange & Hn & Hs & Hd & Hf & -> & _ & _).
  rewrite Nat2Z.id in Hn.
  destruct (add_stencil_loads filename lib self w Hc Hkey Hdisk)
    as (w' & Hadd & Hc' & _ & Hdocs & _ & _).
  eexists _, w', _. split; [exact Hadd|].
  assert (key ≠ Stencils.key_of filename) as Hne.
  { intros ->. apply Hkey, elem_of_dom. by eexists. }
  assert (d ≠ fresh (app w)) as Hnd'.
  { intros ->. by rewrite Hfresh in Hd. }
  case_bool_decide as HX.
  - eapply (get_resolves X (Stencils.key_of filename :: keys) (S i) key d doc j ms);
      [done| |exact Hn| | |done].
    + simpl. by rewrite register_lookup_in, Hk.
    + simpl. by rewrite lookup_insert_ne.
    + rewrite Hdocs. by rewrite lookup_insert_ne.
  - eapply (get_resolves X keys i key d doc j ms); [done| |exact Hn| | |done].
    + simpl. by rewrite register_lookup_notin.
    + simpl. by rewrite lookup_insert_ne.
    + rewrite Hdocs. by rewrite lookup_insert_ne.
Qed.

Lemma register_dom key names (shapes : gmap string (list string)) :
  dom (register key names shapes) = dom shapes ∪ list_to_set names.
Proof.
  unfold register. revert shapes.
  induction names as [|n names IH]; intros shapes; simpl.
  { by rewrite union_empty_r_L. }
  rewrite IH, dom_insert_L. apply leibniz_equiv, set_equiv. intros x.
  rewrite !elem_of_union. tauto.
Qed.

(** X4.  After a load, iterating over the object yields every name that
    was registered before and every master name of the new library, each
    exactly once. *)
Theorem iteration_after_load filename lib self w :
  calm w →
  Stencils.key_of filename ∉ dom (__stencils self) →
  disk (app w) !! filename = Some lib →
  ∃ self' w' names,
    Stencils.add_stencil filename self w = (Ok tt, self', w')
    ∧ Stencils.__iter__ self' w' = (Ok names, self', w')
    ∧ NoDup names
    ∧ ∀ N, N ∈ names ↔ N ∈ dom (__shapes self) ∨ N ∈ master_names lib.
Proof.
  intros Hc Hkey Hdisk.
  destruct (add_stencil_loads filename lib self w Hc Hkey Hdisk)
    as (w' & Hadd & _).
  eexists _, w', _. split; [exact Hadd|]. split; [reflexivity|]. simpl. split.
  - apply NoDup_fst_map_to_list.
  - intros N. rewrite <- (elem_of_list_to_set (C := gset string) N (master_names lib)).
    rewrite <- elem_of_union, <- (register_dom (Stencils.key_of filename)), elem_of_dom.
    rewrite list_elem_of_fmap. split.
    + intros ([n keys] & -> & Hin). apply elem_of_map_to_list in Hin. by eexists.
    + intros [keys Hk]. exists (N, keys). split; [done|]. by apply elem_of_map_to_list.
Qed.

Lemma on_master_of {A} v m ms (k : Master → App.Answer A) :
  master_of v m = Some ms → App.on_master m v k = k ms.
Proof.
  destruct m as [d i]. unfold master_of, App.on_master, App.on_document.
  destruct (Documents v !! d) as [doc|]; [|done]. simpl. by intros ->.
Qed.

Lemma get_again shape index self w m w1 w2 :
  calm w2 → app w2 = app w →
  Stencils.get shape index self w = (Ok m, self, w1) →
  ∃ w3, Stencils.get shape index self w2 = (Ok m, self, w3)
        ∧ calm w3 ∧ app w3 = app w ∧ log w3 = log w2.
Proof.
  intros Hc Happ Hget.
  apply get_Ok_inv in Hget
    as (keys & key & d & j & ms & doc & Hk & Hrange & Hn & Hs & Hd & Hf & -> & _ & _).
  eexists. split.
  - rewrite <- (Z2Nat.id index) by lia.
    eapply get_resolves; try done. by rewrite Happ.
  - split; [by apply calm_record|]. split; [|done]. simpl. exact Happ.
Qed.

(** X5.  For a master that is not of the master object type, or that does
    not hold exactly one shape, [get_info] returns the placeholder
    dictionary (type unknown, sizes zero) and writes one warning: it does
    not raise. *)
Theorem get_info_placeholder shape index self w m w1 ms :
  calm w →
  Stencils.get shape index self w = (Ok m, self, w1) →
  master_of (app w) m = Some ms →
  ms_ObjectType ms ≠ vC.visObjTypeMaster ∨ length (ms_Shapes ms) ≠ 1%nat →
  ∃ w',
    Stencils.get_info shape index self w = (Ok placeholder_info, self, w')
    ∧ log w' = log w ++ [log_warning "Object type is not 'master', results unpredictable" []].
Proof.
  intros Hc Hget Hm Hnot.
  pose proof Hget as Hinv.
  apply get_Ok_inv in Hinv as (_ & _ & d & _ & _ & _ & _ & _ & _ & _ & _ & _ & _ & _ & ->).
  assert (Hc1 : calm (record (Masters_ItemU (DocumentObj d) shape) None (app w) w))
    by by apply calm_record.
  set (w1 := record _ _ _ _) in *.
  assert (Hty : invoke (Master_ObjectType m) (app w1) = inr (ms_ObjectType ms, app w1)).
  { unfold invoke. by rewrite (on_master_of _ _ _ _ Hm). }
  unfold Stencils.get_info. rewrite (bind_Ok _ _ _ _ _ _ _ Hget).
  rewrite (bind_Ok _ _ _ _ _ _ _ (com_answer _ self w1 _ _ Hc1 Hty)).
  set (w2 := record (Master_ObjectType m) None (app w1) w1).
  case_bool_decide as Hmaster.
  - assert (Hn : invoke (Master_Shapes_Count m) (app w2)
                 = inr (Z.of_nat (length (ms_Shapes ms)), app w2)).
    { unfold invoke. by rewrite (on_master_of _ _ _ _ Hm). }
    erewrite bind_Ok; cycle 1.
    { erewrite bind_Ok; [reflexivity|]. apply com_answer; [by apply calm_record|exact Hn]. }
    rewrite bool_decide_eq_false_2.
    2:{ destruct Hnot; [done|lia]. }
    eexists. split; [reflexivity|]. reflexivity.
  - erewrite bind_Ok; [|reflexivity].
    eexists. split; [reflexivity|]. reflexivity.
Qed.

Lemma invoke_master_cell v d i ms s name x :
  master_of v (MasterObj d i) = Some ms → ms_Shapes ms = [s] →
  sh_cells s !! name = Some x →
  invoke (Shape_Cells (MasterShapeObj d i 0) name) v
  = inr (CellObj (MasterShapeObj d i 0) name, v)
  ∧ invoke (Cell_ResultIU (CellObj (MasterShapeObj d i 0) name)) v
    = inr (ResultIU_of (engine v) x, v).
Proof.
  unfold master_of. intros Hm Hs Hx.
  assert (App.sheet_of v (MasterShapeObj d i 0) = Some s) as Hsheet.
  { unfold App.sheet_of. destruct (Documents v !! d) as [doc|]; [|done]. simpl in *.
    rewrite Hm. simpl. by rewrite Hs. }
  unfold invoke, App.cell_of, App.on_cell, App.on_sheet. by rewrite Hsheet, Hx.
Qed.

(** X6.  For a master of the master object type that holds exactly one
    shape, with width and height cells, [get_info] returns the object
    type, the count 1, the values of the two cells in internal units, and
    as size the extent of the master's upright bounding box; nothing is
    logged. *)
Theorem get_info_measures_the_shape shape index self w m w1 ms s fw fh :
  calm w →
  Stencils.get shape index self w = (Ok m, self, w1) →
  master_of (app w) m = Some ms →
  ms_ObjectType ms = vC.visObjTypeMaster →
  ms_Shapes ms = [s] →
  sh_cells s !! "Width" = Some fw →
  sh_cells s !! "Height" = Some fh →
  ∃ w',
    Stencils.get_info shape index self w
    = (Ok {| objectType := vC.visObjTypeMaster; shapesCount := 1;
             width := ResultIU_of (engine (app w)) fw;
             height := ResultIU_of (engine (app w)) fh;
             size := box_size (BoundingBox_of (engine (app w)) s) |}, self, w')
    ∧ log w' = log w.
Proof.
  intros Hc Hget Hm Hty Hs Hw Hh.
  pose proof Hget as Hinv.
  apply get_Ok_inv in Hinv
    as (_ & _ & d & i & _ & _ & _ & _ & _ & _ & _ & _ & -> & _ & ->).
  destruct (invoke_master_cell _ _ _ _ _ _ _ Hm Hs Hw) as [HcW HrW].
  destruct (invoke_master_cell _ _ _ _ _ _ _ Hm Hs Hh) as [HcH HrH].
  assert (HT : ∀ v, v = app w →
            invoke (Master_ObjectType (MasterObj d i)) v = inr (vC.visObjTypeMaster, v)).
  { intros v ->. unfold invoke. by rewrite (on_master_of _ _ _ _ Hm), Hty. }
  assert (HN : ∀ v, v = app w →
            invoke (Master_Shapes_Count (MasterObj d i)) v = inr (1, v)).
  { intros v ->. unfold invoke. by rewrite (on_master_of _ _ _ _ Hm), Hs. }
  assert (HI : ∀ v, v = app w →
            invoke (Master_Shapes_Item (MasterObj d i) 1) v
            = inr (MasterShapeObj d i 0, v)).
  { intros v ->. unfold invoke. by rewrite (on_master_of _ _ _ _ Hm), Hs. }
  assert (HB : ∀ v, v = app w →
            invoke (Master_BoundingBox (MasterObj d i) vC.visBBoxUprightWH) v
            = inr (BoundingBox_of (engine (app w)) s, v)).
  { intros v ->. unfold invoke. rewrite (on_master_of _ _ _ _ Hm).
    unfold App.first_sheet. by rewrite Hs. }
  unfold Stencils.get_info. rewrite (bind_Ok _ _ _ _ _ _ _ Hget).
  set (w1 := record _ _ _ _) in *.
  assert (Hc1 : calm w1) by by apply calm_record.
  rewrite (bind_Ok _ _ _ _ _ _ _ (com_answer _ self w1 _ _ Hc1 (HT _ eq_refl))).
  rewrite bool_decide_eq_true_2 by done.
  set (w2 := record (Master_ObjectType (MasterObj d i)) None (app w1) w1).
  assert (Hc2 : calm w2) by by apply calm_record.
  erewrite bind_Ok; cycle 1.
  { erewrite bind_Ok; [reflexivity|]. apply (com_answer _ self w2 _ _ Hc2 (HN _ eq_refl)). }
  rewrite bool_decide_eq_true_2 by done.
  set (w3 := record (Master_Shapes_Count (MasterObj d i)) None (app w2) w2).
  assert (Hc3 : calm w3) by by apply calm_record.
  rewrite (bind_Ok _ _ _ _ _ _ _ (com_answer _ self w3 _ _ Hc3 (HT _ eq_refl))).
  set (w4 := record (Master_ObjectType (MasterObj d i)) None (app w3) w3).
  assert (Hc4 : calm w4) by by apply calm_record.
  rewrite (bind_Ok _ _ _ _ _ _ _ (com_answer _ self w4 _ _ Hc4 (HN _ eq_refl))).
  set (w5 := record (Master_Shapes_Count (MasterObj d i)) None (app w4) w4).
  assert (Hc5 : calm w5) by by apply calm_record.
  rewrite (bind_Ok _ _ _ _ _ _ _ (com_answer _ self w5 _ _ Hc5 (HI _ eq_refl))).
  set (w6 := record (Master_Shapes_Item (MasterObj d i) 1) None (app w5) w5).
  assert (Hc6 : calm w6) by by apply calm_record.
  rewrite (bind_Ok _ _ _ _ _ _ _ (com_answer _ self w6 _ _ Hc6 HcW)).
  set (w7 := record (Shape_Cells (MasterShapeObj d i 0) "Width") None (app w6) w6).
  assert (Hc7 : calm w7) by by apply calm_record.
  rewrite (bind_Ok _ _ _ _ _ _ _ (com_answer _ self w7 _ _ Hc7 HrW)).
  set (w8 := record (Cell_ResultIU (CellObj (MasterShapeObj d i 0) "Width")) None (app w7) w7).
  assert (Hc8 : calm w8) by by apply calm_record.
  rewrite (bind_Ok _ _ _ _ _ _ _ (com_answer _ self w8 _ _ Hc8 (HI _ eq_refl))).
  set (w9 := record (Master_Shapes_Item (MasterObj d i) 1) None (app w8) w8).
  assert (Hc9 : calm w9) by by apply calm_record.
  rewrite (bind_Ok _ _ _ _ _ _ _ (com_answer _ self w9 _ _ Hc9 HcH)).
  set (w10 := record (Shape_Cells (MasterShapeObj d i 0) "Height") None (app w9) w9).
  assert (Hc10 : calm w10) by by apply calm_record.
  rewrite (bind_Ok _ _ _ _ _ _ _ (com_answer _ self w10 _ _ Hc10 HrH)).
  set (w11 := record (Cell_ResultIU (CellObj (MasterShapeObj d i 0) "Height")) None (app w10) w10).
  assert (Hc11 : calm w11) by by apply calm_record.
  destruct (get_again shape index self w (MasterObj d i) w1 w11 Hc11 eq_refl Hget)
    as (w12 & Hget2 & Hc12 & Ha12 & Hl12).
  rewrite (bind_Ok _ _ _ _ _ _ _ Hget2).
  rewrite (bind_Ok _ _ _ _ _ _ _ (com_answer _ self w12 _ _ Hc12 (HB _ Ha12))).
  destruct (BoundingBox_of (engine (app w)) s) as [[[x0 x1] x2] x3] eqn:Hbox.
  eexists. split; [reflexivity|]. simpl. exact Hl12.
Qed.

(** X7.  [export] switches the transparency colour of raster exports off
    in the application before it resolves the shape: for a name that is
    not registered it raises [KeyError], after the log record, and the
    setting stays changed. *)
Theorem export_of_unknown_shape filename shape index self w :
  calm w →
  __shapes self !! shape = None →
  ∃ w',
    Stencils.export filename shape index self w
    = (Raise (KeyError (AStr shape)), self, w')
    ∧ RasterExportUseTransparencyColor (app w') = -1
    ∧ log w' = log w ++ [log_error "Non existing shape: %s" [AStr shape]].
Proof.
  intros Hc Hk. unfold Stencils.export.
  rewrite (bind_Ok _ _ _ _ _ _ _
             (com_answer (Settings_RasterExportUseTransparencyColor_put (-1)) self w tt
                (set_Raster (-1) (app w)) Hc eq_refl)).
  eexists. split.
  - apply bind_Raise. apply get_unregistered. exact Hk.
  - split; reflexivity.
Qed.

End more_stencils.

(** * documents.py: pages and properties *)

Lemma page_names_all d doc (l : list nat) self w :
  calm w → Documents (app w) !! d = Some doc →
  Forall (λ i, is_Some (dc_Pages doc !! i)) l →
  ∃ w', Documents.page_names (PageObj d <$> l) self w
        = (Ok (omap (λ i, pg_NameU <$> dc_Pages doc !! i) l), self, w')
        ∧ calm w' ∧ app w' = app w ∧ log w' = log w.
Proof.
  intros Hc Hd Hall. revert w Hc Hd.
  induction Hall as [|i l [pg Hi] Hall IH]; intros w Hc Hd.
  { exists w. by repeat split. }
  cbn [fmap list_fmap Documents.page_names].
  rewrite (bind_Ok _ _ _ _ _ _ _
             (com_answer _ self w _ _ Hc (invoke_Page_NameU _ _ _ _ _ Hd Hi))).
  destruct (IH (record (Page_NameU (PageObj d i)) None (app w) w)) as (w' & Hrun & Hc' & Ha & Hl);
    [by apply calm_record|done|].
  exists w'. split; [|by repeat split].
  rewrite (bind_Ok _ _ _ _ _ _ _ Hrun). cbn [omap list_omap]. by rewrite Hi.
Qed.

Lemma consume_until_decides name d doc (l : list nat) self w :
  calm w → Documents (app w) !! d = Some doc →
  Forall (λ i, is_Some (dc_Pages doc !! i)) l →
  ∃ w', Documents.consume_until name (PageObj d <$> l) self w
        = (Ok (bool_decide (name ∈ omap (λ i, pg_NameU <$> dc_Pages doc !! i) l)), self, w')
        ∧ log w' = log w.
Proof.
  intros Hc Hd Hall. revert w Hc Hd.
  induction Hall as [|i l [pg Hi] Hall IH]; intros w Hc Hd.
  { exists w. split; [|done]. cbn. by rewrite bool_decide_eq_false_2 by apply not_elem_of_nil. }
  cbn [fmap list_fmap Documents.consume_until omap list_omap].
  rewrite (bind_Ok _ _ _ _ _ _ _
             (com_answer _ self w _ _ Hc (invoke_Page_NameU _ _ _ _ _ Hd Hi))).
  rewrite Hi. cbn [fmap option_fmap option_map].
  destruct (decide (pg_NameU pg = name)) as [Hname|Hname].
  - rewrite (bool_decide_eq_true_2 (pg_NameU pg = name)) by done.
    eexists. split.
    + rewrite bool_decide_eq_true_2; [reflexivity|]. apply elem_of_cons. by left.
    + reflexivity.
  - rewrite (bool_decide_eq_false_2 (pg_NameU pg = name)) by done.
    destruct (IH (record (Page_NameU (PageObj d i)) None (app w) w)) as (w' & Hrun & Hl);
      [by apply calm_record|done|].
    exists w'. split; [|done]. rewrite Hrun. do 3 f_equal.
    apply bool_decide_ext. rewrite elem_of_cons.
    split; [tauto|]. intros [Heq|Hin]; [by destruct Hname|done].
Qed.

(** X8.  On an open document, iterating yields the universal names of the
    pages in their order, [len] is the number of names iterated, and the
    membership test answers whether the name is among them. *)
Theorem pages_iteration_len_membership d doc self w name :
  calm w →
  _pages self = PagesObj d →
  Documents (app w) !! d = Some doc →
  let names := pg_NameU <$> dc_Pages doc in
  (∃ w', Documents.__iter__ self w = (Ok names, self, w'))
  ∧ (∃ w', Documents.__len__ self w = (Ok (Z.of_nat (length names)), self, w'))
  ∧ (∃ w', Documents.__contains__ name self w
           = (Ok (bool_decide (name ∈ names)), self, w')).
Proof.
  intros Hc Hp Hd names.
  assert (Henum : invoke (Pages_enum (PagesObj d)) (app w)
                  = inr (PageObj d <$> seq 0 (length (dc_Pages doc)), app w)).
  { unfold invoke, App.on_document. by rewrite Hd. }
  assert (Hall : Forall (λ i, is_Some (dc_Pages doc !! i)) (seq 0 (length (dc_Pages doc)))).
  { apply Forall_forall. intros i Hi. apply elem_of_seq in Hi.
    apply lookup_lt_is_Some. lia. }
  pose proof (omap_lookup_seq pg_NameU [] (dc_Pages doc)) as Ho. simpl in Ho.
  set (w1 := record (Pages_enum (PagesObj d)) None (app w) w).
  assert (Hc1 : calm w1) by by apply calm_record.
  repeat split.
  - destruct (page_names_all d doc _ self w1 Hc1 Hd Hall) as (w' & Hrun & _).
    exists w'. unfold Documents.__iter__, bind at 1, get_self at 1. rewrite Hp.
    rewrite (bind_Ok _ _ _ _ _ _ _ (com_answer _ self w _ _ Hc Henum)).
    fold w1. by rewrite Hrun, Ho.
  - eexists. unfold Documents.__len__, bind, get_self. rewrite Hp.
    apply com_answer; [done|]. unfold invoke, App.on_document. rewrite Hd.
    unfold names. by rewrite length_fmap.
  - destruct (consume_until_decides name d doc _ self w1 Hc1 Hd Hall) as (w' & Hrun & _).
    exists w'. unfold Documents.__contains__, bind at 1, get_self at 1. rewrite Hp.
    rewrite (bind_Ok _ _ _ _ _ _ _ (com_answer _ self w _ _ Hc Henum)).
    fold w1. by rewrite Hrun, Ho.
Qed.

Lemma com_app_inv {Self A} (c : ComCall A) (self : Self) w r self' w' :
  com c self w = (r, self', w') →
  self' = self ∧ log w' = log w
  ∧ ((∃ a v, r = Ok a ∧ invoke c (app w) = inr (a, v) ∧ app w' = v)
     ∨ (∃ hr, r = Raise (com_error hr) ∧ app w' = app w)).
Proof.
  unfold com. destruct (faults w _) as [hr|].
  { intros [= <- <- <-]. repeat split. right. by eexists. }
  destruct (invoke c (app w)) as [hr|[a v]]; intros [= <- <- <-]; repeat split.
  - right. by eexists.
  - left. by exists a, v.
Qed.

(** X9.  [add] names the page after it has added it: when the call that
    sets the name fails, [add] raises the error of that call, the log is
    as it was, and the document has one page more than before. *)
Theorem add_keeps_the_page_when_naming_fails d doc name self w hr :
  _pages self = PagesObj d →
  Documents (app w) !! d = Some doc →
  faults w (length (trace w)) = None →
  faults w (S (length (trace w))) = None →
  faults w (S (S (length (trace w)))) = Some hr →
  ∃ w' doc',
    Documents.add (Some name) self w = (Raise (com_error hr), self, w')
    ∧ Documents (app w') !! d = Some doc'
    ∧ length (dc_Pages doc') = S (length (dc_Pages doc))
    ∧ log w' = log w.
Proof.
  intros Hp Hd Hf0 Hf1 Hf2.
  set (n := length (dc_Pages doc)).
  set (pg0 := {| pg_NameU := "Page-" +:+ pretty (S n); pg_AutoSize := false |}).
  set (pg1 := {| pg_NameU := pg_NameU pg0; pg_AutoSize := true |}).
  set (doc0 := App.set_Pages (λ ps, ps ++ [pg0]) doc).
  set (doc1 := App.set_Pages <[n := pg1]> doc0).
  set (v0 := set_ActivePage (Some (d, n)) (set_Documents <[d := doc0]> (app w))).
  set (v1 := set_Documents <[d := doc1]> v0).
  assert (H0 : invoke (Pages_Add (PagesObj d)) (app w) = inr (PageObj d n, v0)).
  { unfold invoke, App.on_document. by rewrite Hd. }
  assert (Hl0 : dc_Pages doc0 !! n = Some pg0).
  { simpl. rewrite lookup_app_r by done. by rewrite Nat.sub_diag. }
  assert (H1 : invoke (Page_AutoSize_put (PageObj d n) true) v0 = inr (tt, v1)).
  { unfold invoke, App.on_page, App.on_document. simpl.
    rewrite lookup_insert_eq. by rewrite Hl0. }
  set (w0 := record (Pages_Add (PagesObj d)) None v0 w).
  set (w1 := record (Page_AutoSize_put (PageObj d n) true) None v1 w0).
  assert (Hf1' : faults w0 (length (trace w0)) = None).
  { simpl. rewrite length_app. simpl. by rewrite Nat.add_1_r. }
  assert (Hf2' : faults w1 (length (trace w1)) = Some hr).
  { simpl. rewrite !length_app. simpl. by rewrite !Nat.add_1_r. }
  exists (record (Page_NameU_put (PageObj d n) name) (Some hr) v1 w1), doc1.
  split; [|split; [|split]].
  - unfold Documents.add. unfold bind at 1, get_self at 1. rewrite Hp.
    erewrite bind_Ok; cycle 1.
    { unfold try_com. by rewrite (com_answer_at _ self w _ _ Hf0 H0). }
    fold w0. rewrite (bind_Ok _ _ _ _ _ _ _ (com_answer_at _ self w0 _ _ Hf1' H1)).
    fold w1. cbv beta. apply bind_Raise. apply (com_faulted _ self w1 hr Hf2').
  - simpl. apply lookup_insert_eq.
  - unfold doc1, App.set_Pages at 1. cbn [dc_Pages]. rewrite length_insert.
    simpl. rewrite length_app. simpl. lia.
  - reflexivity.
Qed.

(** X10.  [close] without [nosave] leaves the alert response of the
    application as it was, however the call ends: whether reading the
    setting, closing the document or writing the setting back fails, or
    none does. *)
Theorem close_keeps_alert_response_without_nosave self w :
  AlertResponse (app (Documents.close false self w).2)
  = AlertResponse (app w).
Proof.
  destruct (Documents.close false self w) as [[r self'] w'] eqn:Hrun. simpl.
  unfold Documents.close in Hrun. unfold bind at 1, get_self at 1 in Hrun.
  apply bind_inv in Hrun as [(a0 & s1 & w1 & H1 & Hrun)|(e & H1 & _)].
  2:{ apply com_app_inv in H1 as (_ & _ & [(? & ? & [=] & _)|(hr & _ & ->)]). done. }
  apply com_app_inv in H1 as (-> & _ & [(a & v & [= <-] & Hi & Ha1)|(hr & [=] & _)]).
  injection Hi as <- <-.
  apply bind_inv in Hrun as [(u & s2 & w2 & H2 & Hrun)|(e & [=] & _)].
  injection H2 as _ <- <-.
  assert (Hclose : ∀ rc sc wc,
            try_com (com (Document_Close (_document self)))
              (λ reason,
                 logger.error "Failed to print document" [] ;;;
                 logger.error "COM Exception: %s" [AReason reason] ;;;
                 raise (com_error reason)) self w1 = (rc, sc, wc) →
            sc = self ∧ AlertResponse (app wc) = AlertResponse (app w)).
  { intros rc sc wc. unfold try_com.
    destruct (com _ self w1) as [[r0 s0] w0] eqn:Hc.
    apply com_app_inv in Hc as (-> & _ & [(a & v & -> & Hi & Ha)|(hr & -> & Ha)]).
    - intros [= <- <- <-]. split; [done|]. rewrite Ha.
      destruct (_document self) as [dd]. unfold invoke, App.on_document in Hi.
      destruct (Documents (app w1) !! dd); [|done]. injection Hi as _ Hv. rewrite <- Hv. simpl.
      by rewrite Ha1.
    - intros [= <- <- <-]. split; [done|]. simpl. by rewrite Ha, Ha1. }
  apply bind_inv in Hrun as [(u' & s3 & w3 & H3 & Hrun)|(e & H3 & _)].
  - apply Hclose in H3 as [-> Ha3].
    apply com_app_inv in Hrun as (_ & _ & [(a & v & _ & Hi & Ha)|(hr & _ & Ha)]).
    + injection Hi as _ <-. by rewrite Ha.
    + by rewrite Ha.
  - by apply Hclose in H3 as [_ Ha3].
Qed.

Lemma fetch_Raise_inv {Self} d item (self : Self) w e s1 w1 :
  IVDocument_getattr d item self w = (Raise e, s1, w1) →
  s1 = self ∧ log w1 = log w ∧ app w1 = app w.
Proof.
  unfold IVDocument_getattr. case_bool_decide.
  - intros Hc. apply com_app_inv in Hc as (-> & Hl & [(? & ? & [=] & _)|(hr & _ & Ha)]).
    done.
  - by intros [= <- <- <-].
Qed.

(** X11.  A document property whose fetch raises, for whatever reason (the
    name is no property of a document, the call fails, the document is
    gone), is reported as missing: [__getattr__] and [setProperty] both
    log "Property does not exist", raise [AttributeError] of the name, not
    the error of the fetch, and leave the application as it was. *)
Theorem failed_fetch_is_reported_as_missing item value self w e s1 w1 :
  IVDocument_getattr (_document self) item self w = (Raise e, s1, w1) →
  let w' := emit (log_error "Property does not exist: %s" [AStr item]) w1 in
  Documents.__getattr__ item self w = (Raise (AttributeError (AStr item)), self, w')
  ∧ Documents.setProperty item value self w
    = (Raise (AttributeError (AStr item)), self, w')
  ∧ app w' = app w
  ∧ log w' = log w ++ [log_error "Property does not exist: %s" [AStr item]].
Proof.
  intros Hf w'. destruct (fetch_Raise_inv _ _ _ _ _ _ _ Hf) as (-> & Hl & Ha).
  repeat split.
  - unfold Documents.__getattr__, bind at 1, get_self at 1.
    unfold bind at 1, hasattr. by rewrite Hf.
  - unfold Documents.setProperty, bind at 1, get_self at 1.
    unfold bind at 1, hasattr. by rewrite Hf.
  - done.
  - simpl. by rewrite Hl.
Qed.

(** X12.  A property of an open document that [setProperty] has set is what
    [__getattr__] returns next.  [setProperty] first fetches the property
    (the probe of [hasattr]) and then writes it: two calls; [__getattr__]
    fetches it twice. *)
Theorem setProperty_then_getattr d doc name value self w :
  calm w →
  _document self = DocumentObj d →
  Documents (app w) !! d = Some doc →
  name ∈ IVDocument_properties →
  ∃ w1 w2,
    Documents.setProperty name value self w = (Ok tt, self, w1)
    ∧ Documents.__getattr__ name self w1 = (Ok value, self, w2)
    ∧ length (trace w1) = (2 + length (trace w))%nat
    ∧ length (trace w2) = (2 + length (trace w1))%nat
    ∧ log w2 = log w.
Proof.
  intros Hc Hd Hdoc Hname.
  set (old := default VEmpty (dc_props doc !! name)).
  set (doc' := App.set_props <[name := value]> doc).
  set (v1 := set_Documents <[d := doc']> (app w)).
  set (wa := record (Document_get (DocumentObj d) name) None (app w) w).
  set (w1 := record (Document_put (DocumentObj d) name value) None v1 wa).
  set (wb := record (Document_get (DocumentObj d) name) None v1 w1).
  set (w2 := record (Document_get (DocumentObj d) name) None v1 wb).
  assert (Hg : @invoke Variant (Document_get (DocumentObj d) name) (app w)
               = inr (old, app w)).
  { unfold invoke, App.on_document. by rewrite Hdoc. }
  assert (Hp : invoke (Document_put (DocumentObj d) name value) (app w)
               = inr (tt, v1)).
  { unfold invoke, App.on_document. by rewrite Hdoc. }
  assert (Hg' : @invoke Variant (Document_get (DocumentObj d) name) v1
                = inr (value, v1)).
  { unfold invoke, App.on_document. simpl. rewrite lookup_insert_eq. simpl.
    by rewrite lookup_insert_eq. }
  exists w1, w2. split; [|split; [|split; [|split]]].
  - unfold Documents.setProperty, bind at 1, get_self at 1. rewrite Hd.
    unfold bind at 1, hasattr, IVDocument_getattr, IVDocument_setattr.
    rewrite (bool_decide_eq_true_2 _ Hname).
    rewrite (com_answer _ self w _ _ Hc Hg). fold wa.
    by rewrite (com_answer _ self wa _ _ (calm_record _ _ _ _ Hc) Hp).
  - unfold Documents.__getattr__, bind at 1, get_self at 1. rewrite Hd.
    unfold bind at 1, hasattr, IVDocument_getattr.
    rewrite (bool_decide_eq_true_2 _ Hname).
    assert (Hc1 : calm w1) by (unfold w1, wa; auto).
    rewrite (com_answer _ self w1 _ _ Hc1 Hg'). fold wb.
    by rewrite (com_answer _ self wb _ _ (calm_record _ _ _ _ Hc1) Hg').
  - simpl. rewrite !length_app. simpl. lia.
  - simpl. rewrite !length_app. simpl. lia.
  - reflexivity.
Qed.

(** * shapes.py: the handle, cells, colours, text *)

(** X13.  The handle of a [VisShape] changes only when [delete] returns:
    whatever getter, setter or method is run, in whatever world, the
    object is afterwards what it was, unless the call was a [delete] whose
    [DeleteEx] call succeeded, which has cleared the handle.  A [delete]
    that raises keeps the handle. *)
Theorem handle_changes_only_when_delete_returns
    {A} (m : Py VisShape A) self w r self' w' :
  VisShape_method m →
  m self w = (r, self', w') →
  self' = self
  ∨ (_shape self' = None
     ∧ (∃ a, r = Ok a)
     ∧ ∃ sh flags,
         _shape self = Some sh
         ∧ last (trace w')
           = Some {| ev_call := existT _ (Shape_DeleteEx sh flags);
                     ev_error := None |}).
Proof.
  intros Hm Hrun.
  assert (Hkeep : ∀ B (n : Py VisShape B), respects same_object n →
            ∀ r self' w', n self w = (r, self', w') → self' = self).
  { intros B n Hn r0 s0 w0 H0. by apply Hn in H0. }
  destruct Hm;
    try (left; eapply Hkeep; [|exact Hrun];
         unfold Shapes.x, Shapes.set_x, Shapes.y, Shapes.set_y, Shapes.coords,
           Shapes.moveto, Shapes.w, Shapes.set_w, Shapes.h, Shapes.set_h,
           Shapes.text, Shapes.set_text, Shapes.linecolor, Shapes.setlinecolor,
           Shapes.set_linecolor, Shapes.fillcolor, Shapes.setfillcolor,
           Shapes.set_fillcolor, Shapes.oneD, Shapes.cell, Shapes.setcell,
           Shapes.shape_attr;
         keeps_object; fail).
  unfold Shapes.delete in Hrun.
  apply bind_inv in Hrun as [(sh & s1 & w1 & Hsh & Hrun)|(e & Hsh & _)].
  2:{ left. unfold Shapes.shape_attr, bind, get_self in Hsh.
      destruct (_shape self); by injection Hsh as _ <- _. }
  assert (_shape self = Some sh ∧ s1 = self ∧ w1 = w) as (Hself & -> & ->).
  { unfold Shapes.shape_attr, bind, get_self in Hsh.
    destruct (_shape self); [|done]. by injection Hsh as <- <- <-. }
  apply bind_inv in Hrun as [(u & s2 & w2 & Hdel & Hput)|(e & Hdel & _)].
  - right. injection Hput as <- <- <-.
    apply com_Ok_inv in Hdel as (v & _ & _ & ->).
    split; [done|]. split; [by exists tt|]. exists sh, flags. split; [done|].
    simpl. by rewrite last_snoc.
  - left. by apply com_inv in Hdel as [-> _].
Qed.

Lemma invoke_Shape_CellExistsU v id s name flag :
  Shapes v !! id = Some s →
  invoke (Shape_CellExistsU (ShapeObj id) name flag) v
  = inr (bool_decide (is_Some (sh_cells s !! name)), v).
Proof.
  intros Hs. unfold invoke, App.on_sheet, App.sheet_of. by rewrite Hs.
Qed.

Lemma invoke_Cell_FormulaU v id s name x :
  Shapes v !! id = Some s → sh_cells s !! name = Some x →
  invoke (Cell_FormulaU (CellObj (ShapeObj id) name)) v
  = inr (FormulaU_of (engine v) x, v).
Proof.
  intros Hs Hx. unfold invoke, App.on_cell, App.on_sheet, App.sheet_of.
  by rewrite Hs, Hx.
Qed.

(** Writing a formula to a cell the shape has: two calls, [CellsU] and the
    assignment. *)
Lemma write_cell {Self} id s name x (self : Self) w :
  calm w → Shapes (app w) !! id = Some s → is_Some (sh_cells s !! name) →
  (let* c := com (Shape_CellsU (ShapeObj id) name) in
   com (Cell_FormulaU_put c x)) self w
  = (Ok tt, self,
     record (Cell_FormulaU_put (CellObj (ShapeObj id) name) x) None
       (set_Shapes <[id := App.set_cells <[name := x]> s]> (app w))
       (record (Shape_CellsU (ShapeObj id) name) None (app w) w)).
Proof.
  intros Hc Hs Hx.
  rewrite (bind_Ok _ _ _ _ _ _ _
             (com_answer _ self w _ _ Hc (invoke_Shape_CellsU _ _ _ _ Hs Hx))).
  apply com_answer; [auto|]. exact (invoke_Cell_FormulaU_put _ id s name x Hs Hx).
Qed.

(** Reading the formula of a cell the shape has: [CellsU] and the fetch. *)
Lemma read_cell {Self} id s name x (self : Self) w :
  calm w → Shapes (app w) !! id = Some s → sh_cells s !! name = Some x →
  (let* c := com (Shape_CellsU (ShapeObj id) name) in
   com (Cell_FormulaU c)) self w
  = (Ok (FormulaU_of (engine (app w)) x), self,
     record (Cell_FormulaU (CellObj (ShapeObj id) name)) None (app w)
       (record (Shape_CellsU (ShapeObj id) name) None (app w) w)).
Proof.
  intros Hc Hs Hx.
  rewrite (bind_Ok _ _ _ _ _ _ _
             (com_answer _ self w _ _ Hc
                (invoke_Shape_CellsU _ _ _ _ Hs (mk_is_Some _ _ Hx)))).
  apply com_answer; [auto|]. exact (invoke_Cell_FormulaU _ id s name x Hs Hx).
Qed.


(** X15.  On a cell the shape does not have, [cell] and [setcell] raise a
    bare [AttributeError] after the one call that asks whether the cell
    exists: nothing is read and nothing is written. *)
Theorem missing_cell_is_an_AttributeError id s cellid cellvalue preformated w :
  calm w →
  Shapes (app w) !! id = Some s →
  sh_cells s !! cellid = None →
  let self := {| _shape := Some (ShapeObj id) |} in
  let w' := record (Shape_CellExistsU (ShapeObj id) cellid 0) None (app w) w in
  Shapes.cell cellid self w = (Raise (AttributeError ANone), self, w')
  ∧ Shapes.setcell cellid cellvalue preformated self w
    = (Raise (AttributeError ANone), self, w').
Proof.
  intros Hc Hs Hx. cbv zeta.
  assert (Hno : bool_decide (is_Some (sh_cells s !! cellid)) = false).
  { apply bool_decide_eq_false_2. rewrite Hx. by intros [? [=]]. }
  split.
  - unfold Shapes.cell.
    rewrite (bind_Ok _ _ _ _ _ _ _ (shape_attr_Some _ _ _)).
    rewrite (bind_Ok _ _ _ _ _ _ _
               (com_answer _ _ w _ _ Hc (invoke_Shape_CellExistsU _ _ _ _ _ Hs))).
    by rewrite Hno.
  - unfold Shapes.setcell.
    rewrite (bind_Ok _ _ _ _ _ _ _ (shape_attr_Some _ _ _)).
    rewrite (bind_Ok _ _ _ _ _ _ _
               (com_answer _ _ w _ _ Hc (invoke_Shape_CellExistsU _ _ _ _ _ Hs))).
    by rewrite Hno.
Qed.

(** X16.  [setlinecolor] writes the formula [RGB(r,g,b)] to the cell
    [LineColor] and to no other cell, so the fill colour is what it was;
    [linecolor] then returns what the application makes of that formula.
    [setfillcolor] and [fillcolor] do the same with the cell
    [Fillforegnd]. *)
Theorem rgb_setters_write_one_cell id s red green blue w :
  calm w →
  Shapes (app w) !! id = Some s →
  is_Some (sh_cells s !! "LineColor") →
  is_Some (sh_cells s !! "Fillforegnd") →
  ∃ w1 w2 w3 w4,
    Shapes.setlinecolor red green blue {| _shape := Some (ShapeObj id) |} w
    = (Ok tt, {| _shape := Some (ShapeObj id) |}, w1)
    ∧ cell_formula w1 id "LineColor" = Some (VStr (RGB red green blue))
    ∧ cell_formula w1 id "Fillforegnd" = cell_formula w id "Fillforegnd"
    ∧ Shapes.linecolor {| _shape := Some (ShapeObj id) |} w1
      = (Ok (FormulaU_of (engine (app w)) (VStr (RGB red green blue))),
         {| _shape := Some (ShapeObj id) |}, w2)
    ∧ Shapes.setfillcolor red green blue {| _shape := Some (ShapeObj id) |} w
      = (Ok tt, {| _shape := Some (ShapeObj id) |}, w3)
    ∧ cell_formula w3 id "Fillforegnd" = Some (VStr (RGB red green blue))
    ∧ cell_formula w3 id "LineColor" = cell_formula w id "LineColor"
    ∧ Shapes.fillcolor {| _shape := Some (ShapeObj id) |} w3
      = (Ok (FormulaU_of (engine (app w)) (VStr (RGB red green blue))),
         {| _shape := Some (ShapeObj id) |}, w4).
Proof.
  intros Hc Hs HL HF.
  set (x := VStr (RGB red green blue)).
  pose (after name :=
          record (Cell_FormulaU_put (CellObj (ShapeObj id) name) x) None
            (set_Shapes <[id := App.set_cells <[name := x]> s]> (app w))
            (record (Shape_CellsU (ShapeObj id) name) None (app w) w)).
  assert (Hca : ∀ name, calm (after name)) by (intros name; unfold after; auto).
  assert (Hsa : ∀ name, Shapes (app (after name)) !! id
                        = Some (App.set_cells <[name := x]> s)).
  { intros name. apply lookup_insert_eq. }
  assert (Hxa : ∀ name, sh_cells (App.set_cells <[name := x]> s) !! name = Some x).
  { intros name. apply lookup_insert_eq. }
  eexists (after "LineColor"), _, (after "Fillforegnd"), _.
  split; [|split; [|split; [|split; [|split; [|split; [|split]]]]]].
  - unfold Shapes.setlinecolor, Shapes.set_linecolor.
    rewrite (bind_Ok _ _ _ _ _ _ _ (shape_attr_Some _ _ _)).
    exact (write_cell id s "LineColor" x _ w Hc Hs HL).
  - unfold cell_formula. rewrite Hsa. exact (Hxa _).
  - unfold cell_formula. rewrite Hsa, Hs. simpl. by rewrite lookup_insert_ne.
  - unfold Shapes.linecolor.
    rewrite (bind_Ok _ _ _ _ _ _ _ (shape_attr_Some _ _ _)).
    exact (read_cell id _ "LineColor" x _ _ (Hca _) (Hsa _) (Hxa _)).
  - unfold Shapes.setfillcolor, Shapes.set_fillcolor.
    rewrite (bind_Ok _ _ _ _ _ _ _ (shape_attr_Some _ _ _)).
    exact (write_cell id s "Fillforegnd" x _ w Hc Hs HF).
  - unfold cell_formula. rewrite Hsa. exact (Hxa _).
  - unfold cell_formula. rewrite Hsa, Hs. simpl. by rewrite lookup_insert_ne.
  - unfold Shapes.fillcolor.
    rewrite (bind_Ok _ _ _ _ _ _ _ (shape_attr_Some _ _ _)).
    exact (read_cell id _ "Fillforegnd" x _ _ (Hca _) (Hsa _) (Hxa _)).
Qed.

(** * shapes.py: the connector *)

Lemma occurs_app sep a b : occurs sep (a +:+ b) = occurs sep a || occurs sep b.
Proof.
  induction a as [|c a IH]; [done|]. simpl. by destruct (decide (c = sep)).
Qed.

Lemma split_whole sep a : occurs sep a = false → split sep a = [a].
Proof.
  induction a as [|c a IH]; [done|]. simpl.
  destruct (decide (c = sep)); [done|]. intros Ha. by rewrite (IH Ha).
Qed.

Lemma split_once sep a b :
  occurs sep a = false → occurs sep b = false →
  split sep (a +:+ String sep b) = [a; b].
Proof.
  intros Ha Hb. induction a as [|c a IH]; simpl.
  - rewrite decide_True by done. by rewrite split_whole.
  - simpl in Ha. destruct (decide (c = sep)); [done|]. by rewrite (IH Ha).
Qed.

Lemma invoke_Cell_ResultStr v id s name x flag :
  Shapes v !! id = Some s → sh_cells s !! name = Some x →
  invoke (Cell_ResultStr (CellObj (ShapeObj id) name) flag) v
  = inr (ResultStr_of (engine v) x, v).
Proof.
  intros Hs Hx. unfold invoke, App.on_cell, App.on_sheet, App.sheet_of.
  by rewrite Hs, Hx.
Qed.

(** The two labels of a [Data_Connect] connector, written and read back:
    [descA] and [descB] are what the setter has made of the text. *)
Lemma labels_written_and_read id s textval descA descB w :
  calm w →
  Shapes (app w) !! id = Some s →
  is_Some (sh_cells s !! "Prop.Port_A_Port_Name") →
  is_Some (sh_cells s !! "Prop.Port_B_Port_Name") →
  (if occurs ";" textval then
     match split ";" textval with
     | [descA; descB] => ret (descA, descB)
     | [] | [_] => raise (ValueError (AStr "need more than 1 value to unpack"))
     | _ => raise (ValueError (AStr "too many values to unpack"))
     end
   else ret (textval, "")) = (ret (descA, descB) : Py VisConnector (string * string)) →
  let self := {| as_VisShape := {| _shape := Some (ShapeObj id) |};
                 _type := "Data_Connect" |} in
  ∃ w1 w2,
    Connector.set_text textval self w = (Ok tt, self, w1)
    ∧ cell_formula w1 id "Prop.Port_A_Port_Name" = Some (VStr (quoted descA))
    ∧ cell_formula w1 id "Prop.Port_B_Port_Name" = Some (VStr (quoted descB))
    ∧ Connector.text self w1
      = (Ok (ResultStr_of (engine (app w)) (VStr (quoted descA)) +:+ ";"
             +:+ ResultStr_of (engine (app w)) (VStr (quoted descB))), self, w2).
Proof.
  intros Hc Hs HA HB Hdesc. cbv zeta.
  set (A := "Prop.Port_A_Port_Name") in *. set (B := "Prop.Port_B_Port_Name") in *.
  set (cA := CellObj (ShapeObj id) A). set (cB := CellObj (ShapeObj id) B).
  set (xA := VStr (quoted descA)). set (xB := VStr (quoted descB)).
  set (wa := record (Shape_Cells (ShapeObj id) A) None (app w) w).
  set (s1 := App.set_cells <[A := xA]> s).
  set (wb := record (Cell_FormulaU_put cA xA) None (set_Shapes <[id := s1]> (app w)) wa).
  assert (Hsb : Shapes (app wb) !! id = Some s1) by apply lookup_insert_eq.
  assert (HB1 : is_Some (sh_cells s1 !! B)).
  { unfold s1. simpl. by rewrite lookup_insert_ne. }
  set (wc := record (Shape_Cells (ShapeObj id) B) None (app wb) wb).
  set (s2 := App.set_cells <[B := xB]> s1).
  set (w1 := record (Cell_FormulaU_put cB xB) None (set_Shapes <[id := s2]> (app wb)) wc).
  assert (Hs1 : Shapes (app w1) !! id = Some s2) by apply lookup_insert_eq.
  assert (HA2 : sh_cells s2 !! A = Some xA).
  { unfold s2, s1. simpl. rewrite lookup_insert_ne by done. apply lookup_insert_eq. }
  assert (HB2 : sh_cells s2 !! B = Some xB) by apply lookup_insert_eq.
  assert (Hca : calm wa) by (unfold wa; auto).
  assert (Hcb : calm wb) by (unfold wb; auto).
  assert (Hcc : calm wc) by (unfold wc; auto).
  assert (Hc1 : calm w1) by (unfold w1; auto).
  set (r1 := record (Shape_Cells (ShapeObj id) A) None (app w1) w1).
  set (r2 := record (Cell_ResultStr cA vC.visNone) None (app w1) r1).
  set (r3 := record (Shape_Cells (ShapeObj id) B) None (app w1) r2).
  assert (Hr1 : calm r1) by (unfold r1; auto).
  assert (Hr2 : calm r2) by (unfold r2; auto).
  assert (Hr3 : calm r3) by (unfold r3; auto).
  exists w1, (record (Cell_ResultStr cB vC.visNone) None (app w1) r3).
  split; [|split; [|split]].
  - unfold Connector.set_text. unfold bind at 1, get_self at 1.
    cbn [_type]. rewrite bool_decide_eq_true_2 by done.
    rewrite Hdesc. unfold bind at 1, ret at 1.
    rewrite (bind_Ok _ _ _ _ _ _ _ (connector_shape_attr_Some _ _ _ _)).
    rewrite (bind_Ok _ _ _ _ _ _ _
               (com_answer _ _ w _ _ Hc (invoke_Shape_Cells _ _ _ _ Hs HA))).
    fold wa cA.
    rewrite (bind_Ok _ _ _ _ _ _ _
               (com_answer _ _ wa _ _ Hca (invoke_Cell_FormulaU_put _ _ _ A xA Hs HA))).
    fold s1 wb.
    rewrite (bind_Ok _ _ _ _ _ _ _ (connector_shape_attr_Some _ _ _ _)).
    rewrite (bind_Ok _ _ _ _ _ _ _
               (com_answer _ _ wb _ _ Hcb (invoke_Shape_Cells _ _ _ _ Hsb HB1))).
    fold wc cB.
    exact (com_answer _ _ wc _ _ Hcc (invoke_Cell_FormulaU_put _ _ _ B xB Hsb HB1)).
  - unfold cell_formula. rewrite Hs1. exact HA2.
  - unfold cell_formula. rewrite Hs1. exact HB2.
  - unfold Connector.text. unfold bind at 1, get_self at 1.
    cbn [_type]. rewrite bool_decide_eq_true_2 by done.
    rewrite (bind_Ok _ _ _ _ _ _ _ (connector_shape_attr_Some _ _ _ _)).
    rewrite (bind_Ok _ _ _ _ _ _ _
               (com_answer _ _ w1 _ _ Hc1
                  (invoke_Shape_Cells _ _ _ _ Hs1 (mk_is_Some _ _ HA2)))).
    fold r1 cA.
    rewrite (bind_Ok _ _ _ _ _ _ _
               (com_answer _ _ r1 _ _ Hr1
                  (invoke_Cell_ResultStr _ _ _ A xA vC.visNone Hs1 HA2))).
    fold r2.
    rewrite (bind_Ok _ _ _ _ _ _ _ (connector_shape_attr_Some _ _ _ _)).
    rewrite (bind_Ok _ _ _ _ _ _ _
               (com_answer _ _ r2 _ _ Hr2
                  (invoke_Shape_Cells _ _ _ _ Hs1 (mk_is_Some _ _ HB2)))).
    fold r3 cB.
    rewrite (bind_Ok _ _ _ _ _ _ _
               (com_answer _ _ r3 _ _ Hr3
                  (invoke_Cell_ResultStr _ _ _ B xB vC.visNone Hs1 HB2))).
    reflexivity.
Qed.

(** X17.  On a [Data_Connect] connector, a text with exactly one [;] is
    split there: the part before goes, quoted, to the label cell of the
    start point and the part after to that of the end point; and where the
    application evaluates the two quoted formulas to the texts quoted,
    reading [text] returns the text that was set. *)
Theorem data_connect_text_round_trip id s descA descB w :
  calm w →
  Shapes (app w) !! id = Some s →
  is_Some (sh_cells s !! "Prop.Port_A_Port_Name") →
  is_Some (sh_cells s !! "Prop.Port_B_Port_Name") →
  occurs ";" descA = false →
  occurs ";" descB = false →
  ResultStr_of (engine (app w)) (VStr (quoted descA)) = descA →
  ResultStr_of (engine (app w)) (VStr (quoted descB)) = descB →
  let self := {| as_VisShape := {| _shape := Some (ShapeObj id) |};
                 _type := "Data_Connect" |} in
  let textval := descA +:+ ";" +:+ descB in
  ∃ w1 w2,
    Connector.set_text textval self w = (Ok tt, self, w1)
    ∧ cell_formula w1 id "Prop.Port_A_Port_Name" = Some (VStr (quoted descA))
    ∧ cell_formula w1 id "Prop.Port_B_Port_Name" = Some (VStr (quoted descB))
    ∧ Connector.text self w1 = (Ok textval, self, w2).
Proof.
  intros Hc Hs HA HB HnA HnB HrA HrB. cbv zeta.
  destruct (labels_written_and_read id s (descA +:+ ";" +:+ descB) descA descB w
              Hc Hs HA HB) as (w1 & w2 & Hset & HcA & HcB & Hget).
  { rewrite occurs_app. simpl. rewrite orb_true_r.
    change (descA +:+ ";" +:+ descB) with (descA +:+ String ";" descB).
    by rewrite (split_once _ _ _ HnA HnB). }
  exists w1, w2. rewrite HrA, HrB in Hget. exact (conj Hset (conj HcA (conj HcB Hget))).
Qed.

(** X18.  On a [Data_Connect] connector the getter is no inverse of the
    setter for a text without [;]: the text goes to the label of the
    start point and the empty text to the other, and what is read back is
    the text followed by a [;], which is not the text that was set. *)
Theorem data_connect_text_gains_a_separator id s textval w :
  calm w →
  Shapes (app w) !! id = Some s →
  is_Some (sh_cells s !! "Prop.Port_A_Port_Name") →
  is_Some (sh_cells s !! "Prop.Port_B_Port_Name") →
  occurs ";" textval = false →
  ResultStr_of (engine (app w)) (VStr (quoted textval)) = textval →
  ResultStr_of (engine (app w)) (VStr (quoted "")) = "" →
  let self := {| as_VisShape := {| _shape := Some (ShapeObj id) |};
                 _type := "Data_Connect" |} in
  ∃ w1 w2,
    Connector.set_text textval self w = (Ok tt, self, w1)
    ∧ Connector.text self w1 = (Ok (textval +:+ ";"), self, w2)
    ∧ textval +:+ ";" ≠ textval.
Proof.
  intros Hc Hs HA HB Hno Hr He. cbv zeta.
  destruct (labels_written_and_read id s textval textval "" w Hc Hs HA HB)
    as (w1 & w2 & Hset & _ & _ & Hget).
  { by rewrite Hno. }
  exists w1, w2. rewrite Hr, He in Hget.
  split; [exact Hset|]. split; [exact Hget|].
  intros Heq. apply (f_equal (occurs ";")) in Heq.
  rewrite occurs_app, Hno in Heq. done.
Qed.

Lemma FromSheet_IDs_reads {Self} id s (self : Self) n i w :
  calm w → Shapes (app w) !! id = Some s →
  (i + n ≤ length (sh_FromConnects s))%nat →
  ∃ w', Connector.FromSheet_IDs (ConnectObj id <$> seq i n) self w
        = (Ok (take n (drop i (sh_FromConnects s))), self, w')
        ∧ calm w' ∧ app w' = app w ∧ log w' = log w.
Proof.
  revert i w. induction n as [|n IH]; intros i w Hc Hs Hlen.
  { exists w. by rewrite take_0. }
  destruct (lookup_lt_is_Some_2 (sh_FromConnects s) i) as [x Hx]; [lia|].
  set (w1 := record (Connect_FromSheet_ID (ConnectObj id i)) None (app w) w).
  destruct (IH (S i) w1) as (w' & Hrun & Hc' & Ha & Hl); [unfold w1; auto|done|lia|].
  exists w'. split; [|done].
  cbn [seq fmap list_fmap Connector.FromSheet_IDs].
  assert (Hi : invoke (Connect_FromSheet_ID (ConnectObj id i)) (app w) = inr (x, app w)).
  { unfold invoke, App.on_sheet, App.sheet_of. by rewrite Hs, Hx. }
  rewrite (bind_Ok _ _ _ _ _ _ _ (com_answer _ self w _ _ Hc Hi)). fold w1.
  change (list_fmap nat IVConnect (ConnectObj id) (seq (S i) n))
    with (ConnectObj id <$> seq (S i) n).
  rewrite (bind_Ok _ _ _ _ _ _ _ Hrun).
  by rewrite (drop_S _ _ _ Hx).
Qed.

Lemma FromSheet_IDs_all {Self} id s (self : Self) w :
  calm w → Shapes (app w) !! id = Some s →
  ∃ w', Connector.FromSheet_IDs
          (ConnectObj id <$> seq 0 (length (sh_FromConnects s))) self w
        = (Ok (sh_FromConnects s), self, w')
        ∧ calm w' ∧ app w' = app w ∧ log w' = log w.
Proof.
  intros Hc Hs.
  destruct (FromSheet_IDs_reads id s self (length (sh_FromConnects s)) 0 w Hc Hs)
    as (w' & Hrun & H'); [lia|].
  exists w'. split; [|done]. rewrite Hrun. by rewrite drop_0, firstn_all.
Qed.

(** X19.  The constructor of [VisConnector] finds the connector it has
    made: [AutoConnect] returns nothing, so the constructor lists the
    shapes connected to [shapeA] before and after the call and takes the
    one that is new.  For two shapes of one page and a connector master
    that resolves, the object built holds the shape the application has
    just created, and its type is the name of that shape up to the first
    dot. *)
Theorem connector_is_the_new_shape ia ib sa sb connector ms placementDir w :
  calm w →
  Shapes (app w) !! ia = Some sa →
  Shapes (app w) !! ib = Some sb →
  sh_page sa = sh_page sb →
  App.connector_master (app w) connector = Some ms →
  Shapes (app w) !! fresh (app w) = None →
  fresh (app w) ∉ sh_FromConnects sa →
  let id := fresh (app w) in
  let conn := App.instantiate (app w) ms (sh_page sa) true (λ c, c) in
  ∃ w',
    Connector.__init__ {| _shape := Some (ShapeObj ia) |}
      {| _shape := Some (ShapeObj ib) |} connector placementDir None tt w
    = (Ok {| as_VisShape := {| _shape := Some (ShapeObj id) |};
             _type := default "" (head (split "." (sh_NameU conn))) |}, tt, w')
    ∧ Shapes (app w') !! id = Some conn
    ∧ log w' = log w.
Proof.
  intros Hc Ha Hb Hpage Hms Hnew Hnotin id conn.
  set (l := sh_FromConnects sa).
  set (a := ShapeObj ia).
  assert (Hia : ia ≠ id) by (intros ->; unfold id in Ha; congruence).
  (* the shapes after [AutoConnect] *)
  set (shapes' := <[id := conn]>
                    (alter (App.add_connect id) ib
                       (alter (App.add_connect id) ia (Shapes (app w))))).
  set (v3 := bump (set_Shapes (λ _, shapes') (app w))).
  assert (∃ sa', shapes' !! ia = Some sa' ∧ sh_page sa' = sh_page sa
                 ∧ (sh_FromConnects sa' = l ++ [id]
                    ∨ sh_FromConnects sa' = (l ++ [id]) ++ [id]))
    as (sa' & Ha' & Hpage' & Hl').
  { unfold shapes'. rewrite lookup_insert_ne by done.
    destruct (decide (ib = ia)) as [->|Hne].
    - rewrite lookup_alter_eq, lookup_alter_eq, Ha. simpl. eexists.
      split; [done|]. split; [done|]. by right.
    - rewrite lookup_alter_ne by done. rewrite lookup_alter_eq, Ha. simpl. eexists.
      split; [done|]. split; [done|]. by left. }
  assert (Hid' : shapes' !! id = Some conn) by apply lookup_insert_eq.
  assert (Hdiff : elements (list_to_set (sh_FromConnects sa') ∖ list_to_set l : gset nat)
                  = [id]).
  { assert (list_to_set (sh_FromConnects sa') ∖ list_to_set l = ({[id]} : gset nat))
      as ->; [|apply elements_singleton].
    apply leibniz_equiv, set_equiv. intros k.
    rewrite elem_of_difference, !elem_of_list_to_set, elem_of_singleton.
    destruct Hl' as [-> | ->]; rewrite !elem_of_app, !list_elem_of_singleton.
    - split; [tauto|]. intros ->. split; [by right|done].
    - split; [tauto|]. intros ->. split; [by right|done]. }
  (* the calls, one by one *)
  set (w1 := record (Shape_FromConnects a) None (app w) w).
  assert (H1 : invoke (Shape_FromConnects a) (app w)
               = inr (ConnectObj ia <$> seq 0 (length l), app w)).
  { unfold a, invoke, App.on_sheet, App.sheet_of. by rewrite Ha. }
  destruct (FromSheet_IDs_all ia sa tt w1) as (w2 & H2 & Hc2 & Ha2 & Hl2);
    [unfold w1; auto|done|].
  assert (H3 : invoke (Shape_AutoConnect a (Some (ShapeObj ib)) placementDir connector)
                 (app w2) = inr (tt, v3)).
  { rewrite Ha2. change (app w1) with (app w).
    unfold a, invoke, App.auto_connect. rewrite Ha, Hb, Hms.
    by rewrite decide_True. }
  set (w3 := record (Shape_AutoConnect a (Some (ShapeObj ib)) placementDir connector)
               None v3 w2).
  assert (H4 : invoke (Shape_FromConnects a) (app w3)
               = inr (ConnectObj ia <$> seq 0 (length (sh_FromConnects sa')), v3)).
  { unfold a, invoke, App.on_sheet, App.sheet_of. simpl. by rewrite Ha'. }
  set (w4 := record (Shape_FromConnects a) None v3 w3).
  destruct (FromSheet_IDs_all ia sa' tt w4) as (w5 & H5 & Hc5 & Ha5 & Hl5);
    [unfold w4, w3; auto|exact Ha'|].
  assert (H6 : invoke (Shape_ContainingPage_Shapes_ItemFromID a id) (app w5)
               = inr (ShapeObj id, v3)).
  { rewrite Ha5. unfold a, invoke, App.on_sheet, App.sheet_of. simpl.
    rewrite Ha', Hid'. simpl. by rewrite decide_True. }
  set (w6 := record (Shape_ContainingPage_Shapes_ItemFromID a id) None v3 w5).
  assert (H7 : invoke (Shape_NameU (ShapeObj id)) (app w6) = inr (sh_NameU conn, v3)).
  { unfold invoke, App.on_sheet, App.sheet_of. simpl. by rewrite Hid'. }
  exists (record (Shape_NameU (ShapeObj id)) None v3 w6).
  split; [|split; [exact Hid'|]].
  - unfold Connector.__init__.
    rewrite (bind_Ok _ _ _ _ _ _ _
               (eq_refl : on_object {| _shape := Some a |}
                            (Shapes.shape_attr "FromConnects") tt w
                          = (Ok (a, {| _shape := Some a |}), tt, w))).
    cbv zeta. cbn [fst].
    rewrite (bind_Ok _ _ _ _ _ _ _ (com_answer _ tt w _ _ Hc H1)). fold w1.
    rewrite (bind_Ok _ _ _ _ _ _ _ H2).
    cbn [_shape].
    rewrite (bind_Ok _ _ _ _ _ _ _ (com_answer _ tt w2 _ _ Hc2 H3)). fold w3.
    assert (Hc3 : calm w3) by (unfold w3; auto).
    rewrite (bind_Ok _ _ _ _ _ _ _ (com_answer _ tt w3 _ _ Hc3 H4)). fold w4.
    rewrite (bind_Ok _ _ _ _ _ _ _ H5).
    fold l. rewrite Hdiff.
    rewrite (bind_Ok _ _ _ _ _ _ _ (com_answer _ tt w5 _ _ Hc5 H6)). fold w6.
    assert (Hc6 : calm w6) by (unfold w6; auto).
    rewrite (bind_Ok _ _ _ _ _ _ _ (com_answer _ tt w6 _ _ Hc6 H7)).
    reflexivity.
  - simpl. rewrite Hl5. simpl. rewrite Hl2. reflexivity.
Qed.

(** * stencils.py: the constructor *)

Section stencils_constructor.
Context `{OsPath}.

Lemma add_stencils_load args self w :
  calm w →
  (∀ f, f ∈ args → is_Some (disk (app w) !! f)) →
  ∃ self' w',
    for_each args Stencils.add_stencil self w = (Ok tt, self', w')
    ∧ dom (__stencils self')
      = dom (__stencils self) ∪ list_to_set (Stencils.key_of <$> args)
    ∧ (fresh (app w') + base.size (dom (__stencils self))
       = fresh (app w) + base.size (dom (__stencils self')))%nat
    ∧ log w' = log w.
Proof.
  revert self w. induction args as [|f args IH]; intros self w Hc Hdisk.
  { exists self, w. split; [done|]. split; [|done].
    apply leibniz_equiv, set_equiv. intros k. cbn [fmap list_fmap list_to_set].
    rewrite elem_of_union, elem_of_empty. tauto. }
  destruct (Hdisk f) as [lib Hlib]; [by left|].
  assert (Hstep : ∃ s1 w1,
            Stencils.add_stencil f self w = (Ok tt, s1, w1)
            ∧ calm w1 ∧ disk (app w1) = disk (app w)
            ∧ dom (__stencils s1) = {[Stencils.key_of f]} ∪ dom (__stencils self)
            ∧ (fresh (app w1) + base.size (dom (__stencils self))
               = fresh (app w) + base.size (dom (__stencils s1)))%nat
            ∧ log w1 = log w).
  { destruct (decide (Stencils.key_of f ∈ dom (__stencils self))) as [Hin|Hnew].
    - exists self, w. split; [by apply add_stencil_loaded_key|].
      repeat split; try done.
      apply leibniz_equiv, set_equiv. intros k.
      rewrite elem_of_union, elem_of_singleton. split; [tauto|].
      by intros [->|?].
    - destruct (add_stencil_loads f lib self w Hc Hnew Hlib)
        as (w1 & Hrun & Hc1 & Hd1 & _ & Hf1 & Hl1).
      eexists _, w1. split; [exact Hrun|]. cbn [__stencils].
      rewrite dom_insert_L. repeat split; try done.
      rewrite size_union by (apply disjoint_singleton_l; exact Hnew).
      rewrite size_singleton, Hf1. lia. }
  destruct Hstep as (s1 & w1 & Hrun & Hc1 & Hd1 & Hdom1 & Hf1 & Hl1).
  destruct (IH s1 w1 Hc1) as (s2 & w2 & Hrest & Hdom2 & Hf2 & Hl2).
  { intros g Hg. rewrite Hd1. apply Hdisk. by right. }
  exists s2, w2. split; [|split; [|split]].
  - cbn [for_each]. by rewrite (bind_Ok _ _ _ _ _ _ _ Hrun).
  - rewrite Hdom2, Hdom1. cbn [fmap list_fmap list_to_set].
    apply leibniz_equiv, set_equiv. intros k.
    rewrite !elem_of_union, elem_of_singleton. tauto.
  - lia.
  - by rewrite Hl2.
Qed.

(** X20.  The constructor of [VisStencils], given files that the
    application can open, returns with exactly the keys of its arguments
    loaded, whatever the object held before; and it has opened one
    document for each key, not for each argument: an argument whose key
    an earlier one has is not opened. *)
Theorem constructor_opens_each_key_once args self0 w :
  calm w →
  (∀ f, f ∈ args → is_Some (disk (app w) !! f)) →
  ∃ self w',
    Stencils.__init__ args self0 w = (Ok tt, self, w')
    ∧ dom (__stencils self) = list_to_set (Stencils.key_of <$> args)
    ∧ fresh (app w') = (fresh (app w) + base.size (dom (__stencils self)))%nat
    ∧ log w' = log w.
Proof.
  intros Hc Hdisk.
  destruct (add_stencils_load args {| __stencils := ∅; __shapes := ∅ |} w Hc Hdisk)
    as (self & w' & Hrun & Hdom & Hf & Hl).
  exists self, w'. split; [exact Hrun|]. split; [|split; [|exact Hl]].
  - rewrite Hdom. cbn [__stencils]. rewrite dom_empty_L.
    apply leibniz_equiv, set_equiv. intros k.
    rewrite elem_of_union, elem_of_empty. tauto.
  - cbn [__stencils] in Hf. rewrite dom_empty_L, size_empty in Hf. lia.
Qed.

End stencils_constructor.

(** * visCOM.py: the import *)

Section the_import.
Context `{Pythoncom}.


End the_import.

(** * documents.py: the constructor *)

(** X22.  The constructor of [VisDocument] makes two calls when it
    returns: [Documents.Open] of the file when [rw] is set and
    [Documents.Add] of the file (a copy of it) when it is not, then
    [Pages] of the document it got; the object keeps the file name, that
    document and its page collection.  When it raises, the error is the
    [com_error] of one of the two calls. *)
Theorem constructor_opens_as_asked filename (rw : bool) w :
  match Documents.__init__ filename rw tt w with
  | (Ok self, _, w') =>
      _filename self = filename
      ∧ ∃ d,
          _document self = DocumentObj d ∧ _pages self = PagesObj d
          ∧ trace w'
            = trace w ++
                [ {| ev_call := if rw then existT _ (Documents_Open filename)
                                else existT _ (Documents_Add filename);
                     ev_error := None |};
                  {| ev_call := existT _ (Document_Pages (DocumentObj d));
                     ev_error := None |} ]
  | (Raise e, _, _) => ∃ hr, e = com_error hr
  end.
Proof.
  destruct (Documents.__init__ filename rw tt w) as [[r u] w'] eqn:Hrun.
  unfold Documents.__init__ in Hrun.
  apply bind_inv in Hrun as [(doc & s1 & w1 & H1 & Hrun)|(e & H1 & ->)].
  - assert (w1 = record (if rw then Documents_Open filename
                         else Documents_Add filename) None (app w1) w) as Hw1.
    { unfold try_com in H1. destruct rw; simpl in H1.
      + destruct (com (Documents_Open filename) tt w) as [[r0 s0] w0] eqn:Hc0.
        destruct (com_inv _ _ _ _ _ _ Hc0) as [_ [(a & v & -> & _)|(hr & -> & _)]];
          [|discriminate H1].
        injection H1 as -> _ ->. by apply com_Ok_inv in Hc0 as (v' & _ & _ & ->).
      + destruct (com (Documents_Add filename) tt w) as [[r0 s0] w0] eqn:Hc0.
        destruct (com_inv _ _ _ _ _ _ Hc0) as [_ [(a & v & -> & _)|(hr & -> & _)]];
          [|discriminate H1].
        injection H1 as -> _ ->. by apply com_Ok_inv in Hc0 as (v' & _ & _ & ->). }
    apply bind_inv in Hrun as [(pages & s2 & w2 & H2 & Hret)|(e & H2 & ->)].
    + injection Hret as <- _ <-. apply com_Ok_inv in H2 as (v & Hi & _ & ->).
      split; [done|]. destruct doc as [d]. exists d.
      unfold invoke, App.on_document in Hi.
      destruct (Documents (app w1) !! d); [|discriminate Hi].
      injection Hi as <- _. split; [done|]. split; [done|].
      simpl. rewrite Hw1. simpl. rewrite <- app_assoc. by destruct rw.
    + apply com_inv in H2 as [_ [(a & v & [=] & _)|(hr & [= ->] & _)]]. by exists hr.
  - unfold try_com in H1. destruct rw; simpl in H1.
    + destruct (com (Documents_Open filename) tt w) as [[r0 s0] w0] eqn:Hc0.
      apply com_inv in Hc0 as [_ [(a & v & -> & _)|(hr & -> & _)]];
        [discriminate H1|].
      injection H1 as <-. by exists hr.
    + destruct (com (Documents_Add filename) tt w) as [[r0 s0] w0] eqn:Hc0.
      apply com_inv in Hc0 as [_ [(a & v & -> & _)|(hr & -> & _)]];
        [discriminate H1|].
      injection H1 as <-. by exists hr.
Qed.

(** * The statements at work on the example worlds *)

Lemma calm_loaded : calm Demo.loaded.2.
Proof. intros n. vm_compute. reflexivity. Qed.

Lemma calm_world1 : calm Scene.world1.
Proof. intros n. reflexivity. Qed.

Lemma calm_racks_loaded : calm Scene.racks_loaded.2.
Proof. intros n. vm_compute. reflexivity. Qed.

Lemma add_stencil_failure_registers_nothing_witness :
  Stencils.add_stencil "wrong name.vss" Demo.no_stencils Demo.world0
  = (Raise (com_error DISP_E_EXCEPTION), Demo.no_stencils,
     emit (log_error "COM Exception: %s" [AReason DISP_E_EXCEPTION])
       (emit (log_error "Loading of stencil file failed for: %s"
                [AStr "wrong name.vss"])
          (record (Documents_OpenEx "wrong name.vss" vC.visOpenDocked)
             (Some DISP_E_EXCEPTION) Demo.visio0 Demo.world0))).
Proof.
  apply (add_stencil_failure_registers_nothing "wrong name.vss"
           Demo.no_stencils Demo.world0).
  - apply (bool_decide_unpack _). vm_compute. exact I.
  - vm_compute; reflexivity.
Defined.

Lemma registry_stays_consistent_witness :
  ∃ r self w',
    Stencils.session
      [Stencils.Add_stencil "periph_m.vss"; Stencils.Get "Server" 5;
       Stencils.Add_stencil "wrong name.vss"] no_stencils Demo.world0
    = (r, self, w')
    ∧ consistent self
    ∧ get_outcome "Server" 7 (Stencils.get "Server" 7 self w').1.1.
Proof.
  destruct (Stencils.session
              [Stencils.Add_stencil "periph_m.vss"; Stencils.Get "Server" 5;
               Stencils.Add_stencil "wrong name.vss"] no_stencils Demo.world0)
    as [[r self] w'] eqn:Hrun.
  exists r, self, w'. split; [reflexivity|].
  exact (registry_stays_consistent _ _ _ _ _ "Server" 7 w' Hrun).
Defined.

Lemma load_shifts_earlier_definitions_witness :
  ∃ self' w' w2,
    Stencils.add_stencil "Basic Shapes.vss" Demo.loaded.1.2 Demo.loaded.2
    = (Ok tt, self', w')
    ∧ Stencils.get "Dynamic connector" 1 self' w' = (Ok (MasterObj 2 1), self', w2).
Proof.
  destruct (load_shifts_earlier_definitions "Basic Shapes.vss" Demo.basic
              Demo.loaded.1.2 Demo.loaded.2 "Dynamic connector" 0 (MasterObj 2 1)
              (record (Masters_ItemU (DocumentObj 2) "Dynamic connector") None
                 (app Demo.loaded.2) Demo.loaded.2))
    as (self' & w' & w2 & Hadd & Hget).
  - exact calm_loaded.
  - apply (bool_decide_unpack _). vm_compute. exact I.
  - vm_compute; reflexivity.
  - apply (bool_decide_unpack _). vm_compute. exact I.
  - vm_compute; reflexivity.
  - vm_compute; reflexivity.
  - assert (Hin : bool_decide ("Dynamic connector" ∈ master_names Demo.basic) = true)
      by (vm_compute; reflexivity).
    rewrite Hin in Hget. exists self', w', w2. exact (conj Hadd Hget).
Defined.

Lemma iteration_after_load_witness :
  ∃ self' w' names,
    Stencils.add_stencil "periph_m.vss" Demo.no_stencils Demo.world0
    = (Ok tt, self', w')
    ∧ Stencils.__iter__ self' w' = (Ok names, self', w')
    ∧ NoDup names
    ∧ "Server" ∈ names.
Proof.
  destruct (iteration_after_load "periph_m.vss" Demo.periph Demo.no_stencils
              Demo.world0)
    as (self' & w' & names & Hadd & Hiter & Hnd & Hall).
  - exact calm_world0.
  - apply (bool_decide_unpack _). vm_compute. exact I.
  - vm_compute; reflexivity.
  - exists self', w', names.
    refine (conj Hadd (conj Hiter (conj Hnd _))).
    apply Hall. right. apply (bool_decide_unpack _). vm_compute. exact I.
Defined.

Lemma get_info_placeholder_witness :
  ∃ w',
    Stencils.get_info "Rack" 0 Scene.racks_loaded.1.2 Scene.racks_loaded.2
    = (Ok placeholder_info, Scene.racks_loaded.1.2, w')
    ∧ log w'
      = log Scene.racks_loaded.2
        ++ [log_warning "Object type is not 'master', results unpredictable" []].
Proof.
  apply (get_info_placeholder "Rack" 0 Scene.racks_loaded.1.2 Scene.racks_loaded.2
           (MasterObj 3 0)
           (record (Masters_ItemU (DocumentObj 3) "Rack") None
              (app Scene.racks_loaded.2) Scene.racks_loaded.2)
           Scene.rack).
  - exact calm_racks_loaded.
  - vm_compute; reflexivity.
  - vm_compute; reflexivity.
  - right. vm_compute. intros Heq. discriminate Heq.
Defined.

Lemma get_info_measures_the_shape_witness :
  ∃ w',
    Stencils.get_info "Server" 0 Demo.loaded.1.2 Demo.loaded.2
    = (Ok {| objectType := vC.visObjTypeMaster; shapesCount := 1;
             width := ResultIU_of (engine (app Demo.loaded.2)) (VFloat 1%float);
             height := ResultIU_of (engine (app Demo.loaded.2)) (VFloat 1%float);
             size := box_size
                       (BoundingBox_of (engine (app Demo.loaded.2))
                          (Demo.sheet "Server"
                             [("Width", VFloat 1%float); ("Height", VFloat 1%float)])) |},
       Demo.loaded.1.2, w')
    ∧ log w' = log Demo.loaded.2.
Proof.
  apply (get_info_measures_the_shape "Server" 0 Demo.loaded.1.2 Demo.loaded.2
           (MasterObj 2 0)
           (record (Masters_ItemU (DocumentObj 2) "Server") None
              (app Demo.loaded.2) Demo.loaded.2)
           (Demo.master "Server")).
  - exact calm_loaded.
  - vm_compute; reflexivity.
  - vm_compute; reflexivity.
  - reflexivity.
  - reflexivity.
  - vm_compute; reflexivity.
  - vm_compute; reflexivity.
Defined.

Lemma export_of_unknown_shape_witness :
  ∃ w',
    Stencils.export "C:\data\stencil.png" "PC" 0 Demo.no_stencils Demo.world0
    = (Raise (KeyError (AStr "PC")), Demo.no_stencils, w')
    ∧ RasterExportUseTransparencyColor (app w') = -1
    ∧ log w' = log Demo.world0 ++ [log_error "Non existing shape: %s" [AStr "PC"]].
Proof.
  apply (export_of_unknown_shape "C:\data\stencil.png" "PC" 0 Demo.no_stencils
           Demo.world0).
  - exact calm_world0.
  - vm_compute; reflexivity.
Defined.

Lemma pages_iteration_len_membership_witness :
  (∃ w', Documents.__iter__ Demo.doc0 Demo.world0 = (Ok ["Page-1"], Demo.doc0, w'))
  ∧ (∃ w', Documents.__len__ Demo.doc0 Demo.world0 = (Ok 1, Demo.doc0, w'))
  ∧ (∃ w', Documents.__contains__ "Page-2" Demo.doc0 Demo.world0
           = (Ok false, Demo.doc0, w')).
Proof.
  destruct (pages_iteration_len_membership 0 App.blank_document Demo.doc0
              Demo.world0 "Page-2") as (Hiter & Hlen & Hin).
  - exact calm_world0.
  - reflexivity.
  - vm_compute; reflexivity.
  - assert (Hno : bool_decide ("Page-2" ∈ pg_NameU <$> dc_Pages App.blank_document)
                  = false) by (vm_compute; reflexivity).
    rewrite Hno in Hin. exact (conj Hiter (conj Hlen Hin)).
Defined.

Lemma add_keeps_the_page_when_naming_fails_witness :
  ∃ w' doc',
    Documents.add (Some "TestPage") Demo.doc0 (Demo.failing_at 2 (-5) Demo.world0)
    = (Raise (com_error (-5)), Demo.doc0, w')
    ∧ Documents (app w') !! 0%nat = Some doc'
    ∧ length (dc_Pages doc') = 2%nat.
Proof.
  destruct (add_keeps_the_page_when_naming_fails 0 App.blank_document "TestPage"
              Demo.doc0 (Demo.failing_at 2 (-5) Demo.world0) (-5))
    as (w' & doc' & Hadd & Hdoc & Hlen & _).
  - reflexivity.
  - vm_compute; reflexivity.
  - vm_compute; reflexivity.
  - vm_compute; reflexivity.
  - vm_compute; reflexivity.
  - exists w', doc'. exact (conj Hadd (conj Hdoc Hlen)).
Defined.

Lemma failed_fetch_is_reported_as_missing_witness :
  Documents.setProperty "Creature" (VStr "Someone") Demo.doc0 Demo.world0
  = (Raise (AttributeError (AStr "Creature")), Demo.doc0,
     emit (log_error "Property does not exist: %s" [AStr "Creature"]) Demo.world0).
Proof.
  destruct (failed_fetch_is_reported_as_missing "Creature" (VStr "Someone")
              Demo.doc0 Demo.world0 (AttributeError (AStr "Creature"))
              Demo.doc0 Demo.world0) as (_ & Hset & _).
  - vm_compute; reflexivity.
  - exact Hset.
Defined.

Lemma setProperty_then_getattr_witness :
  ∃ w1 w2,
    Documents.setProperty "Creator" (VStr "Myself") Demo.doc0 Demo.world0
    = (Ok tt, Demo.doc0, w1)
    ∧ Documents.__getattr__ "Creator" Demo.doc0 w1 = (Ok (VStr "Myself"), Demo.doc0, w2).
Proof.
  destruct (setProperty_then_getattr 0 App.blank_document "Creator" (VStr "Myself")
              Demo.doc0 Demo.world0) as (w1 & w2 & Hset & Hget & _).
  - exact calm_world0.
  - reflexivity.
  - vm_compute; reflexivity.
  - apply (bool_decide_unpack _). vm_compute. exact I.
  - exists w1, w2. exact (conj Hset Hget).
Defined.

Lemma handle_changes_only_when_delete_returns_witness :
  ∃ r self' w',
    Shapes.delete vC.visDeleteNormal Demo.box0 (Demo.failing_at 0 (-5) Demo.world0)
    = (r, self', w')
    ∧ (self' = Demo.box0
       ∨ (_shape self' = None
          ∧ (∃ a, r = Ok a)
          ∧ ∃ sh flags,
              _shape Demo.box0 = Some sh
              ∧ last (trace w')
                = Some {| ev_call := existT _ (Shape_DeleteEx sh flags);
                          ev_error := None |})).
Proof.
  destruct (Shapes.delete vC.visDeleteNormal Demo.box0
              (Demo.failing_at 0 (-5) Demo.world0)) as [[r self'] w'] eqn:Hrun.
  exists r, self', w'. split; [reflexivity|].
  exact (handle_changes_only_when_delete_returns _ _ _ _ _ _
           (method_delete vC.visDeleteNormal) Hrun).
Defined.


Lemma missing_cell_is_an_AttributeError_witness :
  Shapes.cell "ShapeRouteStyle" Demo.box0 Demo.world0
  = (Raise (AttributeError ANone), Demo.box0,
     record (Shape_CellExistsU (ShapeObj 0) "ShapeRouteStyle" 0) None Demo.visio0
       Demo.world0).
Proof.
  destruct (missing_cell_is_an_AttributeError 0 Demo.box "ShapeRouteStyle" "1" false
              Demo.world0) as [Hcell _].
  - exact calm_world0.
  - vm_compute; reflexivity.
  - vm_compute; reflexivity.
  - exact Hcell.
Defined.

Lemma rgb_setters_write_one_cell_witness :
  ∃ w1,
    Shapes.setlinecolor 0 255 0 Scene.circle2 Scene.world1
    = (Ok tt, Scene.circle2, w1)
    ∧ cell_formula w1 2 "LineColor" = Some (VStr "RGB(0,255,0)")
    ∧ cell_formula w1 2 "Fillforegnd" = Some (VStr "1").
Proof.
  destruct (rgb_setters_write_one_cell 2 Scene.circle 0 255 0 Scene.world1)
    as (w1 & w2 & w3 & w4 & Hset & Hline & Hfill & _).
  - exact calm_world1.
  - vm_compute; reflexivity.
  - vm_compute. exact (ex_intro _ _ eq_refl).
  - vm_compute. exact (ex_intro _ _ eq_refl).
  - exists w1. split; [exact Hset|]. split.
    + rewrite Hline. vm_compute; reflexivity.
    + rewrite Hfill. vm_compute; reflexivity.
Defined.

Lemma data_connect_text_round_trip_witness :
  ∃ w1 w2,
    Connector.set_text "to Box1;to Box4" Demo.link1 Scene.world1
    = (Ok tt, Demo.link1, w1)
    ∧ Connector.text Demo.link1 w1 = (Ok "to Box1;to Box4", Demo.link1, w2).
Proof.
  destruct (data_connect_text_round_trip 1 Demo.link "to Box1" "to Box4" Scene.world1)
    as (w1 & w2 & Hset & _ & _ & Hget).
  - exact calm_world1.
  - vm_compute; reflexivity.
  - vm_compute. exact (ex_intro _ _ eq_refl).
  - vm_compute. exact (ex_intro _ _ eq_refl).
  - vm_compute; reflexivity.
  - vm_compute; reflexivity.
  - vm_compute; reflexivity.
  - vm_compute; reflexivity.
  - exists w1, w2. exact (conj Hset Hget).
Defined.

Lemma data_connect_text_gains_a_separator_witness :
  ∃ w1 w2,
    Connector.set_text "abcd" Demo.link1 Scene.world1 = (Ok tt, Demo.link1, w1)
    ∧ Connector.text Demo.link1 w1 = (Ok "abcd;", Demo.link1, w2).
Proof.
  destruct (data_connect_text_gains_a_separator 1 Demo.link "abcd" Scene.world1)
    as (w1 & w2 & Hset & Hget & _).
  - exact calm_world1.
  - vm_compute; reflexivity.
  - vm_compute. exact (ex_intro _ _ eq_refl).
  - vm_compute. exact (ex_intro _ _ eq_refl).
  - vm_compute; reflexivity.
  - vm_compute; reflexivity.
  - vm_compute; reflexivity.
  - exists w1, w2. exact (conj Hset Hget).
Defined.

Lemma connector_is_the_new_shape_witness :
  ∃ w' conn,
    Connector.__init__ Demo.box0 {| _shape := Some (ShapeObj 1) |} None
      vC.visAutoConnectDirNone None tt Demo.world0
    = (Ok {| as_VisShape := {| _shape := Some (ShapeObj 2) |};
             _type := "Dynamic connector" |}, tt, w')
    ∧ Shapes (app w') !! 2%nat = Some conn
    ∧ sh_OneD conn = true.
Proof.
  destruct (connector_is_the_new_shape 0 1 Demo.box Demo.link None
              App.dynamic_connector vC.visAutoConnectDirNone Demo.world0)
    as (w' & Hinit & Hconn & _).
  - exact calm_world0.
  - vm_compute; reflexivity.
  - vm_compute; reflexivity.
  - reflexivity.
  - reflexivity.
  - vm_compute; reflexivity.
  - vm_compute. intros Hin. inversion Hin.
  - exists w', (App.instantiate (app Demo.world0) App.dynamic_connector
                  (sh_page Demo.box) true (λ c, c)).
    split; [|split; [exact Hconn|reflexivity]].
    assert (Hty : default "" (head (split "."
                    (sh_NameU (App.instantiate (app Demo.world0) App.dynamic_connector
                                 (sh_page Demo.box) true (λ c, c)))))
                  = "Dynamic connector") by (vm_compute; reflexivity).
    rewrite Hty in Hinit. exact Hinit.
Defined.

Lemma constructor_opens_each_key_once_witness :
  ∃ self w',
    Stencils.__init__ ["periph_m.vss"; "D:\old\periph_m.vss"; "Basic Shapes.vss"]
      Demo.no_stencils Demo.world0 = (Ok tt, self, w')
    ∧ dom (__stencils self) = {["periph_m"; "Basic Shapes"]}
    ∧ fresh (app w') = 4%nat.
Proof.
  destruct (constructor_opens_each_key_once
              ["periph_m.vss"; "D:\old\periph_m.vss"; "Basic Shapes.vss"]
              Demo.no_stencils Demo.world0)
    as (self & w' & Hinit & Hdom & Hfresh & _).
  - exact calm_world0.
  - intros f Hf. rewrite !elem_of_cons, elem_of_nil in Hf.
    destruct Hf as [->|[->|[->|[]]]]; vm_compute; exact (ex_intro _ _ eq_refl).
  - exists self, w'. split; [exact Hinit|].
    assert (Hkeys : (list_to_set (Stencils.key_of <$>
                       ["periph_m.vss"; "D:\old\periph_m.vss"; "Basic Shapes.vss"])
                     : gset string) = {["periph_m"; "Basic Shapes"]}).
    { apply leibniz_equiv, set_equiv. intros k.
      change (Stencils.key_of <$> _)
        with [Stencils.key_of "periph_m.vss"; Stencils.key_of "D:\old\periph_m.vss";
              Stencils.key_of "Basic Shapes.vss"].
      assert (Stencils.key_of "periph_m.vss" = "periph_m") as -> by (vm_compute; reflexivity).
      assert (Stencils.key_of "D:\old\periph_m.vss" = "periph_m") as ->
        by (vm_compute; reflexivity).
      assert (Stencils.key_of "Basic Shapes.vss" = "Basic Shapes") as ->
        by (vm_compute; reflexivity).
      cbn [list_to_set]. rewrite !elem_of_union, !elem_of_singleton, elem_of_empty.
      tauto. }
    rewrite Hkeys in Hdom. split; [exact Hdom|].
    rewrite Hfresh, Hdom. rewrite size_union by (apply disjoint_singleton_l;
      rewrite elem_of_singleton; intros Heq; discriminate Heq).
    rewrite !size_singleton. reflexivity.
Defined.

